(** * phconvert.hdf5: path analysis, Photon-HDF5 validation and saving

    A shallow embedding of [phconvert/hdf5.py], as Python 3 runs it.
    Python strings are [string]s, and so is the content of a [bytes]
    object; where the module mixes the two types a value carries its type.
    Dictionaries are [gmap]s, PyTables nodes are a finite tree of groups
    and leaves, and a Python computation that may print, mutate and raise
    is a function from a state to a state and either an exception or a
    value.

    The file has three parts: the program; the definitions that the
    statements use and the sample inputs; the lemmas and theorems.  The
    program is the path analysis, the validator, the save operation and
    the two functions on free-form dictionaries; [load_photon_hdf5] and the
    two functions that print a file are left out. *)

From Stdlib Require Import String Ascii List Bool Arith ZArith Lia.

From stdpp Require Import base strings gmap list option.

Import ListNotations.

Local Open Scope string_scope.

Local Open Scope list_scope.

(** * Part I: the program *)

(** ** Python strings and bytes *)

Module PyStr.

(** The double-quote character, which the messages of the module use. *)
Definition dq : string := String (ascii_of_nat 34) EmptyString.

(** The newline character, the only one the regular expression [.]
    refuses. *)
Definition newline : ascii := ascii_of_nat 10.

(** [s.startswith(p)] *)
Definition startswith (s p : string) : bool := String.prefix p s.

(** [s.endswith(p)] *)
Fixpoint endswith (s p : string) : bool :=
  if String.eqb s p then true
  else match s with
       | EmptyString => false
       | String _ s' => endswith s' p
       end.

(** [sub in s] on two strings: [sub] occurs in [s]. *)
Fixpoint contains (sub s : string) : bool :=
  if String.prefix sub s then true
  else match s with
       | EmptyString => false
       | String _ s' => contains sub s'
       end.

(** [s.split(c)] for a one-character separator. *)
Fixpoint split (c : ascii) (s : string) : list string :=
  match s with
  | EmptyString => [EmptyString]
  | String a s' =>
      if Ascii.eqb a c then EmptyString :: split c s'
      else match split c s' with
           | h :: t => String a h :: t
           | [] => [String a EmptyString]
           end
  end.

(** [sep.join(l)] *)
Definition join (sep : string) (l : list string) : string :=
  String.concat sep l.

(** [s[0]] and [s[-1]]; [None] stands for the IndexError of an empty
    string. *)
Definition first (s : string) : option ascii :=
  match s with
  | EmptyString => None
  | String a _ => Some a
  end.

Fixpoint last (s : string) : option ascii :=
  match s with
  | EmptyString => None
  | String a EmptyString => Some a
  | String _ s' => last s'
  end.

Definition is_digit (a : ascii) : bool :=
  (48 <=? nat_of_ascii a)%nat && (nat_of_ascii a <=? 57)%nat.

Fixpoint drop (n : nat) (s : string) : string :=
  match n, s with
  | O, _ => s
  | S n', String _ s' => drop n' s'
  | S _, EmptyString => EmptyString
  end.

Fixpoint drop_digits (s : string) : string :=
  match s with
  | String a s' => if is_digit a then drop_digits s' else s
  | EmptyString => EmptyString
  end.

Fixpoint take_line (s : string) : string :=
  match s with
  | String a s' =>
      if Ascii.eqb a newline then EmptyString else String a (take_line s')
  | EmptyString => EmptyString
  end.

(** [re.match(pattern, s)] followed by [.group(1)], for the pattern of
    the module: the literal [/photon_data], a greedy run of digits 0-9,
    then a group of any characters but the newline, as many as there
    are.  The match is anchored at the start of [s]; the group is what
    follows the digits up to the first newline.  [None] when the pattern
    does not match. *)
Definition match_photon_data (s : string) : option string :=
  if startswith s "/photon_data"
  then Some (take_line (drop_digits (drop 12 s)))
  else None.

(** A text value, with its type: a [str], or the [bytes] that PyTables
    reads from a file.  A [str] and a [bytes] are never equal, so [==] and
    [in] on these values are the equality of [text]. *)
Inductive text : Type :=
| Str (s : string)
| Bytes (b : string).

#[global] Instance text_eq_dec : EqDecision text.
Proof. solve_decision. Defined.

Definition squote : ascii := ascii_of_nat 39.

Definition dquote : ascii := ascii_of_nat 34.

Definition backslash : ascii := ascii_of_nat 92.

Fixpoint has_char (c : ascii) (s : string) : bool :=
  match s with
  | EmptyString => false
  | String a s' => Ascii.eqb a c || has_char c s'
  end.

Definition hexdigit (n : nat) : ascii :=
  ascii_of_nat (if (n <? 10)%nat then 48 + n else 87 + n).

(** One byte of [repr(b)]: the quote and the backslash are escaped, tab,
    newline and carriage return have their letter, what is not printable
    ASCII is written in hexadecimal. *)
Definition repr_byte (quote c : ascii) : string :=
  let n := nat_of_ascii c in
  if Ascii.eqb c quote || Ascii.eqb c backslash
  then String backslash (String c EmptyString)
  else if (n =? 9)%nat then String backslash "t"
  else if (n =? 10)%nat then String backslash "n"
  else if (n =? 13)%nat then String backslash "r"
  else if (n <? 32)%nat || (127 <=? n)%nat
  then String backslash
         (String "x"
            (String (hexdigit (n / 16))
               (String (hexdigit (n mod 16)) EmptyString)))
  else String c EmptyString.

Fixpoint repr_bytes (quote : ascii) (b : string) : string :=
  match b with
  | EmptyString => EmptyString
  | String c b' => repr_byte quote c +:+ repr_bytes quote b'
  end.

(** [repr(b)] for a [bytes] object: the letter b and the content between
    single quotes, or between double quotes when the content has a single
    quote and no double quote. *)
Definition bytes_repr (b : string) : string :=
  let quote :=
    if has_char squote b && negb (has_char dquote b) then dquote
    else squote in
  "b" +:+ String quote (repr_bytes quote b) +:+ String quote EmptyString.

(** ['%s' % x]: a [str] as it is, a [bytes] as its [repr]. *)
Definition format_s (x : text) : string :=
  match x with
  | Str s => s
  | Bytes b => bytes_repr b
  end.

End PyStr.

(** ** Exceptions and computations *)

Inductive exn : Type :=
| Invalid_PhotonHDF5 (msg : string)
| AssertionError
| IndexError
| AttributeError
| NoSuchNodeError (name : string)
| KeyError (key : string)
| TypeError
| RecursionError.

(** A computation over a state [S]: the state it leaves, and the exception
    it raised or the value it returned.  A raise keeps the state reached. *)
Definition Py (S A : Type) : Type := S -> S * (exn + A).

Definition ret {S A} (a : A) : Py S A := fun s => (s, inr a).

Definition raise {S A} (e : exn) : Py S A := fun s => (s, inl e).

Definition bind {S A B} (m : Py S A) (k : A -> Py S B) : Py S B :=
  fun s => match m s with
           | (s', inr a) => k a s'
           | (s', inl e) => (s', inl e)
           end.

Notation "x <- m ;; k" := (bind m (fun x => k))
  (at level 100, m at level 99, k at level 200, right associativity).

Notation "m ;;; k" := (bind m (fun _ => k))
  (at level 100, k at level 200, right associativity).

(** [assert c] *)
Definition assert {S} (c : bool) : Py S unit :=
  if c then ret tt else raise AssertionError.

(** [for x in l: body x] *)
Fixpoint for_each {S A} (l : list A) (body : A -> Py S unit) : Py S unit :=
  match l with
  | [] => ret tt
  | x :: l' => body x ;;; for_each l' body
  end.

(** ** [_analyze_path] *)

Module Path.

Import PyStr.

(** The digit stripping both [_analyze_path] and [_check_path] apply to
    a path that starts with [/photon_data]. *)
Definition strip_digits {S} (path : string) : Py S string :=
  match match_photon_data path with
  | Some g => ret ("/photon_data" +:+ g)
  | None => raise AttributeError
  end.

Definition nonempty_no_slash_ends {S} (s : string) : Py S unit :=
  match first s, last s with
  | Some a, Some b =>
      assert (negb (Ascii.eqb a "/") && negb (Ascii.eqb b "/"))
  | _, _ => raise IndexError
  end.

Definition _analyze_path {S} (name : string)
    (prefix_list : option (list string)) : Py S (string * bool * bool) :=
  nonempty_no_slash_ends name ;;;
  full_path <-
    (match prefix_list with
     | Some ((_ :: _) as pl) =>
         let prefix := join "/" pl in
         nonempty_no_slash_ends prefix ;;;
         ret ("/" +:+ prefix +:+ "/" +:+ name)
     | _ => ret ("/" +:+ name)
     end) ;;
  let chunks := split "/" full_path in
  assert (2 <=? length chunks)%nat ;;;
  assert (bool_decide (Some name = List.last (Some <$> chunks) None)) ;;;
  let is_user := bool_decide ("user" ∈ chunks) in
  if startswith full_path "/photon_data" then
    let is_phdata :=
      (length chunks =? 3)%nat && negb (endswith name "_specs") in
    meta_path <- strip_digits full_path ;;
    ret (meta_path, is_phdata, is_user)
  else ret (full_path, false, is_user).

End Path.

(** ** PyTables nodes, as the validator sees them *)

Module H5.

(** A node is a leaf holding the content of the [bytes] that [read()]
    returns (the text of a file is stored encoded: [_h5_write_array]
    encodes a [str] before it hands it over, and PyTables reads [bytes]),
    or a group of named children.  The children are listed in the order
    PyTables iterates over them (alphanumerical); their names are
    distinct. *)
#[warning="-register-all"] Inductive node : Type :=
| Leaf (value : string)
| Group (children : list (string * node)).

(** The objects the validator handles: a node with its [_v_pathname], or
    a plain Python string. *)
Inductive pyobj : Type :=
| ONode (pathname : string) (n : node)
| OStr (s : string).

(** [join_path] of PyTables. *)
Definition join_path (parent name : string) : string :=
  if String.eqb parent "/" then "/" +:+ name
  else parent +:+ "/" +:+ name.

Fixpoint assoc (name : string) (l : list (string * node)) : option node :=
  match l with
  | [] => None
  | (k, c) :: l' => if String.eqb name k then Some c else assoc name l'
  end.

(** [name in o]: a child of that name for a group, a substring for a
    string.  A leaf has no children; the test is false on it. *)
Definition has_child (name : string) (o : pyobj) : bool :=
  match o with
  | ONode _ (Group cs) => bool_decide (is_Some (assoc name cs))
  | ONode _ (Leaf _) => false
  | OStr s => PyStr.contains name s
  end.

(** [o.name], the natural naming of PyTables. *)
Definition getattr {S} (o : pyobj) (name : string) : Py S pyobj :=
  match o with
  | ONode p (Group cs) =>
      match assoc name cs with
      | Some c => ret (ONode (join_path p name) c)
      | None => raise (NoSuchNodeError name)
      end
  | _ => raise AttributeError
  end.

(** [o._v_pathname] *)
Definition _v_pathname {S} (o : pyobj) : Py S string :=
  match o with
  | ONode p _ => ret p
  | OStr _ => raise AttributeError
  end.

(** [o.read()].  A leaf gives its [bytes].  A group has no method of
    that name: the natural naming looks for a child [read], and what it
    finds is a node, which cannot be called. *)
Definition read {S} (o : pyobj) : Py S PyStr.text :=
  match o with
  | ONode _ (Leaf v) => ret (PyStr.Bytes v)
  | ONode _ (Group cs) =>
      match assoc "read" cs with
      | Some _ => raise TypeError
      | None => raise (NoSuchNodeError "read")
      end
  | OStr _ => raise AttributeError
  end.

Definition is_group (n : node) : bool :=
  match n with Group _ => true | Leaf _ => false end.

(** [o._v_groups.keys()] *)
Definition _v_groups_keys {S} (o : pyobj) : Py S (list string) :=
  match o with
  | ONode _ (Group cs) =>
      ret (fst <$> List.filter (fun kc => is_group (snd kc)) cs)
  | _ => raise AttributeError
  end.

(** The children of a group, each with its path. *)
Definition nodes_of (p : string) (cs : list (string * node)) : list pyobj :=
  (fun kc => ONode (join_path p (fst kc)) (snd kc)) <$> cs.

(** [o._f_iter_nodes()] *)
Definition _f_iter_nodes {S} (o : pyobj) : Py S (list pyobj) :=
  match o with
  | ONode p (Group cs) => ret (nodes_of p cs)
  | _ => raise AttributeError
  end.

(** What [_f_walk_groups] yields after the group itself: the child
    groups in order, then, the last child group first, what it yields
    below each of them (the method pops its stack of pending groups from
    the end). *)
Fixpoint walk_below (p : string) (n : node) {struct n} : list pyobj :=
  match n with
  | Leaf _ => []
  | Group cs =>
      let fix below_each (l : list (string * node)) : list pyobj :=
        match l with
        | [] => []
        | (k, c) :: l' => below_each l' ++ walk_below (join_path p k) c
        end in
      nodes_of p (List.filter (fun kc => is_group (snd kc)) cs)
        ++ below_each cs
  end.

(** [o._f_walk_groups()] *)
Definition _f_walk_groups {S} (o : pyobj) : Py S (list pyobj) :=
  match o with
  | ONode p (Group cs) => ret (o :: walk_below p (Group cs))
  | _ => raise AttributeError
  end.

End H5.

(** ** The validator *)

(** [l.sort()] on a list of strings. *)
Fixpoint insert_sorted (x : string) (l : list string) : list string :=
  match l with
  | [] => [x]
  | y :: l' => if String.leb x y then x :: l else y :: insert_sorted x l'
  end.

Definition sort_strings (l : list string) : list string :=
  foldr insert_sorted [] l.

(** What was printed so far, one line per entry. *)
Definition stdout : Type := list string.

Definition print (line : string) : Py stdout unit :=
  fun out => (out ++ [line], inr tt).

Section Validator.

Import PyStr H5.

(** The table [official_fields_descr] of [phconvert/metadata.py], from
    canonical path to description. *)
Variable official_fields_descr : gmap string string.

Definition _raise_invalid_file (msg : string) (strict : bool)
  : Py stdout unit :=
  if strict then raise (Invalid_PhotonHDF5 msg)
  else print ("Photon-HDF5 WARNING: " +:+ msg).

Definition missing_in (name path : string) : string :=
  "Missing " +:+ dq +:+ name +:+ dq +:+ " in " +:+ dq +:+ path +:+ dq +:+ ".".

(** The [strict] argument is accepted and not handed on:
    [_raise_invalid_file] runs with its default, [strict=True]. *)
Definition _check_has_field (name : string) (group : pyobj) (strict : bool)
  : Py stdout unit :=
  if negb (has_child name group) then
    path <- _v_pathname group ;;
    _raise_invalid_file (missing_in name path) true
  else ret tt.

Definition unknown_field (path : string) : string :=
  "Unknown field " +:+ dq +:+ path +:+ dq +:+ ". "
  +:+ "Custom fields must be inside a " +:+ dq +:+ "user" +:+ dq
  +:+ " group.".

Definition _check_path (path : string) (strict : bool) : Py stdout unit :=
  if contains "/user" path then ret tt
  else
    path <- (if startswith path "/photon_data"
             then Path.strip_digits path else ret path) ;;
    if bool_decide (official_fields_descr !! path = None) then
      let msg := unknown_field path in
      if strict then raise (Invalid_PhotonHDF5 msg)
      else print ("Photon-HDF5 WARNING: " +:+ msg)
    else ret tt.

(** The body of the inner loop of [_check_valid_names]; the list
    [already_verified] is threaded through. *)
Definition check_node (strict : bool) (already_verified : list string)
    (nd : pyobj) : Py stdout (list string) :=
  path <- _v_pathname nd ;;
  if negb (bool_decide (path ∈ already_verified)) then
    _check_path path strict ;;;
    ret (already_verified ++ [path])
  else ret already_verified.

(** [for x in l: acc = body acc x] *)
Fixpoint for_acc {A B} (l : list A) (body : B -> A -> Py stdout B) (acc : B)
  : Py stdout B :=
  match l with
  | [] => ret acc
  | x :: l' => acc' <- body acc x ;; for_acc l' body acc'
  end.

(** The body of the outer loop of [_check_valid_names]. *)
Definition check_group (strict : bool) (already_verified : list string)
    (group : pyobj) : Py stdout (list string) :=
  path <- _v_pathname group ;;
  _check_path path strict ;;;
  let already_verified := already_verified ++ [path] in
  nodes <- _f_iter_nodes group ;;
  for_acc nodes (check_node strict) already_verified.

Definition _check_valid_names (data : pyobj) (strict : bool)
  : Py stdout unit :=
  groups <- _f_walk_groups data ;;
  for_acc groups (check_group strict) [] ;;;
  ret tt.

Definition mantatory_fields : list string :=
  ["num_pixels"; "num_spots"; "num_spectral_ch"; "num_polarization_ch";
   "num_split_ch"; "modulated_excitation"; "lifetime"].

Definition missing_setup (name : string) : string :=
  "Missing " +:+ dq +:+ "/setup/" +:+ name +:+ dq +:+ ".".

Definition _check_setup (setup : pyobj) (strict : bool) : Py stdout unit :=
  for_each mantatory_fields (fun name =>
    if negb (has_child name setup)
    then _raise_invalid_file (missing_setup name) strict
    else ret tt).

Definition spectral_meas_types : list text :=
  [Str "smFRET"; Str "smFRET-usALEX"; Str "smFRET-usALEX-3c";
   Str "smFRET-nsALEX"].

(** The local function [_assert_has_field] of [_check_photon_data]. *)
Definition _assert_has_field (name : string) (group : pyobj)
  : Py stdout unit :=
  if negb (has_child name group) then
    path <- _v_pathname group ;;
    raise (Invalid_PhotonHDF5 (missing_in name path))
  else ret tt.

Definition missing_mtype (name path : string) (measurement_type : text)
  : string :=
  missing_in name path +:+ String PyStr.newline EmptyString
  +:+ "This field is mandatory for " +:+ dq +:+ format_s measurement_type
  +:+ dq +:+ " data.".

(** The local function [_assert_has_field_mtype], which closes over
    [measurement_type]. *)
Definition _assert_has_field_mtype (measurement_type : text)
    (name : string) (group : pyobj) : Py stdout unit :=
  if negb (has_child name group) then
    path <- _v_pathname group ;;
    raise (Invalid_PhotonHDF5 (missing_mtype name path measurement_type))
  else ret tt.

Definition unknown_mtype (measurement_type : text) : string :=
  "Unkwnown measurement type " +:+ dq +:+ format_s measurement_type +:+ dq.

(** [measurement_type] is what [read()] returns, a [bytes]; the lists and
    the literal it is compared with hold [str]. *)
Definition _check_photon_data (ph_data : pyobj) (strict : bool)
  : Py stdout unit :=
  _assert_has_field "timestamps" ph_data ;;;
  _assert_has_field "timestamps_specs" ph_data ;;;
  timestamps_specs <- getattr ph_data "timestamps_specs" ;;
  _assert_has_field "timestamps_unit" timestamps_specs ;;;
  if negb (has_child "measurement_specs" ph_data) then
    _raise_invalid_file
      ("Missing " +:+ dq +:+ "measurement_specs" +:+ dq +:+ ".") strict
  else
    measurement_specs <- getattr ph_data "measurement_specs" ;;
    if negb (has_child "measurement_type" measurement_specs) then
      _raise_invalid_file
        ("Missing " +:+ dq +:+ "measurement_type" +:+ dq) strict
    else
      mt_node <- getattr measurement_specs "measurement_type" ;;
      measurement_type <- read mt_node ;;
      (if negb (bool_decide (measurement_type ∈ spectral_meas_types))
       then raise (Invalid_PhotonHDF5 (unknown_mtype measurement_type))
       else ret tt) ;;;
      detectors_specs <- getattr measurement_specs "detectors_specs" ;;
      _assert_has_field_mtype measurement_type
        "spectral_ch1" detectors_specs ;;;
      _assert_has_field_mtype measurement_type
        "spectral_ch2" detectors_specs ;;;
      (if bool_decide
            (measurement_type ∈ [Str "smFRET-usALEX"; Str "smFRET-usALEX-3c"])
       then _assert_has_field_mtype measurement_type
              "alex_period" measurement_specs
       else ret tt) ;;;
      if bool_decide (measurement_type = Str "smFRET-nsALEX") then
        _assert_has_field_mtype measurement_type
          "laser_pulse_rate" measurement_specs ;;;
        _assert_has_field_mtype measurement_type "nantotimes" ph_data ;;;
        _assert_has_field_mtype measurement_type
          "nantotimes_specs" ph_data ;;;
        for_each ["tcspc_unit"; "tcspc_range"; "tcspc_num_bins";
                  "time_reversed"]
          (fun name =>
             nantotimes_specs <- getattr ph_data "nantotimes_specs" ;;
             _assert_has_field_mtype measurement_type
               name nantotimes_specs)
      else ret tt.

Definition missing_photon_data : string :=
  "Invalid Photon-HDF5: missing " +:+ dq +:+ "photon_data" +:+ dq
  +:+ " group.".

Definition missing_setup_group : string :=
  "Invalid Photon-HDF5: Missing /setup group.".

(** In the second branch [ph_data_m] holds the names of the groups, not
    the groups: the comprehension keeps the keys [k]. *)
Definition assert_valid_photon_hdf5 (data : pyobj) (strict : bool)
  : Py stdout unit :=
  _check_valid_names data strict ;;;
  _check_has_field "acquisition_time" data strict ;;;
  _check_has_field "comment" data strict ;;;
  ph_data_m <-
    (if has_child "photon_data" data then
       photon_data <- getattr data "photon_data" ;;
       ret [photon_data]
     else if has_child "photon_data0" data then
       keys <- _v_groups_keys data ;;
       ret (OStr <$>
              sort_strings
                (List.filter (fun k => startswith k "photon_data") keys))
     else raise (Invalid_PhotonHDF5 missing_photon_data)) ;;
  for_each ph_data_m (fun ph_data => _check_photon_data ph_data strict) ;;;
  if has_child "setup" data then
    setup <- getattr data "setup" ;;
    _check_setup setup strict
  else _raise_invalid_file missing_setup_group strict.

End Validator.

(** ** The save operation *)

Module Save.

Import PyStr Path.

(** Dictionaries are objects in a heap: a dictionary held in another is
    held by reference, and [dict.copy] copies one level. *)
Definition loc : Type := positive.

Inductive value : Type :=
| VStr (s : string)
| VBytes (s : string)
| VInt (n : Z)
| VArray (a : list Z)
| VDict (l : loc)
| VFile (fname : string).

#[global] Instance value_eq_dec : EqDecision value.
Proof. solve_decision. Defined.

(** What the PyTables file is asked to do. *)
Inductive sink_op : Type :=
| CreateGroup (parent name title : string)
| CreateArray (chunked : bool) (parent name : string) (obj : value)
    (title : string)
| Flush.

#[global] Instance sink_op_eq_dec : EqDecision sink_op.
Proof. solve_decision. Defined.

Record world : Type := World {
  heap : gmap loc (gmap string value);
  files : gset string;
  sink : list sink_op;
  printed : list string
}.

Definition set_heap (h : gmap loc (gmap string value)) (w : world) : world :=
  World h (files w) (sink w) (printed w).

Definition say (line : string) : Py world unit :=
  fun w => (World (heap w) (files w) (sink w) (printed w ++ [line]), inr tt).

Definition emit (op : sink_op) : Py world unit :=
  fun w => (World (heap w) (files w) (sink w ++ [op]) (printed w), inr tt).

(** [os.path.isfile(fname)] *)
Definition isfile (fname : string) : Py world bool :=
  fun w => (w, inr (bool_decide (fname ∈ files w))).

(** [tables.open_file(fname, mode='w', ...)]: the file exists from now
    on.  The title and the compression filter play no part here. *)
Definition open_file (fname : string) : Py world value :=
  fun w => (World (heap w) ({[fname]} ∪ files w) (sink w) (printed w),
            inr (VFile fname)).

(** The dictionary at [l].  A reference has its object; [TypeError]
    stands for the use of something that is no dictionary. *)
Definition deref (l : loc) : Py world (gmap string value) :=
  fun w => match heap w !! l with
           | Some d => (w, inr d)
           | None => (w, inl TypeError)
           end.

Definition store (l : loc) (d : gmap string value) : Py world unit :=
  fun w => (set_heap (<[l := d]> (heap w)) w, inr tt).

(** [dict(...)] and [d.copy()]: a new object. *)
Definition new_dict (d : gmap string value) : Py world loc :=
  fun w => let l := fresh (dom (heap w)) in
           (set_heap (<[l := d]> (heap w)) w, inr l).

Definition dict_copy (l : loc) : Py world loc :=
  d <- deref l ;; new_dict d.

(** [k in d], [d[k]], [d.pop(k)], [d[k] = v], [d.update(u)] and
    [d.items()], the items in the order of the map. *)
Definition dict_contains (l : loc) (k : string) : Py world bool :=
  d <- deref l ;; ret (bool_decide (is_Some (d !! k))).

Definition dict_get (l : loc) (k : string) : Py world value :=
  d <- deref l ;;
  match d !! k with
  | Some v => ret v
  | None => raise (KeyError k)
  end.

Definition dict_pop (l : loc) (k : string) : Py world value :=
  d <- deref l ;;
  match d !! k with
  | Some v => store l (delete k d) ;;; ret v
  | None => raise (KeyError k)
  end.

Definition dict_set (l : loc) (k : string) (v : value) : Py world unit :=
  d <- deref l ;; store l (<[k := v]> d).

Definition dict_update (l : loc) (u : gmap string value) : Py world unit :=
  d <- deref l ;; store l (u ∪ d).

Definition dict_items (l : loc) : Py world (list (string * value)) :=
  d <- deref l ;; ret (map_to_list d).

Definition as_str (v : value) : Py world string :=
  match v with
  | VStr s => ret s
  | _ => raise TypeError
  end.

Definition as_dict (v : value) : Py world loc :=
  match v with
  | VDict l => ret l
  | _ => raise TypeError
  end.

(** [_h5_write_array] *)
Definition _h5_write_array (group name : string) (obj : value)
    (descr : string) (chunked : bool) : Py world unit :=
  let obj := match obj with VStr s => VBytes s | _ => obj end in
  emit (CreateArray chunked group name obj descr).

Section Operation.

(** What the module takes from elsewhere: the table of
    [phconvert/metadata.py], the version string, and the functions of
    [os.path] and [time] it calls ([now] is the formatted current time,
    [ctime_of] and [mtime_of] the formatted times of a file). *)
Variable official_fields_descr : gmap string string.

Variable __version__ : string.

Variable splitext : string -> string * string.

Variable abspath : string -> string.

Variable basename : string -> string.

Variable now : string.

Variable ctime_of : string -> string.

Variable mtime_of : string -> string.

(** [_save_photon_hdf5_dict], called with [debug=False].  [depth] is the
    number of nested calls the interpreter still allows. *)
Fixpoint _save_photon_hdf5_dict (depth : nat) (group : string)
    (data_dict : loc) (fields_descr : gmap string string)
    (prefix_list : option (list string)) : Py world unit :=
  match depth with
  | O => raise RecursionError
  | S depth' =>
      items <- dict_items data_dict ;;
      for_each items (fun item =>
        let name := fst item in
        let value := snd item in
        analysis <- _analyze_path name prefix_list ;;
        let descr_key := fst (fst analysis) in
        let is_phdata := snd (fst analysis) in
        let is_user := snd analysis in
        let description := default EmptyString (fields_descr !! descr_key) in
        (if negb is_user && String.eqb description EmptyString
         then say ("WARNING: missing description for " +:+ dq +:+ descr_key
                   +:+ dq)
         else ret tt) ;;;
        match value with
        | VDict subdict =>
            emit (CreateGroup group name description) ;;;
            let new_prefix_list :=
              match prefix_list with
              | None => []
              | Some pl => pl
              end ++ [name] in
            _save_photon_hdf5_dict depth' (H5.join_path group name) subdict
              fields_descr (Some new_prefix_list)
        | _ => _h5_write_array group name value description is_phdata
        end)
  end.

(** The dictionary [get_file_metadata] builds. *)
Definition file_metadata (fname : string) : gmap string value :=
  let full_filename := abspath fname in
  let filename := basename full_filename in
  <["filename" := VStr filename]>
  (<["filename_full" := VStr full_filename]>
   (<["creation_time" := VStr (ctime_of full_filename)]>
    (<["modification_time" := VStr (mtime_of full_filename)]> ∅))).

(** [get_file_metadata]: the content of the dictionary it returns. *)
Definition get_file_metadata (fname : string)
  : Py world (gmap string value) :=
  is_file <- isfile fname ;;
  assert is_file ;;;
  ret (file_metadata fname).

(** The block of [save_photon_hdf5] that adds the provenance metadata. *)
Definition add_provenance_metadata (data_dict : loc) : Py world unit :=
  has_provenance <- dict_contains data_dict "provenance" ;;
  if has_provenance then
    provenance <- dict_get data_dict "provenance" ;;
    provenance <- as_dict provenance ;;
    filename <- dict_get provenance "filename" ;;
    filename <- as_str filename ;;
    found <- isfile filename ;;
    orig_fname <-
      (if found then ret (Some filename)
       else
         filename_full <- dict_get provenance "filename_full" ;;
         filename_full <- as_str filename_full ;;
         found_full <- isfile filename_full ;;
         if found_full then ret (Some filename_full)
         else
           say ("WARNING: Could not locate original file '" +:+ filename
                +:+ "'") ;;;
           ret None) ;;
    match orig_fname with
    | Some orig_fname =>
        metadata <- get_file_metadata orig_fname ;;
        dict_update provenance metadata
    | None => ret tt
    end
  else ret tt.

(** The table of descriptions a save works with. *)
Definition fields_descr_of (user_descr : option (gmap string string))
  : gmap string string :=
  match user_descr with
  | Some user => user ∪ official_fields_descr
  | None => official_fields_descr
  end.

Definition identity_of (h5_fname : string) : gmap string value :=
  let full_h5filename := abspath h5_fname in
  let h5filename := basename full_h5filename in
  <["filename" := VStr h5filename]>
  (<["filename_full" := VStr full_h5filename]>
   (<["creation_time" := VStr now]>
    (<["software" := VStr "phconvert"]>
     (<["software_version" := VStr __version__]>
      (<["format_name" := VStr "Photon-HDF5"]>
       (<["format_version" := VStr "0.3"]>
        (<["format_url" := VStr "http://photon-hdf5.readthedocs.org/"]>
         ∅))))))).

(** What [save_photon_hdf5] does once the name of the file is settled:
    from the [print] of the name to the final [flush]. *)
Definition save_to (depth : nat) (data_dict : loc) (h5_fname : string)
    (user_descr : option (gmap string string)) : Py world unit :=
  say ("Saving: " +:+ h5_fname) ;;;
  title <- (match official_fields_descr !! "/" with
            | Some t => ret t
            | None => raise (KeyError "/")
            end) ;;
  data_file <- open_file h5_fname ;;
  let backup := data_dict in
  data_dict <- dict_copy data_dict ;;
  dict_update backup {["data_file" := data_file]} ;;;
  add_provenance_metadata data_dict ;;;
  identity <- new_dict (identity_of h5_fname) ;;
  dict_set data_dict "identity" (VDict identity) ;;;
  let fields_descr := fields_descr_of user_descr in
  _save_photon_hdf5_dict depth "/" data_dict fields_descr None ;;;
  emit Flush.

(** [save_photon_hdf5], called with [debug=False]: the choice of the name
    of the file, then the rest. *)
Definition save_photon_hdf5 (depth : nat) (data_dict : loc)
    (compression : gmap string value) (h5_fname : option string)
    (user_descr : option (gmap string string)) : Py world unit :=
  h5_fname <-
    (match h5_fname with
     | None =>
         filename <- dict_pop data_dict "filename" ;;
         filename <- as_str filename ;;
         let basename := fst (splitext filename) in
         complib <- (match compression !! "complib" with
                     | Some v => ret v
                     | None => raise (KeyError "complib")
                     end) ;;
         let basename :=
           if bool_decide (complib = VStr "blosc")
           then basename +:+ "_blosc" else basename in
         ret (basename +:+ ".hdf5")
     | Some h5_fname => ret h5_fname
     end) ;;
  exists_already <- isfile h5_fname ;;
  let h5_fname :=
    if exists_already then fst (splitext h5_fname) +:+ "_new_copy.hdf5"
    else h5_fname in
  save_to depth data_dict h5_fname user_descr.

End Operation.

End Save.

(** ** Free-form dictionaries *)

Module Dicts.

Import H5.

(** What [dict_from_group] builds and [dict_to_group] reads: the value of
    an array, or a dictionary from names to such values.  Both functions
    only read the dictionaries they are given or build new ones, so a
    dictionary is given by its content, a finite tree.  The value of an
    array is the one a leaf holds, what [read] returns: the conversion
    PyTables makes of a Python object when it stores it is not part of the
    model. *)
#[warning="-register-all"] Inductive pyval : Type :=
| PVal (v : string)
| PDict (d : gmap string pyval).

(** [dict_from_group], on the node of the group.  The loop runs over the
    children in the order of iteration; a child that is a group is read by
    the recursive call, another one by [read].  The function is called on
    groups; for a leaf the model has no child to run over. *)
Fixpoint dict_from_group (group : node) : gmap string pyval :=
  match group with
  | Group children =>
      (fix loop (nodes : list (string * node)) (out : gmap string pyval) :=
         match nodes with
         | [] => out
         | (_v_name, nd) :: nodes' =>
             let value :=
               match nd with
               | Group _ => PDict (dict_from_group nd)
               | Leaf v => PVal v
               end in
             loop nodes' (<[_v_name := value]> out)
         end) children ∅
  | Leaf _ => ∅
  end.

(** What the file refuses: a node where there is one of that name
    already, and a name it does not accept. *)
Inductive h5_error : Type :=
| NodeError (name : string)
| ValueError (name : string).

(** A write to a group: from the children of the group to its children
    afterwards, and the error if one was raised.  The children stay in
    the order of iteration, by name. *)
Definition writing : Type :=
  list (string * node) -> list (string * node) * (h5_error + unit).

Definition done : writing := fun g => (g, inr tt).

Definition and_then (m k : writing) : writing :=
  fun g => match m g with
           | (g', inr _) => k g'
           | (g', inl e) => (g', inl e)
           end.

Fixpoint insert_child (name : string) (c : node) (g : list (string * node))
  : list (string * node) :=
  match g with
  | [] => [(name, c)]
  | (k, x) :: g' =>
      if String.leb name k then (name, c) :: g
      else (k, x) :: insert_child name c g'
  end.

(** [h5file.flush()]: no node changes. *)
Definition flush : writing := done.

Section Writing.

(** The check PyTables makes of the name of a new node. *)
Variable valid_name : string -> bool.

(** What [create_group] and [create_array] check before they add a node. *)
Definition check_new (key : string) : writing :=
  fun g =>
    if negb (valid_name key) then (g, inl (ValueError key))
    else if bool_decide (is_Some (assoc key g)) then (g, inl (NodeError key))
    else (g, inr tt).

(** [h5file.create_array(group, name=key, obj=value)] *)
Definition create_array (key : string) (value : string) : writing :=
  and_then (check_new key)
    (fun g => (insert_child key (Leaf value) g, inr tt)).

(** The body of the loop of [dict_to_group] for one item.  For a
    dictionary the subgroup is created empty and filled by the recursive
    call, which ends on a flush; what was written to it stays when the
    call raises. *)
Fixpoint write_item (key : string) (value : pyval) : writing :=
  match value with
  | PDict dictionary =>
      and_then (check_new key)
        (fun g =>
           let '(subgroup, r) :=
             and_then
               (map_fold (fun k v rest => and_then (write_item k v) rest)
                  done dictionary)
               flush [] in
           (insert_child key (Group subgroup) g, r))
  | PVal v => create_array key v
  end.

(** [dict_to_group]: the items in the order of the map, then the flush. *)
Definition dict_to_group (dictionary : gmap string pyval) : writing :=
  and_then
    (map_fold (fun k v rest => and_then (write_item k v) rest)
       done dictionary)
    flush.

End Writing.

End Dicts.

(** * Part II: definitions used in the statements *)

(** ** What a computation can raise, what it leaves alone *)

(** Every exception a computation can raise satisfies [P]. *)
Definition throws {S A} (P : exn -> Prop) (m : Py S A) : Prop :=
  forall s s' e, m s = (s', inl e) -> P e.

Definition is_invalid (e : exn) : Prop :=
  exists msg, e = Invalid_PhotonHDF5 msg.

(** A computation that leaves the heap as it found it. *)
Definition heap_const {A} (m : Py Save.world A) : Prop :=
  forall w w' r, m w = (w', r) -> Save.heap w' = Save.heap w.

(** A computation that prints nothing. *)
Definition silent {A} (m : Py stdout A) : Prop :=
  forall out out' r, m out = (out', r) -> out' = out.

(** ** Tree accessors used to state the theorems *)

Module Tree.

Import H5.

(** The child [o.name], when [o] is a group that has it. *)
Definition child (name : string) (o : pyobj) : option pyobj :=
  match o with
  | ONode p (Group cs) => ONode (join_path p name) <$> assoc name cs
  | _ => None
  end.

(** The node below [o] along a list of names. *)
Fixpoint find (segs : list string) (o : pyobj) : option pyobj :=
  match segs with
  | [] => Some o
  | name :: segs' =>
      match child name o with
      | Some c => find segs' c
      | None => None
      end
  end.

Definition has_path (segs : list string) (o : pyobj) : bool :=
  bool_decide (is_Some (find segs o)).

(** What [ph_data.measurement_specs.measurement_type.read()] returns. *)
Definition measurement_type_of (ph_data : pyobj) : option PyStr.text :=
  match find ["measurement_specs"; "measurement_type"] ph_data with
  | Some (ONode _ (Leaf v)) => Some (PyStr.Bytes v)
  | _ => None
  end.

End Tree.

(** Induction on a node with the hypothesis for every child of a group. *)
Fixpoint node_children_ind (P : H5.node -> Prop)
    (HL : forall v, P (H5.Leaf v))
    (HG : forall cs, Forall (fun kc => P (snd kc)) cs -> P (H5.Group cs))
    (n : H5.node) : P n :=
  match n with
  | H5.Leaf v => HL v
  | H5.Group cs =>
      HG cs ((fix go (l : list (string * H5.node))
                : Forall (fun kc => P (snd kc)) l :=
                match l with
                | [] => Forall_nil _
                | kc :: l' =>
                    Forall_cons _ kc l'
                      (node_children_ind P HL HG (snd kc)) (go l')
                end) cs)
  end.

(** ** The phases of [assert_valid_photon_hdf5] *)

Module Phase.
Import PyStr H5 Tree.

(** The three timestamps checks that open [_check_photon_data]. *)
Definition timestamps_fields : list (list string) :=
  [["timestamps"]; ["timestamps_specs"];
   ["timestamps_specs"; "timestamps_unit"]].

(** An object that is a group node. *)
Definition is_group_obj (o : pyobj) : Prop :=
  exists p cs, o = ONode p (Group cs).

Definition is_node_obj (o : pyobj) : Prop := exists p n, o = ONode p n.

(** The exceptions of the name sweep and of the top-level field checks:
    an invalid-file error whose message is not the one of a missing
    measurement group. *)
Definition sweep_exn (e : exn) : Prop :=
  is_invalid e /\ e <> Invalid_PhotonHDF5 missing_photon_data.

(** The name sweep raises under [strict] only. *)
Definition sweep_exn_at (strict : bool) (e : exn) : Prop :=
  strict = true /\ sweep_exn e.

Definition not_missing_pd (e : exn) : Prop :=
  e <> Invalid_PhotonHDF5 missing_photon_data.

(** The last statement of [assert_valid_photon_hdf5], on the setup
    group. *)
Definition setup_check (data : pyobj) (strict : bool) : Py stdout unit :=
  if has_child "setup" data then
    setup <- getattr data "setup" ;;
    _check_setup setup strict
  else _raise_invalid_file missing_setup_group strict.

(** What [_check_photon_data] does once [measurement_type] is read: the
    membership test and the checks that depend on the type. *)
Definition conditional_checks (ph_data measurement_specs : pyobj)
    (measurement_type : text) : Py stdout unit :=
  (if negb (bool_decide (measurement_type ∈ spectral_meas_types))
   then raise (Invalid_PhotonHDF5 (unknown_mtype measurement_type))
   else ret tt) ;;;
  detectors_specs <- getattr measurement_specs "detectors_specs" ;;
  _assert_has_field_mtype measurement_type "spectral_ch1" detectors_specs ;;;
  _assert_has_field_mtype measurement_type "spectral_ch2" detectors_specs ;;;
  (if bool_decide
        (measurement_type ∈ [Str "smFRET-usALEX"; Str "smFRET-usALEX-3c"])
   then _assert_has_field_mtype measurement_type
          "alex_period" measurement_specs
   else ret tt) ;;;
  if bool_decide (measurement_type = Str "smFRET-nsALEX") then
    _assert_has_field_mtype measurement_type
      "laser_pulse_rate" measurement_specs ;;;
    _assert_has_field_mtype measurement_type "nantotimes" ph_data ;;;
    _assert_has_field_mtype measurement_type "nantotimes_specs" ph_data ;;;
    for_each ["tcspc_unit"; "tcspc_range"; "tcspc_num_bins"; "time_reversed"]
      (fun name =>
         nantotimes_specs <- getattr ph_data "nantotimes_specs" ;;
         _assert_has_field_mtype measurement_type name nantotimes_specs)
  else ret tt.

Definition warning (msg : string) : string := "Photon-HDF5 WARNING: " +:+ msg.

(** The mandatory fields a setup group lacks, in the order of the list. *)
Definition missing_setup_fields (setup : pyobj) : list string :=
  List.filter (fun name => negb (has_child name setup)) mantatory_fields.

(** A check that reports issues: under strict=false it prints a warning
    for each of [msgs] and returns; under strict=true it raises for the
    first of them, or returns when there is none.  Every message
    satisfies [P]. *)
Definition gated {A} (P : string -> Prop) (check : bool -> Py stdout A)
  : Prop :=
  forall out, exists msgs a,
    Forall P msgs /\
    check false out = (out ++ map warning msgs, inr a) /\
    check true out = match msgs with
                     | [] => (out, inr a)
                     | msg :: _ => (out, inl (Invalid_PhotonHDF5 msg))
                     end.

Definition is_unknown_field (msg : string) : Prop :=
  exists path, msg = unknown_field path.

(** A check that, when it returns under strict=true, returns the same
    under strict=false, with the same output. *)
Definition lenient_follows {A} (check : bool -> Py stdout A) : Prop :=
  forall out out' a,
    check true out = (out', inr a) -> check false out = (out', inr a).

Definition missing_specs : string :=
  "Missing " +:+ dq +:+ "measurement_specs" +:+ dq +:+ ".".

Definition missing_type : string :=
  "Missing " +:+ dq +:+ "measurement_type" +:+ dq.

Section WithTable.

Variable official_fields_descr : gmap string string.

(** The statements of [assert_valid_photon_hdf5] before the discovery of
    the measurement groups. *)
Definition top_level_checks (data : pyobj) (strict : bool) : Py stdout unit :=
  _check_valid_names official_fields_descr data strict ;;;
  _check_has_field "acquisition_time" data strict ;;;
  _check_has_field "comment" data strict.

(** The statements of [assert_valid_photon_hdf5] before the check of the
    setup: the top-level checks, the discovery of the measurement groups
    and the loop over them. *)
Definition measurement_checks (data : pyobj) (strict : bool)
  : Py stdout unit :=
  _check_valid_names official_fields_descr data strict ;;;
  _check_has_field "acquisition_time" data strict ;;;
  _check_has_field "comment" data strict ;;;
  ph_data_m <-
    (if has_child "photon_data" data then
       photon_data <- getattr data "photon_data" ;;
       ret [photon_data]
     else if has_child "photon_data0" data then
       keys <- _v_groups_keys data ;;
       ret (OStr <$>
              sort_strings
                (List.filter (fun k => startswith k "photon_data") keys))
     else raise (Invalid_PhotonHDF5 missing_photon_data)) ;;
  for_each ph_data_m (fun ph_data => _check_photon_data ph_data strict).

End WithTable.

End Phase.

(** ** Well-formed segments and canonical paths *)

Module PathSpec.
Import PyStr Path H5.

(** A path segment as PyTables has them: not empty, no separator. *)
Definition segment_ok (s : string) : Prop :=
  s <> EmptyString /\ contains "/" s = false.

Definition ends_ok (s : string) : Prop :=
  exists a b, first s = Some a /\ last s = Some b /\
              a <> "/"%char /\ b <> "/"%char.

(** The meta path of a full path: the digits after [/photon_data] go, and
    with them what follows a newline. *)
Definition canonical (full_path : string) : string :=
  if startswith full_path "/photon_data"
  then "/photon_data" +:+ take_line (drop_digits (drop 12 full_path))
  else full_path.

Definition ancestors (prefix_list : option (list string)) : list string :=
  match prefix_list with Some pl => pl | None => [] end.

Definition full_path_of (name : string) (prefix_list : option (list string))
  : string :=
  "/" +:+ join "/" (ancestors prefix_list ++ [name]).

(** The [_v_pathname] of the node reached from a node of path [root]
    along [segs]. *)
Definition pathname_from (root : string) (segs : list string) : string :=
  fold_left join_path segs root.

(** A run of digits 0-9, possibly empty. *)
Fixpoint all_digits (s : string) : bool :=
  match s with
  | EmptyString => true
  | String a s' => is_digit a && all_digits s'
  end.

(** The arguments [_analyze_path] accepts: a name that is a segment, and
    ancestors that, joined, neither start nor end with the separator. *)
Definition analyzable (name : string) (prefix_list : option (list string))
  : Prop :=
  segment_ok name /\
  (ancestors prefix_list = [] \/ ends_ok (join "/" (ancestors prefix_list))).

End PathSpec.

(** ** What a save asks of the file *)

Module SaveSpec.
Import PyStr Save PathSpec.

(** A computation that leaves the dictionaries and the files alone, and
    only adds to what was printed and to what the file was asked to do;
    the operations it adds satisfy [Q]. *)
Definition appends {A} (Q : list sink_op -> Prop) (m : Py world A) : Prop :=
  forall w w' r, m w = (w', r) ->
    heap w' = heap w /\ files w' = files w /\
    (exists lines, printed w' = printed w ++ lines) /\
    exists ops, sink w' = sink w ++ ops /\ Q ops.

(** Every operation names as parent a group of [known] or one created
    before it. *)
Fixpoint parents_first (known : list string) (ops : list sink_op) : bool :=
  match ops with
  | [] => true
  | CreateGroup parent name _ :: ops' =>
      bool_decide (parent ∈ known)
      && parents_first (H5.join_path parent name :: known) ops'
  | CreateArray _ parent _ _ _ :: ops' =>
      bool_decide (parent ∈ known) && parents_first known ops'
  | Flush :: ops' => parents_first known ops'
  end.

(** An operation that does not hand a Python string to the file. *)
Definition encoded (op : sink_op) : bool :=
  match op with
  | CreateArray _ _ _ (VStr _) _ => false
  | _ => true
  end.

Definition is_flush (op : sink_op) : bool :=
  match op with Flush => true | _ => false end.

(** What a writer may add, with the groups of [known] in place. *)
Definition well_formed_ops (known : list string) (ops : list sink_op)
  : Prop :=
  parents_first known ops = true /\
  forallb encoded ops = true /\
  forallb (fun op => negb (is_flush op)) ops = true.

(** A computation that asks nothing of the file. *)
Definition sink_const {A} (m : Py world A) : Prop :=
  forall w w' r, m w = (w', r) -> sink w' = sink w.

(** What a complete save asks of the file: the operations of a writer
    that starts at the root, then, when it returns and only then, one
    flush. *)
Definition saves (m : Py world unit) : Prop :=
  forall w w' r, m w = (w', r) ->
    exists ops,
      well_formed_ops ["/"] ops /\
      sink w' = sink w ++ ops ++ match r with
                                 | inr _ => [Flush]
                                 | inl _ => []
                                 end.

(** What [_h5_write_array] hands to the file for a value. *)
Definition stored (v : value) : value :=
  match v with VStr s => VBytes s | _ => v end.

(** The operation the writer adds for the item [name], [v] of a
    dictionary written in [group], below the ancestors [prefix_list], with
    the table [fields_descr]. *)
Definition op_of_item (fields_descr : gmap string string) (group : string)
    (prefix_list : option (list string)) (name : string) (v : value)
  : sink_op :=
  let full_path := full_path_of name prefix_list in
  let title := default EmptyString (fields_descr !! canonical full_path) in
  match v with
  | VDict _ => CreateGroup group name title
  | _ =>
      CreateArray
        (startswith full_path "/photon_data"
         && (length (ancestors prefix_list) =? 1)%nat
         && negb (endswith name "_specs"))
        group name (stored v) title
  end.

(** The world after one more line is printed. *)
Definition with_line (line : string) (w : world) : world :=
  World (heap w) (files w) (sink w) (printed w ++ [line]).

(** A computation that only adds to what the file was asked to do; the
    operations it adds satisfy [Q]. *)
Definition asks {A} (Q : list sink_op -> Prop) (m : Py world A) : Prop :=
  forall w w' r, m w = (w', r) -> exists ops, sink w' = sink w ++ ops /\ Q ops.

(** The node an operation creates, by its path, and the title it gives
    to it. *)
Definition created (op : sink_op) : option (string * string) :=
  match op with
  | CreateGroup parent name title => Some (H5.join_path parent name, title)
  | CreateArray _ parent name _ title =>
      Some (H5.join_path parent name, title)
  | Flush => None
  end.

(** An operation that titles the node it creates with what [table] has
    for the canonical path of the node, the empty string when the table
    has nothing. *)
Definition titled_from (table : gmap string string) (op : sink_op) : Prop :=
  forall path title,
    created op = Some (path, title) ->
    title = default EmptyString (table !! canonical path).

(** A title taken from the overlay first: the description of the overlay
    when the overlay maps the canonical path of the node, whatever the
    official table has for it; what the official table has, the empty
    string when it has nothing, when the overlay does not map the path. *)
Definition overlay_first (official user : gmap string string)
    (path title : string) : Prop :=
  (forall d_user, user !! canonical path = Some d_user -> title = d_user) /\
  (user !! canonical path = None ->
   title = default EmptyString (official !! canonical path)).

End SaveSpec.

(** ** Reading and writing free-form dictionaries *)

Module DictSpec.
Import H5 Dicts.

(** The value [dict_from_group] gives to a child. *)
Definition value_of (nd : node) : pyval :=
  match nd with
  | Group _ => PDict (dict_from_group nd)
  | Leaf v => PVal v
  end.

(** The names of a dictionary, at every depth, pass the check of the
    file. *)
Fixpoint names_ok (valid_name : string -> bool) (value : pyval) : bool :=
  match value with
  | PVal _ => true
  | PDict d =>
      map_fold (fun k v acc => valid_name k && names_ok valid_name v && acc)
        true d
  end.

(** The size of a value, for inductions. *)
Fixpoint size (value : pyval) : nat :=
  match value with
  | PVal _ => 1
  | PDict d => S (map_fold (fun _ v acc => size v + acc) 0 d)
  end.

(** The loop of [dict_from_group]. *)
Definition read_items (nodes : list (string * node))
    (out : gmap string pyval) : gmap string pyval :=
  fold_left (fun out kc => <[kc.1 := value_of kc.2]> out) nodes out.

(** The loop of [dict_to_group]. *)
Definition write_items (valid_name : string -> bool)
    (d : gmap string pyval) : writing :=
  map_fold (fun k v rest => and_then (write_item valid_name k v) rest) done d.

End DictSpec.

(** ** Sample files *)

Module Sample.

Import H5.

Definition leaf : node := Leaf "1".

Definition measurement_specs (mt : string) : node :=
  Group [("detectors_specs",
          Group [("spectral_ch1", leaf); ("spectral_ch2", leaf)]);
         ("laser_pulse_rate", leaf);
         ("measurement_type", Leaf mt)].

(** A measurement group with everything [smFRET-nsALEX] asks for, but
    [tcspc_unit]. *)
Definition photon_data (mt : string) : node :=
  Group [("measurement_specs", measurement_specs mt);
         ("nantotimes", leaf);
         ("nantotimes_specs",
          Group [("tcspc_num_bins", leaf); ("tcspc_range", leaf);
                 ("time_reversed", leaf)]);
         ("timestamps", leaf);
         ("timestamps_specs", Group [("timestamps_unit", leaf)])].

Definition setup : node :=
  Group [("lifetime", leaf); ("modulated_excitation", leaf);
         ("num_pixels", leaf); ("num_polarization_ch", leaf);
         ("num_spectral_ch", leaf); ("num_split_ch", leaf);
         ("num_spots", leaf)].

Definition root (children : list (string * node)) : pyobj :=
  ONode "/" (Group children).

(** A file of one measurement group. *)
Definition file (mt : string) : pyobj :=
  root [("acquisition_time", leaf); ("comment", leaf);
        ("photon_data", photon_data mt); ("setup", setup)].

(** The same without [comment]. *)
Definition file_without_comment : pyobj :=
  root [("acquisition_time", leaf); ("photon_data", photon_data "smFRET");
        ("setup", setup)].

(** A setup that lacks two fields. *)
Definition short_setup : node :=
  Group [("lifetime", leaf); ("modulated_excitation", leaf);
         ("num_pixels", leaf); ("num_spectral_ch", leaf);
         ("num_split_ch", leaf)].

(** A measurement group with the timestamps fields and nothing else. *)
Definition photon_data_bare : node :=
  Group [("timestamps", leaf);
         ("timestamps_specs", Group [("timestamps_unit", leaf)])].

(** A file whose measurement group has no measurement specs, followed by
    [last], the children that come after it. *)
Definition file_untyped (last : list (string * node)) : pyobj :=
  root ([("acquisition_time", leaf); ("comment", leaf);
         ("photon_data", photon_data_bare)] ++ last).

(** A file whose only child [photon_data...] is an array [photon_data0],
    followed by [last]. *)
Definition file_of_array (last : list (string * node)) : pyobj :=
  root ([("acquisition_time", leaf); ("comment", leaf);
         ("photon_data0", leaf)] ++ last).

(** A file whose measurement groups are numbered from 1. *)
Definition file_numbered_from_1 : pyobj :=
  root [("acquisition_time", leaf); ("comment", leaf);
        ("photon_data1", photon_data "smFRET");
        ("photon_data2", photon_data "smFRET"); ("setup", setup)].

(** A file whose measurement groups are numbered from 0. *)
Definition file_numbered_from_0 : pyobj :=
  root [("acquisition_time", leaf); ("comment", leaf);
        ("photon_data0", photon_data "smFRET");
        ("photon_data1", photon_data "smFRET"); ("setup", setup)].

(** A table that knows every path of the files above. *)
Definition descr : gmap string string :=
  list_to_map
    ((fun path => (path, "a documented field")) <$>
     ["/"; "/acquisition_time"; "/comment"; "/photon_data";
      "/photon_data/measurement_specs";
      "/photon_data/measurement_specs/detectors_specs";
      "/photon_data/measurement_specs/detectors_specs/spectral_ch1";
      "/photon_data/measurement_specs/detectors_specs/spectral_ch2";
      "/photon_data/measurement_specs/laser_pulse_rate";
      "/photon_data/measurement_specs/measurement_type";
      "/photon_data/nantotimes"; "/photon_data/nantotimes_specs";
      "/photon_data/nantotimes_specs/tcspc_num_bins";
      "/photon_data/nantotimes_specs/tcspc_range";
      "/photon_data/nantotimes_specs/tcspc_unit";
      "/photon_data/nantotimes_specs/time_reversed";
      "/photon_data/timestamps"; "/photon_data/timestamps_specs";
      "/photon_data/timestamps_specs/timestamps_unit";
      "/setup"; "/setup/lifetime"; "/setup/modulated_excitation";
      "/setup/num_pixels"; "/setup/num_polarization_ch";
      "/setup/num_spectral_ch"; "/setup/num_split_ch"; "/setup/num_spots"]).

End Sample.

(** ** A sample save *)

Module SampleSave.

Import Save.

(** [os.path.splitext], [os.path.abspath] and [os.path.basename] on the
    plain relative names used below. *)
Fixpoint splitext (s : string) : string * string :=
  match s with
  | EmptyString => (EmptyString, EmptyString)
  | String a s' =>
      let (root, ext) := splitext s' in
      if String.eqb ext EmptyString then
        if Ascii.eqb a "." then (EmptyString, s) else (String a root, ext)
      else (String a root, ext)
  end.

Definition abspath (s : string) : string := "/home/user/" +:+ s.

Definition basename (s : string) : string :=
  List.last (PyStr.split "/" s) EmptyString.

Definition save :=
  save_photon_hdf5 Sample.descr "0.4.0" splitext abspath basename
    "2015-06-01 12:00:00" (fun _ => "2015-05-30 09:00:00")
    (fun _ => "2015-05-31 10:00:00") 100.

(** The caller's dictionary, at 1, and its provenance, at 2. *)
Definition caller_dict : gmap string value :=
  <["filename" := VStr "run1.spc"]>
  (<["provenance" := VDict 2%positive]>
   (<["timestamps" := VArray [10%Z; 20%Z; 35%Z]]> ∅)).

Definition provenance_dict : gmap string value :=
  <["filename" := VStr "run1.spc"]>
  (<["filename_full" := VStr "/home/user/run1.spc"]> ∅).

Definition before : world :=
  World (<[1%positive := caller_dict]> (<[2%positive := provenance_dict]> ∅))
    {["run1.spc"]} [] [].

Definition compression : gmap string value :=
  <["complevel" := VInt 6]> (<["complib" := VStr "zlib"]> ∅).

(** The outcome of the save. *)
Definition outcome : world * (exn + unit) :=
  save 1%positive compression None None before.

Definition after : world := fst outcome.

(** The value under key [k] of the dictionary at [l]. *)
Definition entry (w : world) (l : loc) (k : string) : option value :=
  match heap w !! l with
  | Some d => d !! k
  | None => None
  end.

(** Whether the file was asked to write [op]. *)
Definition written (op : sink_op) (w : world) : bool :=
  bool_decide (op ∈ sink w).

End SampleSave.

(** ** More sample inputs *)

Module MoreSamples.
Import H5 Save Dicts.

(** The writer on the caller's dictionary of the sample save. *)
Definition written_outcome : world * (exn + unit) :=
  _save_photon_hdf5_dict 100 "/" 1%positive Sample.descr None
    SampleSave.before.

(** A dictionary without [filename]. *)
Definition nameless : world :=
  World {[1%positive := {["timestamps" := VArray [10%Z; 20%Z]]}]} ∅ [] [].

(** The world of the sample save, once the original file was moved to
    where [filename_full] says. *)
Definition moved : world :=
  World (heap SampleSave.before) {["/home/user/run1.spc"]} [] [].

(** A dictionary with a comment, and an overlay that describes the
    comment in its own words. *)
Definition commented : world :=
  World {[1%positive := {["comment" := VStr "a test";
                           "timestamps" := VArray [10%Z; 20%Z]]}]} ∅ [] [].

Definition overlay : gmap string string :=
  {["/comment" := "what I noted down"]}.

(** The outcome of the save of that dictionary with that overlay. *)
Definition commented_outcome : world * (exn + unit) :=
  SampleSave.save 1%positive SampleSave.compression (Some "out.hdf5")
    (Some overlay) commented.

(** A check of names: not empty, no separator. *)
Definition plain_name (s : string) : bool :=
  negb (String.eqb s EmptyString) && negb (PyStr.contains "/" s).

(** A free-form dictionary with a dictionary in it. *)
Definition settings : gmap string pyval :=
  {["gain" := PVal "3"; "laser" := PDict {["power" := PVal "20"]}]}.

(** A group that has a child [gain] already. *)
Definition occupied : list (string * node) := [("gain", Leaf "1")].

End MoreSamples.

(** * Part III: lemmas and theorems *)

Example analyze_ts :
  Path._analyze_path "timestamps" (Some ["photon_data42"]) tt
  = (tt, inr ("/photon_data/timestamps", true, false)).
Proof. vm_compute. reflexivity. Qed.

Example analyze_slash :
  Path._analyze_path "photon_data0/timestamps" (Some []) tt
  = (tt, inl AssertionError).
Proof. vm_compute. reflexivity. Qed.

(** ** Reasoning about computations *)

(** Run the first computation of a sequence, given its outcome. *)
Ltac step H := unfold bind at 1; rewrite H; cbv beta iota.

Ltac step_in H E := unfold bind at 1 in H; rewrite E in H; cbv beta iota in H.

Lemma bind_assoc {S A B C} (m : Py S A) (f : A -> Py S B) (g : B -> Py S C) s :
  bind (bind m f) g s = bind m (fun a => bind (f a) g) s.
Proof. unfold bind. destruct (m s) as [s' [e|a]]; reflexivity. Qed.

Lemma bind_returns {S A B} (m : Py S A) (k : A -> Py S B) s s' a :
  m s = (s', inr a) -> bind m k s = k a s'.
Proof. intros H. unfold bind. rewrite H. reflexivity. Qed.

Lemma bind_raises {S A B} (m : Py S A) (k : A -> Py S B) s s' e :
  m s = (s', inl e) -> bind m k s = (s', inl e).
Proof. intros H. unfold bind. rewrite H. reflexivity. Qed.

Lemma throws_ret {S A} P (a : A) : throws (S:=S) P (ret a).
Proof. intros s s' e H. discriminate H. Qed.

Lemma throws_raise {S A} (P : exn -> Prop) e :
  P e -> throws (S:=S) (A:=A) P (raise e).
Proof. intros HP s s' e' H. inversion H; subst. exact HP. Qed.

Lemma throws_bind {S A B} P (m : Py S A) (k : A -> Py S B) :
  throws P m -> (forall a, throws P (k a)) -> throws P (bind m k).
Proof.
  intros Hm Hk s s' e. unfold bind.
  destruct (m s) as [s1 [e1|a]] eqn:E; intros H.
  - inversion H; subst. eapply Hm; eauto.
  - eapply Hk; eauto.
Qed.

Lemma throws_if {S A} P (b : bool) (m1 m2 : Py S A) :
  throws P m1 -> throws P m2 -> throws P (if b then m1 else m2).
Proof. destruct b; auto. Qed.

Lemma throws_for_each {S A} P (l : list A) (body : A -> Py S unit) :
  (forall x, throws P (body x)) -> throws P (for_each l body).
Proof.
  intros Hb. induction l as [|x l IH]; simpl.
  - apply throws_ret.
  - apply throws_bind; auto.
Qed.

Lemma throws_print P line : throws P (print line).
Proof. intros s s' e H. discriminate H. Qed.

Lemma throws_weaken {S A} (P Q : exn -> Prop) (m : Py S A) :
  (forall e, P e -> Q e) -> throws P m -> throws Q m.
Proof. intros HPQ Hm s s' e H. apply HPQ. eapply Hm; eauto. Qed.

Lemma throws_bind_val {S A B} P (Q : A -> Prop) (m : Py S A)
    (k : A -> Py S B) :
  throws P m -> (forall s s' a, m s = (s', inr a) -> Q a) ->
  (forall a, Q a -> throws P (k a)) -> throws P (bind m k).
Proof.
  intros Hm HQ Hk s s' e. unfold bind.
  destruct (m s) as [s1 [e1|a]] eqn:E; intros H.
  - inversion H; subst. eapply Hm; eauto.
  - eapply Hk; eauto.
Qed.

Lemma bind_ext {S A B} (m : Py S A) (k k' : A -> Py S B) s :
  (forall a s', k a s' = k' a s') -> bind m k s = bind m k' s.
Proof. intros H. unfold bind. destruct (m s) as [s' [e|a]]; auto. Qed.

(** ** Facts on the tree accessors *)

Module TreeFacts.
Import H5 Tree.

Lemma has_child_child name o p n :
  o = ONode p n ->
  has_child name o = bool_decide (is_Some (child name o)).
Proof.
  intros ->. destruct n as [v|cs]; simpl.
  - reflexivity.
  - apply bool_decide_ext. rewrite fmap_is_Some. reflexivity.
Qed.

Lemma child_is_node name o c : child name o = Some c ->
  exists p n, c = ONode p n.
Proof.
  destruct o as [p [v|cs]|s]; simpl; try discriminate.
  destruct (assoc name cs); simpl; intros H; inversion H; eauto.
Qed.

Lemma child_has name o c : child name o = Some c -> has_child name o = true.
Proof.
  destruct o as [p [v|cs]|s]; simpl; try discriminate.
  destruct (assoc name cs) eqn:E; simpl; intros H; inversion H.
  reflexivity.
Qed.

Lemma child_none_has name p n :
  child name (ONode p n) = None -> has_child name (ONode p n) = false.
Proof.
  destruct n as [v|cs]; simpl; [reflexivity|].
  destruct (assoc name cs) eqn:E; simpl; [discriminate|].
  reflexivity.
Qed.

Lemma getattr_child {S} name o c (s : S) :
  child name o = Some c -> getattr o name s = (s, inr c).
Proof.
  destruct o as [p [v|cs]|s0]; simpl; try discriminate.
  destruct (assoc name cs); simpl; intros H; inversion H. reflexivity.
Qed.

Lemma getattr_no_child {S} name o (s : S) :
  child name o = None -> exists e, getattr o name s = (s, inl e) /\
    ~ is_invalid e.
Proof.
  destruct o as [p [v|cs]|s0]; simpl.
  - intros _. eexists; split; [reflexivity|]. intros [m Hm]; discriminate.
  - destruct (assoc name cs); simpl; [discriminate|].
    intros _. eexists; split; [reflexivity|]. intros [m Hm]; discriminate.
  - intros _. eexists; split; [reflexivity|]. intros [m Hm]; discriminate.
Qed.

End TreeFacts.

(** ** Per-measurement-group checks *)

Section PhotonData.

Import PyStr H5 Tree TreeFacts Phase.

Lemma has_path_1 name p n :
  has_path [name] (ONode p n) = has_child name (ONode p n).
Proof.
  unfold has_path, find.
  destruct (child name (ONode p n)) as [c|] eqn:E.
  - rewrite (child_has _ _ _ E). apply bool_decide_eq_true. eauto.
  - rewrite (child_none_has _ _ _ E). apply bool_decide_eq_false.
    intros [x Hx]. discriminate.
Qed.

Lemma has_path_cons name segs o :
  has_path (name :: segs) o = true ->
  exists c, child name o = Some c /\ has_path segs c = true.
Proof.
  unfold has_path. simpl. destruct (child name o) as [c|]; intros H.
  - eauto.
  - apply bool_decide_eq_true in H. destruct H as [x Hx]. discriminate.
Qed.

Lemma has_path_cons_false name segs o c :
  child name o = Some c ->
  has_path (name :: segs) o = has_path segs c.
Proof. unfold has_path. simpl. intros ->. reflexivity. Qed.

Lemma assert_has_field_present name o out :
  has_child name o = true -> _assert_has_field name o out = (out, inr tt).
Proof. unfold _assert_has_field. intros ->. reflexivity. Qed.

Lemma assert_has_field_absent name p n out :
  has_child name (ONode p n) = false ->
  _assert_has_field name (ONode p n) out
  = (out, inl (Invalid_PhotonHDF5 (missing_in name p))).
Proof. unfold _assert_has_field. intros ->. reflexivity. Qed.

Lemma assert_has_field_mtype_present mt name o out :
  has_child name o = true ->
  _assert_has_field_mtype mt name o out = (out, inr tt).
Proof. unfold _assert_has_field_mtype. intros ->. reflexivity. Qed.

Lemma assert_has_field_mtype_absent mt name p n out :
  has_child name (ONode p n) = false ->
  _assert_has_field_mtype mt name (ONode p n) out
  = (out, inl (Invalid_PhotonHDF5 (missing_mtype name p mt))).
Proof. unfold _assert_has_field_mtype. intros ->. reflexivity. Qed.

Lemma assert_has_field_mtype_cases mt name p n out :
  _assert_has_field_mtype mt name (ONode p n) out = (out, inr tt) \/
  exists msg, _assert_has_field_mtype mt name (ONode p n) out
              = (out, inl (Invalid_PhotonHDF5 msg)).
Proof.
  destruct (has_child name (ONode p n)) eqn:E.
  - left. apply assert_has_field_mtype_present, E.
  - right. eexists. apply assert_has_field_mtype_absent, E.
Qed.

(** When one of them fails the function raises there, whatever [strict]. *)
Lemma timestamps_missing_raises p n strict out :
  forallb (fun segs => has_path segs (ONode p n)) timestamps_fields = false ->
  exists msg, _check_photon_data (ONode p n) strict out
              = (out, inl (Invalid_PhotonHDF5 msg)).
Proof.
  intros H. unfold timestamps_fields in H. simpl forallb in H.
  rewrite !has_path_1 in H. unfold _check_photon_data.
  destruct (has_child "timestamps" (ONode p n)) eqn:E1.
  2:{ step (assert_has_field_absent _ _ _ out E1). eauto. }
  step (assert_has_field_present _ _ out E1).
  destruct (has_child "timestamps_specs" (ONode p n)) eqn:E2.
  2:{ step (assert_has_field_absent _ _ _ out E2). eauto. }
  step (assert_has_field_present _ _ out E2).
  simpl in H. rewrite andb_true_r in H.
  destruct (child "timestamps_specs" (ONode p n)) as [ts|] eqn:E3.
  2:{ apply child_none_has in E3. congruence. }
  rewrite (has_path_cons_false _ _ _ _ E3) in H.
  destruct (child_is_node _ _ _ E3) as (p' & n' & ->).
  rewrite has_path_1 in H.
  step (getattr_child (S:=stdout) _ _ _ out E3).
  step (assert_has_field_absent _ _ _ out H). eauto.
Qed.

(** When they pass, the function goes on to the measurement specs. *)
Lemma timestamps_present_continue p n out (k : Py stdout unit) :
  forallb (fun segs => has_path segs (ONode p n)) timestamps_fields = true ->
  (_assert_has_field "timestamps" (ONode p n) ;;;
   _assert_has_field "timestamps_specs" (ONode p n) ;;;
   timestamps_specs <- getattr (ONode p n) "timestamps_specs" ;;
   _assert_has_field "timestamps_unit" timestamps_specs ;;;
   k) out = k out.
Proof.
  intros H. unfold timestamps_fields in H. simpl forallb in H.
  rewrite !has_path_1 in H.
  apply andb_prop in H as [E1 H]. apply andb_prop in H as [E2 H].
  rewrite andb_true_r in H.
  destruct (has_path_cons _ _ _ H) as (ts & E3 & E4).
  destruct (child_is_node _ _ _ E3) as (p' & n' & ->).
  rewrite has_path_1 in E4.
  step (assert_has_field_present _ _ out E1).
  step (assert_has_field_present _ _ out E2).
  step (getattr_child (S:=stdout) _ _ _ out E3).
  step (assert_has_field_present _ _ out E4).
  reflexivity.
Qed.

(** The measurement type, once read. *)
Lemma measurement_type_read p n mt :
  measurement_type_of (ONode p n) = Some mt ->
  exists ms p' cs v,
    mt = Bytes v /\
    child "measurement_specs" (ONode p n) = Some ms /\
    child "measurement_type" ms = Some (ONode p' (Leaf v)) /\
    ms = ONode (join_path p "measurement_specs") (Group cs).
Proof.
  unfold measurement_type_of, find. intros H.
  destruct (child "measurement_specs" (ONode p n)) as [ms|] eqn:E1;
    [|discriminate H].
  destruct (child "measurement_type" ms) as [mtn|] eqn:E2;
    [|discriminate H].
  destruct mtn as [p' [v|cs']|s]; try discriminate H.
  inversion H; subst.
  destruct n as [v0|cs]; simpl in E1; [discriminate|].
  destruct (assoc "measurement_specs" cs) as [c|]; simpl in E1;
    [|discriminate].
  inversion E1; subst.
  destruct c as [v1|mcs]; simpl in E2; [discriminate|]. eauto 8.
Qed.

(** What [read()] returns is a [bytes], and no [bytes] is one of the
    recognized identifiers, which are [str]. *)
Lemma read_not_recognized o mt :
  measurement_type_of o = Some mt -> mt ∉ spectral_meas_types.
Proof.
  unfold measurement_type_of. intros H.
  destruct (find _ o) as [[p' [v|cs]|s]|]; try discriminate H.
  injection H as <-. unfold spectral_meas_types.
  rewrite !elem_of_cons, elem_of_nil.
  intros [H|[H|[H|[H|[]]]]]; discriminate H.
Qed.

End PhotonData.

(** ** The phases of the validation *)

Section Phases.

Import PyStr H5 Tree TreeFacts Phase.

Variable official_fields_descr : gmap string string.

Local Abbreviation top_level_checks :=
  (Phase.top_level_checks official_fields_descr).
Local Abbreviation measurement_checks :=
  (Phase.measurement_checks official_fields_descr).

Lemma unknown_field_not_missing_pd path :
  unknown_field path <> missing_photon_data.
Proof. unfold unknown_field, missing_photon_data. simpl. discriminate. Qed.

Lemma missing_in_not_missing_pd name path :
  missing_in name path <> missing_photon_data.
Proof. unfold missing_in, missing_photon_data. simpl. discriminate. Qed.

Lemma strip_digits_startswith {S} path (s : S) :
  startswith path "/photon_data" = true ->
  exists q, Path.strip_digits path s = (s, inr q).
Proof.
  intros H. unfold Path.strip_digits, match_photon_data. rewrite H.
  eexists. reflexivity.
Qed.

Lemma check_path_throws path strict :
  throws (sweep_exn_at strict)
    (_check_path official_fields_descr path strict).
Proof.
  unfold _check_path.
  destruct (contains "/user" path); [apply throws_ret|].
  apply throws_bind.
  - destruct (startswith path "/photon_data") eqn:E; [|apply throws_ret].
    intros s s' e H. destruct (strip_digits_startswith path s E) as [q Hq].
    rewrite Hq in H. discriminate.
  - intros q. apply throws_if; [|apply throws_ret].
    destruct strict; [|apply throws_print].
    apply throws_raise. split; [reflexivity|].
    split; [eexists; reflexivity|].
    intros H. now inversion H.
Qed.

Lemma throws_for_acc {A B} P (l : list A) (body : B -> A -> Py stdout B) :
  (forall acc x, x ∈ l -> throws P (body acc x)) ->
  forall acc, throws P (for_acc l body acc).
Proof.
  induction l as [|x l IH]; intros Hb acc; simpl.
  - apply throws_ret.
  - apply throws_bind.
    + apply Hb. left.
    + intros acc'. apply IH. intros a y Hy. apply Hb. right. exact Hy.
Qed.

Lemma check_node_throws strict acc nd :
  is_node_obj nd ->
  throws (sweep_exn_at strict)
    (check_node official_fields_descr strict acc nd).
Proof.
  intros (p & n & ->). unfold check_node. apply throws_bind.
  - intros s s' e H. discriminate.
  - intros path. apply throws_if; [|apply throws_ret].
    apply throws_bind; [apply check_path_throws|]. intros _. apply throws_ret.
Qed.

Lemma nodes_of_are_nodes p cs nd : nd ∈ nodes_of p cs -> is_node_obj nd.
Proof.
  unfold nodes_of. intros H. apply list_elem_of_fmap in H as (kc & -> & _).
  eexists _, _. reflexivity.
Qed.

Lemma check_group_throws strict acc g :
  is_group_obj g ->
  throws (sweep_exn_at strict)
    (check_group official_fields_descr strict acc g).
Proof.
  intros (p & cs & ->). unfold check_group. apply throws_bind.
  - intros s s' e H. discriminate.
  - intros path. apply throws_bind; [apply check_path_throws|]. intros _.
    apply (throws_bind_val _ (fun nodes => nodes = nodes_of p cs)).
    + intros s s' e H. discriminate.
    + intros s s' a H. inversion H. reflexivity.
    + intros nodes ->. apply throws_for_acc. intros acc' nd Hnd.
      apply check_node_throws. eapply nodes_of_are_nodes, Hnd.
Qed.

Lemma walk_below_groups p n : Forall is_group_obj (walk_below p n).
Proof.
  revert p. induction n as [v|cs IH] using node_children_ind; intros p.
  - constructor.
  - simpl. apply Forall_app. split.
    + unfold nodes_of. apply Forall_fmap, Forall_forall.
      intros [k c] Hkc.       apply filter_In in Hkc as [_ Hg].
      simpl in *. destruct c; [discriminate|]. eexists _, _. reflexivity.
    + induction IH as [|[k c] l Hc Hl IHl]; [constructor|].
      apply Forall_app. split; [exact IHl|apply Hc].
Qed.

Lemma check_valid_names_throws p cs strict :
  throws (sweep_exn_at strict)
    (_check_valid_names official_fields_descr (ONode p (Group cs)) strict).
Proof.
  unfold _check_valid_names.
  apply (throws_bind_val _ (Forall is_group_obj)).
  - intros s s' e H. discriminate.
  - intros s s' a H. inversion H. constructor.
    + eexists _, _. reflexivity.
    + apply (walk_below_groups p (Group cs)).
  - intros groups Hg. apply throws_bind; [|intros; apply throws_ret].
    apply throws_for_acc. intros acc g Hin. apply check_group_throws.
    rewrite Forall_forall in Hg. apply Hg.
    first [exact Hin | apply list_elem_of_In; exact Hin].
Qed.

Lemma check_has_field_throws name p n strict :
  throws sweep_exn (_check_has_field name (ONode p n) strict).
Proof.
  unfold _check_has_field. apply throws_if; [|apply throws_ret].
  apply throws_bind; [intros s s' e H; discriminate|].
  intros path. apply throws_raise. split; [eexists; reflexivity|].
  intros H. now inversion H.
Qed.

Lemma top_level_checks_throws p cs strict :
  throws sweep_exn (top_level_checks (ONode p (Group cs)) strict).
Proof.
  unfold top_level_checks.
  apply throws_bind.
  { eapply throws_weaken; [|apply check_valid_names_throws].
    intros e [_ He]. exact He. }
  intros _. apply throws_bind; intros; apply check_has_field_throws.
Qed.

(** With a child [photon_data], the validator checks that one child. *)
Lemma assert_valid_single data ph strict out :
  child "photon_data" data = Some ph ->
  assert_valid_photon_hdf5 official_fields_descr data strict out
  = (top_level_checks data strict ;;;
     _check_photon_data ph strict ;;;
     setup_check data strict) out.
Proof.
  intros Hc. unfold assert_valid_photon_hdf5, top_level_checks, setup_check.
  rewrite (child_has _ _ _ Hc). unfold bind.
  destruct (_check_valid_names official_fields_descr data strict out)
    as [o1 [e|[]]]; [reflexivity|].
  destruct (_check_has_field "acquisition_time" data strict o1)
    as [o2 [e|[]]]; [reflexivity|].
  destruct (_check_has_field "comment" data strict o2) as [o3 [e|[]]];
    [reflexivity|].
  rewrite (getattr_child _ _ _ o3 Hc). simpl.
  unfold bind.
  destruct (_check_photon_data ph strict o3) as [o4 [e|[]]]; reflexivity.
Qed.

(** With neither [photon_data] nor [photon_data0], it raises after the
    top-level checks. *)
Lemma assert_valid_none data strict out :
  has_child "photon_data" data = false ->
  has_child "photon_data0" data = false ->
  assert_valid_photon_hdf5 official_fields_descr data strict out
  = (top_level_checks data strict ;;;
     raise (Invalid_PhotonHDF5 missing_photon_data)) out.
Proof.
  intros H1 H2. unfold assert_valid_photon_hdf5, top_level_checks.
  rewrite H1, H2. unfold bind.
  destruct (_check_valid_names official_fields_descr data strict out)
    as [o1 [e|[]]]; [reflexivity|].
  destruct (_check_has_field "acquisition_time" data strict o1)
    as [o2 [e|[]]]; [reflexivity|].
  destruct (_check_has_field "comment" data strict o2) as [o3 [e|[]]];
    reflexivity.
Qed.

(** *** [_check_photon_data] *)

(** Handed a string, the function ends on an attribute error. *)
Lemma check_photon_data_str s strict out :
  _check_photon_data (OStr s) strict out = (out, inl AttributeError).
Proof.
  unfold _check_photon_data, _assert_has_field, bind. simpl.
  destruct (contains "timestamps" s); simpl; [|reflexivity].
  destruct (contains "timestamps_specs" s); reflexivity.
Qed.

Lemma throws_getattr {S} P o name :
  (forall e, ~ is_invalid e -> P e) -> throws (S:=S) P (getattr o name).
Proof.
  intros HP s s' e H. apply HP. intros [m ->].
  destruct o as [p [v|cs]|s0]; simpl in H; try discriminate.
  destruct (assoc name cs); discriminate.
Qed.

Lemma not_invalid_not_missing_pd e : ~ is_invalid e -> not_missing_pd e.
Proof. intros H ->. apply H. eexists. reflexivity. Qed.

Lemma throws_pathname {S} P o :
  (forall e, ~ is_invalid e -> P e) -> throws (S:=S) P (_v_pathname o).
Proof.
  intros HP s s' e H. apply HP. intros [m ->].
  destruct o; discriminate.
Qed.

Lemma throws_read {S} P o :
  (forall e, ~ is_invalid e -> P e) -> throws (S:=S) P (read o).
Proof.
  intros HP s s' e H. apply HP. intros [m ->].
  destruct o as [p [v|cs]|s0]; simpl in H; try discriminate.
  destruct (assoc "read" cs); discriminate.
Qed.

Lemma assert_has_field_throws name o :
  throws not_missing_pd (_assert_has_field name o).
Proof.
  unfold _assert_has_field. apply throws_if; [|apply throws_ret].
  apply throws_bind; [apply throws_pathname, not_invalid_not_missing_pd|].
  intros path. apply throws_raise. intros H. now inversion H.
Qed.

Lemma assert_has_field_mtype_throws mt name o :
  throws not_missing_pd (_assert_has_field_mtype mt name o).
Proof.
  unfold _assert_has_field_mtype. apply throws_if; [|apply throws_ret].
  apply throws_bind; [apply throws_pathname, not_invalid_not_missing_pd|].
  intros path. apply throws_raise. intros H. now inversion H.
Qed.

Lemma raise_invalid_file_throws P msg strict :
  P (Invalid_PhotonHDF5 msg) -> throws P (_raise_invalid_file msg strict).
Proof.
  intros HP. unfold _raise_invalid_file. destruct strict.
  - apply throws_raise, HP.
  - apply throws_print.
Qed.

Lemma check_photon_data_throws ph strict :
  throws not_missing_pd (_check_photon_data ph strict).
Proof.
  unfold _check_photon_data.
  repeat first
    [ apply assert_has_field_throws
    | apply assert_has_field_mtype_throws
    | apply throws_getattr, not_invalid_not_missing_pd
    | apply throws_read, not_invalid_not_missing_pd
    | apply throws_ret
    | apply raise_invalid_file_throws; intros H; now inversion H
    | apply throws_raise; intros H; now inversion H
    | apply throws_for_each; intros ?
    | apply throws_if
    | apply throws_bind; [|intros ?] ].
Qed.

Lemma check_setup_throws setup strict :
  throws (fun e => strict = true /\ exists name,
            e = Invalid_PhotonHDF5 (missing_setup name))
    (_check_setup setup strict).
Proof.
  unfold _check_setup. apply throws_for_each. intros name.
  apply throws_if; [|apply throws_ret].
  unfold _raise_invalid_file. destruct strict.
  - apply throws_raise. eauto.
  - apply throws_print.
Qed.

Lemma has_child_true_child name p n :
  has_child name (ONode p n) = true ->
  exists c, child name (ONode p n) = Some c.
Proof.
  destruct (child name (ONode p n)) as [c|] eqn:E; [eauto|].
  rewrite (child_none_has _ _ _ E). discriminate.
Qed.

Lemma setup_check_throws p n strict :
  throws (fun e => strict = true /\ not_missing_pd e)
    (setup_check (ONode p n) strict).
Proof.
  unfold setup_check.
  destruct (has_child "setup" (ONode p n)) eqn:E.
  - destruct (has_child_true_child _ _ _ E) as [c Hc].
    intros s s' e H.
    rewrite (bind_returns _ _ _ _ _ (getattr_child _ _ _ s Hc)) in H.
    apply check_setup_throws in H as [-> [name ->]]. split; [reflexivity|].
    intros H. now inversion H.
  - unfold _raise_invalid_file. destruct strict.
    + apply throws_raise. split; [reflexivity|]. intros H. now inversion H.
    + apply throws_print.
Qed.

(** With a child [photon_data] or [photon_data0], no error of the validator
    is the one of a missing measurement group. *)
Lemma assert_valid_throws_other p cs strict :
  has_child "photon_data" (ONode p (Group cs))
  || has_child "photon_data0" (ONode p (Group cs)) = true ->
  throws not_missing_pd
    (assert_valid_photon_hdf5 official_fields_descr (ONode p (Group cs))
       strict).
Proof.
  intros Hc. unfold assert_valid_photon_hdf5.
  apply throws_bind.
  { eapply throws_weaken; [|apply check_valid_names_throws].
    intros e [_ [_ He]]. exact He. }
  intros _. apply throws_bind.
  { eapply throws_weaken; [|apply check_has_field_throws].
    intros e [_ He]. exact He. }
  intros _. apply throws_bind.
  { eapply throws_weaken; [|apply check_has_field_throws].
    intros e [_ He]. exact He. }
  intros _. apply throws_bind.
  { destruct (has_child "photon_data" (ONode p (Group cs))).
    - apply throws_bind; [|intros; apply throws_ret].
      apply throws_getattr, not_invalid_not_missing_pd.
    - apply orb_prop in Hc as [Hc|Hc]; [discriminate|]. rewrite Hc.
      apply throws_bind; [|intros; apply throws_ret].
      intros s s' e H. discriminate. }
  intros ph_data_m. apply throws_bind.
  { apply throws_for_each. intros ph. apply check_photon_data_throws. }
  intros _. eapply throws_weaken; [|apply setup_check_throws].
  intros e [_ He]. exact He.
Qed.

Lemma check_photon_data_typed p n strict out mt :
  forallb (fun segs => has_path segs (ONode p n)) timestamps_fields = true ->
  measurement_type_of (ONode p n) = Some mt ->
  exists cs,
    child "measurement_specs" (ONode p n)
    = Some (ONode (join_path p "measurement_specs") (Group cs)) /\
    _check_photon_data (ONode p n) strict out
    = conditional_checks (ONode p n)
        (ONode (join_path p "measurement_specs") (Group cs)) mt out.
Proof.
  intros Hts Hmt.
  destruct (measurement_type_read _ _ _ Hmt)
    as (ms & p' & cs & v & -> & E1 & E2 & ->).
  exists cs. split; [exact E1|].
  unfold _check_photon_data.
  rewrite (timestamps_present_continue p n out _ Hts).
  rewrite (child_has _ _ _ E1). cbn [negb].
  step (getattr_child (S:=stdout) _ _ _ out E1).
  rewrite (child_has _ _ _ E2). cbn [negb].
  step (getattr_child (S:=stdout) _ _ _ out E2).
  unfold bind at 1. unfold read at 1. unfold ret at 1. cbv beta iota.
  reflexivity.
Qed.

Lemma has_path_2 a b o :
  has_path [a; b] o = true ->
  exists c p' n', child a o = Some c /\ child b c = Some (ONode p' n').
Proof.
  intros H. apply has_path_cons in H as (c & Hc & H).
  apply has_path_cons in H as (d & Hd & _).
  destruct (child_is_node _ _ _ Hd) as (p' & n' & ->). eauto 6.
Qed.

Lemma unknown_type_raises ph ms mt out :
  mt ∉ spectral_meas_types ->
  conditional_checks ph ms mt out
  = (out, inl (Invalid_PhotonHDF5 (unknown_mtype mt))).
Proof.
  intros H. unfold conditional_checks.
  rewrite (bool_decide_eq_false_2 _ H). reflexivity.
Qed.

(** When the check of the one group [photon_data] raises, so does the
    validation. *)
Lemma assert_valid_single_raises rp rcs ph strict out (P : exn -> Prop) :
  child "photon_data" (ONode rp (Group rcs)) = Some ph ->
  (forall e, is_invalid e -> P e) ->
  (forall o, exists e, _check_photon_data ph strict o = (o, inl e) /\ P e) ->
  exists out' e,
    assert_valid_photon_hdf5 official_fields_descr (ONode rp (Group rcs))
      strict out = (out', inl e) /\ P e.
Proof.
  intros Hc HP Hph. rewrite (assert_valid_single _ _ _ _ Hc). unfold bind.
  destruct (top_level_checks (ONode rp (Group rcs)) strict out)
    as [o1 [e|[]]] eqn:E.
  - exists o1, e. split; [reflexivity|].
    apply HP. apply top_level_checks_throws in E as [He _]. exact He.
  - destruct (Hph o1) as (e & -> & He). eauto.
Qed.

(** C3 (amended).  The three checks that open the per-group validation
    (a [timestamps] field, a [timestamps_specs] group, a [timestamps_unit]
    field in it) do not look at [strict]: when one of them fails,
    [_check_photon_data] raises [Invalid_PhotonHDF5] under strict=true and
    under strict=false alike, and prints no warning. *)
Theorem C3_timestamps_checks_raise_regardless p n strict out :
  forallb (fun segs => has_path segs (ONode p n)) timestamps_fields = false ->
  exists msg, _check_photon_data (ONode p n) strict out
              = (out, inl (Invalid_PhotonHDF5 msg)).
Proof. apply timestamps_missing_raises. Qed.

(** C4.  A measurement group whose [measurement_type] reads a value
    outside the recognized list makes [_check_photon_data] raise
    [Invalid_PhotonHDF5] whatever [strict] is; with the timestamps fields in
    place the error is the one of the unknown type; and the validation of a
    root that holds the group as [photon_data] raises [Invalid_PhotonHDF5]
    too. *)
Theorem C4_unknown_measurement_type_raises p n strict out mt :
  measurement_type_of (ONode p n) = Some mt ->
  mt ∉ spectral_meas_types ->
  (exists msg, _check_photon_data (ONode p n) strict out
               = (out, inl (Invalid_PhotonHDF5 msg))) /\
  (forallb (fun segs => has_path segs (ONode p n)) timestamps_fields = true ->
   _check_photon_data (ONode p n) strict out
   = (out, inl (Invalid_PhotonHDF5 (unknown_mtype mt)))) /\
  (forall rp rcs,
     child "photon_data" (ONode rp (Group rcs)) = Some (ONode p n) ->
     exists out' msg,
       assert_valid_photon_hdf5 official_fields_descr (ONode rp (Group rcs))
         strict out = (out', inl (Invalid_PhotonHDF5 msg))).
Proof.
  intros Hmt Hnot.
  assert (Hcpd : forall o, exists msg,
             _check_photon_data (ONode p n) strict o
             = (o, inl (Invalid_PhotonHDF5 msg)) /\
             (forallb (fun segs => has_path segs (ONode p n))
                timestamps_fields = true -> msg = unknown_mtype mt)).
  { intros o.
    destruct (forallb (fun segs => has_path segs (ONode p n))
                timestamps_fields) eqn:Hts.
    - destruct (check_photon_data_typed p n strict o mt Hts Hmt)
        as (cs & _ & ->).
      rewrite (unknown_type_raises _ _ _ _ Hnot). eauto.
    - destruct (timestamps_missing_raises p n strict o Hts) as [msg ->].
      exists msg. split; [reflexivity|discriminate]. }
  split; [|split].
  - destruct (Hcpd out) as (msg & -> & _). eauto.
  - intros Hts. destruct (Hcpd out) as (msg & -> & Hm).
    rewrite (Hm Hts). reflexivity.
  - intros rp rcs Hc.
    destruct (assert_valid_single_raises rp rcs _ strict out is_invalid Hc)
      as (out' & e & He & [msg ->]); [auto| |eauto].
    intros o. destruct (Hcpd o) as (msg & -> & _).
    eexists. split; [reflexivity|]. eexists. reflexivity.
Qed.

(** A group whose [measurement_type] is read is refused for its type. *)
Lemma typed_group_refused p n strict out mt :
  forallb (fun segs => has_path segs (ONode p n)) timestamps_fields = true ->
  measurement_type_of (ONode p n) = Some mt ->
  _check_photon_data (ONode p n) strict out
  = (out, inl (Invalid_PhotonHDF5 (unknown_mtype mt))).
Proof.
  intros Hts Hmt.
  destruct (check_photon_data_typed p n strict out mt Hts Hmt)
    as (cs & _ & ->).
  apply unknown_type_raises. apply (read_not_recognized _ _ Hmt).
Qed.

(** C1 (what the code does).  The identifiers of the recognized types
    are [str] and what [read()] returns is a [bytes]: the two are never
    equal.  So a measurement group whose [measurement_type] is read never
    reaches the checks that depend on the type, the one of
    [nantotimes_specs/tcspc_unit] among them: [_check_photon_data] raises
    [Invalid_PhotonHDF5] whatever [strict] is, with the timestamps fields
    in place the error is the one of the unknown type, whatever the bytes
    are, and the validation of a root that holds the group as
    [photon_data] raises too.  A group that reads [smFRET] and has every
    field of that type is refused, where it is expected to pass; a group
    that reads [smFRET-nsALEX] is refused with the same error with and
    without [tcspc_unit]. *)
Theorem C1_typed_group_refused_as_unknown p n strict out mt :
  measurement_type_of (ONode p n) = Some mt ->
  (mt ∉ spectral_meas_types) /\
  (exists msg, _check_photon_data (ONode p n) strict out
               = (out, inl (Invalid_PhotonHDF5 msg))) /\
  (forallb (fun segs => has_path segs (ONode p n)) timestamps_fields = true ->
   _check_photon_data (ONode p n) strict out
   = (out, inl (Invalid_PhotonHDF5 (unknown_mtype mt)))) /\
  (forall rp rcs,
     child "photon_data" (ONode rp (Group rcs)) = Some (ONode p n) ->
     exists out' msg,
       assert_valid_photon_hdf5 official_fields_descr (ONode rp (Group rcs))
         strict out = (out', inl (Invalid_PhotonHDF5 msg))).
Proof.
  intros Hmt.
  assert (Hcpd : forall o, exists msg,
             _check_photon_data (ONode p n) strict o
             = (o, inl (Invalid_PhotonHDF5 msg))).
  { intros o.
    destruct (forallb (fun segs => has_path segs (ONode p n))
                timestamps_fields) eqn:Hts.
    - rewrite (typed_group_refused p n strict o mt Hts Hmt). eauto.
    - apply (timestamps_missing_raises p n strict o Hts). }
  split; [apply (read_not_recognized _ _ Hmt)|].
  split; [apply Hcpd|]. split.
  - intros Hts. apply typed_group_refused; assumption.
  - intros rp rcs Hc.
    destruct (assert_valid_single_raises rp rcs _ strict out is_invalid Hc)
      as (out' & e & He & [msg ->]); [auto| |eauto].
    intros o. destruct (Hcpd o) as (msg & ->).
    eexists. split; [reflexivity|]. eexists. reflexivity.
Qed.

(** *** The top-level fields, the discovery of the groups, the setup *)

Lemma check_valid_names_lenient p cs out :
  exists out',
    _check_valid_names official_fields_descr (ONode p (Group cs)) false out
    = (out', inr tt).
Proof.
  destruct (_check_valid_names official_fields_descr (ONode p (Group cs))
              false out) as [out' [e|[]]] eqn:E; [|eauto].
  apply check_valid_names_throws in E as [E _]. discriminate E.
Qed.

Lemma check_has_field_absent name p n strict out :
  has_child name (ONode p n) = false ->
  _check_has_field name (ONode p n) strict out
  = (out, inl (Invalid_PhotonHDF5 (missing_in name p))).
Proof. unfold _check_has_field. intros ->. reflexivity. Qed.

Lemma check_has_field_present name o strict out :
  has_child name o = true -> _check_has_field name o strict out = (out, inr tt).
Proof. unfold _check_has_field. intros ->. reflexivity. Qed.

(** The validator starts with the top-level checks, and stops when they
    raise. *)
Lemma assert_valid_top_raises data strict out out' e :
  top_level_checks data strict out = (out', inl e) ->
  assert_valid_photon_hdf5 official_fields_descr data strict out
  = (out', inl e).
Proof.
  unfold top_level_checks, assert_valid_photon_hdf5, bind.
  destruct (_check_valid_names official_fields_descr data strict out)
    as [o1 [e1|[]]]; [auto|].
  destruct (_check_has_field "acquisition_time" data strict o1)
    as [o2 [e2|[]]]; [auto|].
  destruct (_check_has_field "comment" data strict o2) as [o3 [e3|[]]];
    [auto|discriminate].
Qed.

(** C2 (what the code does).  With [acquisition_time] or [comment] absent
    from the root group, the validation raises [Invalid_PhotonHDF5] under
    strict=false, with the message of the missing field, where a warning
    is expected; under strict=true it raises too. *)
Theorem C2_missing_top_level_field_raises_when_lenient p cs out :
  has_child "acquisition_time" (ONode p (Group cs))
  && has_child "comment" (ONode p (Group cs)) = false ->
  (exists out' name,
     has_child name (ONode p (Group cs)) = false /\
     assert_valid_photon_hdf5 official_fields_descr (ONode p (Group cs))
       false out = (out', inl (Invalid_PhotonHDF5 (missing_in name p)))) /\
  (exists out' msg,
     assert_valid_photon_hdf5 official_fields_descr (ONode p (Group cs))
       true out = (out', inl (Invalid_PhotonHDF5 msg))).
Proof.
  intros H. split.
  - destruct (check_valid_names_lenient p cs out) as [o1 E1].
    destruct (has_child "acquisition_time" (ONode p (Group cs))) eqn:Ea.
    + cbn [andb] in H. exists o1, "comment". split; [exact H|].
      apply assert_valid_top_raises. unfold top_level_checks.
      step E1. step (check_has_field_present _ _ false o1 Ea).
      apply check_has_field_absent, H.
    + exists o1, "acquisition_time". split; [exact Ea|].
      apply assert_valid_top_raises. unfold top_level_checks.
      step E1. step (check_has_field_absent _ _ _ false o1 Ea). reflexivity.
  - destruct (top_level_checks (ONode p (Group cs)) true out)
      as [o1 [e|[]]] eqn:E.
    + destruct (top_level_checks_throws _ _ _ _ _ _ E) as [[msg ->] _].
      exists o1, msg. apply assert_valid_top_raises, E.
    + exfalso. unfold top_level_checks, bind in E.
      destruct (_check_valid_names official_fields_descr
                  (ONode p (Group cs)) true out) as [o2 [e|[]]];
        [discriminate|].
      destruct (has_child "acquisition_time" (ONode p (Group cs))) eqn:Ea.
      * rewrite (check_has_field_present _ _ true o2 Ea) in E.
        cbn [andb] in H.
        rewrite (check_has_field_absent _ _ _ true o2 H) in E.
        discriminate.
      * rewrite (check_has_field_absent _ _ _ true o2 Ea) in E.
        discriminate.
Qed.

(** C5 (amended).  The validation of a root group raises the error of the
    missing measurement group exactly when the name sweep and the two
    top-level field checks have passed and the root has neither a child
    [photon_data] nor a child [photon_data0], whatever [strict] is; and
    with a child [photon_data] it runs the per-group checks on that child,
    between the top-level checks and the check of the setup. *)
Theorem C5_missing_photon_data_group p cs strict out :
  (forall out',
     assert_valid_photon_hdf5 official_fields_descr (ONode p (Group cs))
       strict out = (out', inl (Invalid_PhotonHDF5 missing_photon_data))
     <->
     top_level_checks (ONode p (Group cs)) strict out = (out', inr tt) /\
     has_child "photon_data" (ONode p (Group cs)) = false /\
     has_child "photon_data0" (ONode p (Group cs)) = false) /\
  (forall ph,
     child "photon_data" (ONode p (Group cs)) = Some ph ->
     assert_valid_photon_hdf5 official_fields_descr (ONode p (Group cs))
       strict out
     = (top_level_checks (ONode p (Group cs)) strict ;;;
        _check_photon_data ph strict ;;;
        setup_check (ONode p (Group cs)) strict) out).
Proof.
  split.
  - intros out'. split.
    + intros H.
      destruct (has_child "photon_data" (ONode p (Group cs))
                || has_child "photon_data0" (ONode p (Group cs))) eqn:Hc.
      * exfalso. apply (assert_valid_throws_other p cs strict Hc _ _ _ H).
        reflexivity.
      * apply orb_false_elim in Hc as [H1 H2].
        rewrite (assert_valid_none _ _ _ H1 H2) in H. unfold bind in H.
        destruct (top_level_checks (ONode p (Group cs)) strict out)
          as [o1 [e|[]]] eqn:E.
        -- exfalso. apply top_level_checks_throws in E as [_ E].
           inversion H; subst. apply E. reflexivity.
        -- inversion H; subst. auto.
    + intros (Ht & H1 & H2). rewrite (assert_valid_none _ _ _ H1 H2).
      step Ht. reflexivity.
  - intros ph Hc. apply assert_valid_single, Hc.
Qed.

Lemma assert_valid_split data strict out :
  assert_valid_photon_hdf5 official_fields_descr data strict out
  = (measurement_checks data strict ;;; setup_check data strict) out.
Proof.
  unfold assert_valid_photon_hdf5, measurement_checks, setup_check.
  symmetry.
  rewrite bind_assoc. apply bind_ext. intros _ o1.
  rewrite bind_assoc. apply bind_ext. intros _ o2.
  rewrite bind_assoc. apply bind_ext. intros _ o3.
  rewrite bind_assoc. reflexivity.
Qed.

Lemma check_setup_lenient setup out :
  _check_setup setup false out
  = (out ++ map (fun name => warning (missing_setup name))
                (missing_setup_fields setup), inr tt).
Proof.
  unfold _check_setup, missing_setup_fields. revert out.
  induction mantatory_fields as [|name l IH]; intros out; simpl.
  - rewrite app_nil_r. reflexivity.
  - unfold bind at 1. destruct (has_child name setup); simpl.
    + apply IH.
    + rewrite IH. rewrite <- app_assoc. reflexivity.
Qed.

Lemma check_setup_strict setup out :
  _check_setup setup true out
  = match missing_setup_fields setup with
    | [] => (out, inr tt)
    | name :: _ => (out, inl (Invalid_PhotonHDF5 (missing_setup name)))
    end.
Proof.
  unfold _check_setup, missing_setup_fields.
  induction mantatory_fields as [|name l IH]; simpl.
  - reflexivity.
  - unfold bind at 1. destruct (has_child name setup); simpl.
    + apply IH.
    + reflexivity.
Qed.


End Phases.

(** The sample file of type [smFRET] has every field of the type, and
    is refused for its type. *)
Example sample_file_refused :
  assert_valid_photon_hdf5 Sample.descr (Sample.file "smFRET") false []
  = ([], inl (Invalid_PhotonHDF5
                ("Unkwnown measurement type " +:+ PyStr.dq +:+ "b'smFRET'"
                 +:+ PyStr.dq))).
Proof. vm_compute. reflexivity. Qed.

Lemma C1_witness :
  Tree.has_path ["nantotimes_specs"; "tcspc_unit"]
    (H5.ONode "/photon_data" (Sample.photon_data "smFRET")) = false /\
  _check_photon_data
    (H5.ONode "/photon_data" (Sample.photon_data "smFRET")) false []
  = ([], inl (Invalid_PhotonHDF5 (unknown_mtype (PyStr.Bytes "smFRET")))) /\
  _check_photon_data
    (H5.ONode "/photon_data" (Sample.photon_data "smFRET-nsALEX")) false []
  = ([], inl (Invalid_PhotonHDF5
                (unknown_mtype (PyStr.Bytes "smFRET-nsALEX")))).
Proof.
  split; [reflexivity|]. split.
  - apply (C1_typed_group_refused_as_unknown Sample.descr
             "/photon_data" (Sample.photon_data "smFRET") false []
             (PyStr.Bytes "smFRET")); reflexivity.
  - apply (C1_typed_group_refused_as_unknown Sample.descr
             "/photon_data" (Sample.photon_data "smFRET-nsALEX") false []
             (PyStr.Bytes "smFRET-nsALEX")); reflexivity.
Defined.

Lemma C2_witness :
  exists out' name,
    H5.has_child name Sample.file_without_comment = false /\
    assert_valid_photon_hdf5 Sample.descr Sample.file_without_comment
      false []
    = (out', inl (Invalid_PhotonHDF5 (missing_in name "/"))).
Proof.
  apply (C2_missing_top_level_field_raises_when_lenient Sample.descr
           "/" _ []).
  reflexivity.
Defined.

(** C2, at a file.  Under strict=false the validation of a file that
    lacks [comment] raises. *)
Lemma C2_file_without_comment_rejected_when_lenient :
  snd (assert_valid_photon_hdf5 Sample.descr Sample.file_without_comment
         false [])
  = inl (Invalid_PhotonHDF5 (missing_in "comment" "/")).
Proof. vm_compute. reflexivity. Qed.

(** C3, as stated, fails: under strict=false a measurement group without
    [timestamps] makes the check raise; nothing is printed. *)
Lemma C3_counterexample :
  _check_photon_data (H5.ONode "/photon_data" (H5.Group [])) false []
  = ([], inl (Invalid_PhotonHDF5 (missing_in "timestamps" "/photon_data"))).
Proof. vm_compute. reflexivity. Qed.

Lemma C3_witness :
  exists msg,
    _check_photon_data
      (H5.ONode "/photon_data"
         (H5.Group [("timestamps", Sample.leaf);
                    ("timestamps_specs", H5.Group [])])) false []
    = ([], inl (Invalid_PhotonHDF5 msg)).
Proof.
  apply (C3_timestamps_checks_raise_regardless "/photon_data" _ false []).
  reflexivity.
Defined.

Lemma C4_witness :
  (exists msg,
     _check_photon_data
       (H5.ONode "/photon_data" (Sample.photon_data "FCS")) false []
     = ([], inl (Invalid_PhotonHDF5 msg))) /\
  exists out' msg,
    assert_valid_photon_hdf5 Sample.descr (Sample.file "FCS") false []
    = (out', inl (Invalid_PhotonHDF5 msg)).
Proof.
  destruct (C4_unknown_measurement_type_raises Sample.descr
              "/photon_data" (Sample.photon_data "FCS") false []
              (PyStr.Bytes "FCS"))
    as (H1 & _ & H3).
  - reflexivity.
  - unfold spectral_meas_types. rewrite !elem_of_cons, elem_of_nil.
    intros [H|[H|[H|[H|[]]]]]; discriminate H.
  - split; [exact H1|]. apply (H3 "/" _). reflexivity.
Defined.

(** C5, as stated, fails: a root that holds the numbered groups
    [photon_data1] and [photon_data2] is refused with the error of the
    missing measurement group. *)
Lemma C5_counterexample :
  H5._v_groups_keys Sample.file_numbered_from_1 tt
  = (tt, inr ["photon_data1"; "photon_data2"; "setup"]) /\
  snd (assert_valid_photon_hdf5 Sample.descr Sample.file_numbered_from_1
         false [])
  = inl (Invalid_PhotonHDF5 missing_photon_data).
Proof. split; vm_compute; reflexivity. Qed.

(** The numbered family.  With groups [photon_data0] and [photon_data1]
    the per-group check is handed their names, and the validation ends on
    an attribute error. *)
Lemma numbered_family_attribute_error :
  snd (assert_valid_photon_hdf5 Sample.descr Sample.file_numbered_from_0
         false [])
  = inl AttributeError.
Proof. vm_compute. reflexivity. Qed.


(** ** Facts on strings and paths *)

Module PathFacts.
Import PyStr Path PathSpec.

Lemma app_nil_l (s : string) : EmptyString +:+ s = s.
Proof. reflexivity. Qed.

Lemma app_cons a (s t : string) : String a s +:+ t = String a (s +:+ t).
Proof. reflexivity. Qed.

Lemma app_cons_sep (s t : string) : s +:+ "/" +:+ t = s +:+ String "/" t.
Proof. reflexivity. Qed.

Lemma app_assoc (a b c : string) : (a +:+ b) +:+ c = a +:+ b +:+ c.
Proof.
  induction a as [|x a IH]; [reflexivity|].
  rewrite !app_cons. f_equal. exact IH.
Qed.

Lemma prefix_nil s : String.prefix EmptyString s = true.
Proof. destruct s; reflexivity. Qed.

Lemma prefix_cons a p b s :
  String.prefix (String a p) (String b s)
  = if ascii_dec a b then String.prefix p s else false.
Proof. reflexivity. Qed.

Lemma contains_cons sub a s :
  contains sub (String a s)
  = if String.prefix sub (String a s) then true else contains sub s.
Proof. reflexivity. Qed.

Lemma prefix_app (p s : string) : String.prefix p (p +:+ s) = true.
Proof.
  induction p as [|a p IH]; [apply prefix_nil|].
  rewrite app_cons, prefix_cons.
  destruct (ascii_dec a a); [exact IH|contradiction].
Qed.

Lemma prefix_app_l (p s t : string) :
  String.prefix p s = true -> String.prefix p (s +:+ t) = true.
Proof.
  revert s. induction p as [|a p IH]; intros s; [intros; apply prefix_nil|].
  destruct s as [|b s]; [discriminate|].
  rewrite app_cons, !prefix_cons.
  destruct (ascii_dec a b); [apply IH|discriminate].
Qed.

Lemma contains_nil sub :
  contains sub EmptyString
  = if String.prefix sub EmptyString then true else false.
Proof. reflexivity. Qed.

Lemma contains_prefix (sub s : string) :
  String.prefix sub s = true -> contains sub s = true.
Proof.
  intros H. destruct s; [rewrite contains_nil|rewrite contains_cons];
    rewrite H; reflexivity.
Qed.

Lemma contains_app_l (sub s t : string) :
  contains sub s = true -> contains sub (s +:+ t) = true.
Proof.
  induction s as [|a s IH].
  - rewrite contains_nil. destruct sub; [|discriminate].
    intros _. rewrite app_nil_l. apply contains_prefix, prefix_nil.
  - rewrite app_cons, !contains_cons.
    destruct (String.prefix sub (String a s)) eqn:E.
    + intros _. pose proof (prefix_app_l _ _ t E) as H.
      rewrite app_cons in H. rewrite H. reflexivity.
    + intros H. rewrite (IH H).
      destruct (String.prefix sub (String a (s +:+ t))); reflexivity.
Qed.

Lemma contains_app_r (sub s t : string) :
  contains sub t = true -> contains sub (s +:+ t) = true.
Proof.
  intros H. induction s as [|a s IH]; [exact H|].
  rewrite app_cons, contains_cons, IH.
  destruct (String.prefix sub (String a (s +:+ t))); reflexivity.
Qed.

Lemma no_slash_cons a s :
  contains "/" (String a s) = false -> a <> "/"%char /\ contains "/" s = false.
Proof.
  rewrite contains_cons, prefix_cons, prefix_nil.
  destruct (ascii_dec "/" a) as [<-|Hne]; [discriminate|].
  intros H. split; [congruence|exact H].
Qed.

Lemma split_cons c a s :
  split c (String a s)
  = if Ascii.eqb a c then EmptyString :: split c s
    else match split c s with
         | h :: t => String a h :: t
         | [] => [String a EmptyString]
         end.
Proof. reflexivity. Qed.

Lemma split_nonempty c s : split c s <> [].
Proof.
  destruct s as [|a s]; [discriminate|]. rewrite split_cons.
  destruct (Ascii.eqb a c); [discriminate|].
  destruct (split c s); discriminate.
Qed.

Lemma split_no_slash s : contains "/" s = false -> split "/" s = [s].
Proof.
  induction s as [|a s IH]; [reflexivity|].
  intros H. apply no_slash_cons in H as [Ha Hs]. rewrite split_cons.
  destruct (Ascii.eqb_spec a "/"); [contradiction|].
  rewrite (IH Hs). reflexivity.
Qed.

Lemma split_app_sep c s t :
  split c (s +:+ String c t) = split c s ++ split c t.
Proof.
  induction s as [|a s IH].
  - rewrite app_nil_l, split_cons, Ascii.eqb_refl. reflexivity.
  - rewrite app_cons, !split_cons.
    destruct (Ascii.eqb a c); [rewrite IH; reflexivity|].
    rewrite IH. destruct (split c s) as [|h tl] eqn:E.
    + exfalso. exact (split_nonempty _ _ E).
    + reflexivity.
Qed.

Lemma join_cons sep x y l :
  join sep (x :: y :: l) = x +:+ sep +:+ join sep (y :: l).
Proof. reflexivity. Qed.

Lemma join_snoc sep l x :
  l <> [] -> join sep (l ++ [x]) = join sep l +:+ sep +:+ x.
Proof.
  induction l as [|a l IH]; [contradiction|]. intros _.
  destruct l as [|b l]; [reflexivity|].
  specialize (IH ltac:(discriminate)).
  change (a +:+ sep +:+ join sep ((b :: l) ++ [x])
          = (a +:+ sep +:+ join sep (b :: l)) +:+ sep +:+ x).
  rewrite IH, !app_assoc. reflexivity.
Qed.

Lemma split_join l :
  Forall segment_ok l -> l <> [] -> split "/" (join "/" l) = l.
Proof.
  induction 1 as [|x l [_ Hx] Hl IH]; [contradiction|]. intros _.
  destruct l as [|y l].
  - apply split_no_slash, Hx.
  - rewrite join_cons, app_cons_sep, split_app_sep.
    rewrite (split_no_slash _ Hx), IH by discriminate. reflexivity.
Qed.

(** The chunks of the full path of well-formed segments. *)
Lemma split_full_path l :
  Forall segment_ok l -> l <> [] ->
  split "/" ("/" +:+ join "/" l) = EmptyString :: l.
Proof.
  intros H Hne. change ("/" +:+ join "/" l) with (String "/" (join "/" l)).
  rewrite split_cons, (split_join _ H Hne). reflexivity.
Qed.

Lemma last_app s t : t <> EmptyString -> last (s +:+ t) = last t.
Proof.
  intros Ht. induction s as [|a s IH]; [reflexivity|].
  rewrite app_cons. destruct (s +:+ t) eqn:E.
  - destruct s; [contradiction|discriminate].
  - exact IH.
Qed.

Lemma last_cons a s : s <> EmptyString -> last (String a s) = last s.
Proof. destruct s; [contradiction|reflexivity]. Qed.

Lemma first_app s t : s <> EmptyString -> first (s +:+ t) = first s.
Proof. destruct s; [contradiction|reflexivity]. Qed.

Lemma last_no_slash s b :
  contains "/" s = false -> last s = Some b -> b <> "/"%char.
Proof.
  induction s as [|a s IH]; [discriminate|].
  intros H. apply no_slash_cons in H as [Ha Hs].
  destruct s as [|a' s'].
  - simpl. intros [= <-]. exact Ha.
  - intros Hl. apply IH; [exact Hs|exact Hl].
Qed.

Lemma last_is_some s : s <> EmptyString -> exists b, last s = Some b.
Proof.
  induction s as [|a s IH]; [contradiction|]. intros _.
  destruct s as [|a' s']; [eexists; reflexivity|].
  destruct IH as [b Hb]; [discriminate|]. exists b. exact Hb.
Qed.

Lemma segment_ends_ok s : segment_ok s -> ends_ok s.
Proof.
  intros [Hne Hs]. destruct (last_is_some s Hne) as [b Hb].
  destruct s as [|a s]; [contradiction|].
  exists a, b. split; [reflexivity|]. split; [exact Hb|].
  split; [apply (no_slash_cons _ _ Hs)|apply (last_no_slash _ _ Hs Hb)].
Qed.

Lemma join_nonempty l :
  Forall segment_ok l -> l <> [] -> join "/" l <> EmptyString.
Proof.
  destruct 1 as [|x l [Hx _] Hl]; [contradiction|]. intros _.
  destruct l as [|y l]; [exact Hx|].
  rewrite join_cons. destruct x; [contradiction|discriminate].
Qed.

Lemma join_ends_ok l :
  Forall segment_ok l -> l <> [] -> ends_ok (join "/" l).
Proof.
  induction 1 as [|x l Hx Hl IH]; [contradiction|]. intros _.
  destruct l as [|y l]; [apply segment_ends_ok, Hx|].
  destruct (segment_ends_ok _ Hx) as (a & _ & Ha & _ & Hane & _).
  destruct IH as (_ & b & _ & Hb & _ & Hbne); [discriminate|].
  exists a, b. rewrite join_cons.
  split; [rewrite first_app; [exact Ha|apply Hx]|].
  split; [|auto].
  rewrite last_app by discriminate.
  change ("/" +:+ join "/" (y :: l)) with (String "/" (join "/" (y :: l))).
  rewrite last_cons; [exact Hb|].
  apply join_nonempty; [exact Hl|discriminate].
Qed.

Lemma ends_ok_run {S} s (st : S) :
  ends_ok s -> nonempty_no_slash_ends s st = (st, inr tt).
Proof.
  intros (a & b & Ha & Hb & Hane & Hbne). unfold nonempty_no_slash_ends.
  rewrite Ha, Hb.
  destruct (Ascii.eqb_spec a "/"); [contradiction|].
  destruct (Ascii.eqb_spec b "/"); [contradiction|]. reflexivity.
Qed.

(** *** The canonical path *)

Lemma take_line_idem s : take_line (take_line s) = take_line s.
Proof.
  induction s as [|a s IH]; [reflexivity|]. simpl.
  destruct (Ascii.eqb a newline) eqn:E; [reflexivity|].
  simpl. rewrite E, IH. reflexivity.
Qed.

Lemma strip_idem r :
  take_line (drop_digits (take_line (drop_digits r)))
  = take_line (drop_digits r).
Proof.
  induction r as [|a r IH]; [reflexivity|]. simpl.
  destruct (is_digit a) eqn:Ed; [exact IH|]. simpl.
  destruct (Ascii.eqb a newline) eqn:En; [reflexivity|].
  simpl. rewrite Ed. simpl. rewrite En, take_line_idem. reflexivity.
Qed.

Lemma canonical_idem p : canonical (canonical p) = canonical p.
Proof.
  unfold canonical at 2 3.
  destruct (startswith p "/photon_data") eqn:E.
  - unfold canonical. unfold startswith at 1. rewrite prefix_app.
    f_equal.
    change (drop 12 ("/photon_data" +:+ take_line (drop_digits (drop 12 p))))
      with (take_line (drop_digits (drop 12 p))).
    apply strip_idem.
  - unfold canonical. rewrite E. reflexivity.
Qed.

Lemma strip_digits_canonical {S} p (s : S) :
  startswith p "/photon_data" = true ->
  strip_digits p s = (s, inr (canonical p)).
Proof.
  intros E. unfold strip_digits, match_photon_data, canonical.
  rewrite E. reflexivity.
Qed.

(** *** [_analyze_path] on well-formed segments *)

Lemma last_fmap_snoc {A} (l : list A) x :
  List.last (Some <$> (l ++ [x])) None = Some x.
Proof. rewrite fmap_app. apply List.last_last. Qed.

Lemma analyze_path_wellformed {St} name prefix_list (s : St) :
  Forall segment_ok (ancestors prefix_list ++ [name]) ->
  _analyze_path name prefix_list s
  = (s, inr (canonical (full_path_of name prefix_list),
             startswith (full_path_of name prefix_list) "/photon_data"
             && (length (ancestors prefix_list) =? 1)%nat
             && negb (endswith name "_specs"),
             bool_decide ("user" ∈ ancestors prefix_list ++ [name]))).
Proof.
  intros Hok. set (pl := ancestors prefix_list) in *.
  assert (Hname : segment_ok name).
  { apply Forall_app in Hok as [_ H]. inversion H; assumption. }
  assert (Hpl : Forall segment_ok pl).
  { apply Forall_app in Hok as [H _]. exact H. }
  unfold _analyze_path.
  step (ends_ok_run (S:=St) name s (segment_ends_ok _ Hname)).
  assert (Hfull :
    (match prefix_list with
     | Some ((_ :: _) as pl0) =>
         nonempty_no_slash_ends (join "/" pl0) ;;;
         ret ("/" +:+ join "/" pl0 +:+ "/" +:+ name)
     | _ => ret ("/" +:+ name)
     end) s = (s, inr (full_path_of name prefix_list))).
  { unfold full_path_of. fold pl.
    destruct prefix_list as [[|x l]|]; try reflexivity.
    simpl in pl.
    step (ends_ok_run (S:=St) _ s
            (join_ends_ok (x :: l) Hpl ltac:(discriminate))).
    unfold ret. subst pl. rewrite join_snoc by discriminate. reflexivity. }
  step Hfull. clear Hfull.
  assert (Hchunks : split "/" (full_path_of name prefix_list)
                    = EmptyString :: pl ++ [name]).
  { unfold full_path_of. fold pl. apply split_full_path; [exact Hok|].
    destruct pl; discriminate. }
  cbv zeta. rewrite Hchunks.
  assert (Hlen : (2 <=? length (EmptyString :: pl ++ [name]))%nat = true).
  { apply Nat.leb_le. simpl. rewrite length_app. simpl. lia. }
  rewrite Hlen. unfold assert at 1. unfold bind at 1. unfold ret at 1.
  cbv beta iota.
  assert (Hlast : bool_decide
            (Some name
             = List.last (Some <$> (EmptyString :: pl ++ [name])) None)
          = true).
  { apply bool_decide_eq_true.
    change (EmptyString :: pl ++ [name]) with ((EmptyString :: pl) ++ [name]).
    rewrite last_fmap_snoc. reflexivity. }
  rewrite Hlast. unfold assert at 1. unfold bind at 1. unfold ret at 1.
  cbv beta iota.
  assert (Huser : bool_decide ("user" ∈ EmptyString :: pl ++ [name])
                  = bool_decide ("user" ∈ pl ++ [name])).
  { apply bool_decide_ext. rewrite elem_of_cons. split; [|auto].
    intros [H|H]; [discriminate H|exact H]. }
  rewrite Huser.
  assert (Hl3 : (length (EmptyString :: pl ++ [name]) =? 3)%nat
                = (length pl =? 1)%nat).
  { simpl. rewrite length_app. simpl.
    replace (length pl + 1)%nat with (S (length pl)) by lia. reflexivity. }
  rewrite Hl3.
  destruct (startswith (full_path_of name prefix_list) "/photon_data") eqn:E.
  - step (strip_digits_canonical (S:=St) _ s E). reflexivity.
  - unfold canonical. rewrite E. reflexivity.
Qed.

(** Whatever the arguments, a meta path that is returned is canonical. *)
Lemma analyze_path_returns_canonical {S} name prefix_list (s s' : S) mp a b :
  _analyze_path name prefix_list s = (s', inr (mp, a, b)) ->
  canonical mp = mp.
Proof.
  unfold _analyze_path, bind.
  destruct (nonempty_no_slash_ends name s) as [s1 [e|[]]]; [discriminate|].
  match goal with
  | |- context [match ?m s1 with _ => _ end] =>
      destruct (m s1) as [s2 [e|full]]; [discriminate|]
  end.
  destruct (assert _ s2) as [s3 [e|[]]]; [discriminate|].
  destruct (assert _ s3) as [s4 [e|[]]]; [discriminate|].
  destruct (startswith full "/photon_data") eqn:E.
  - rewrite (strip_digits_canonical _ s4 E). intros [= <- <- <- <-].
    apply canonical_idem.
  - intros [= <- <- <- <-]. unfold canonical. rewrite E. reflexivity.
Qed.

End PathFacts.

(** ** The path theorems *)

Section PathTheorems.

Import PyStr Path PathSpec PathFacts H5 Tree TreeFacts.

Lemma find_pathname segs : forall p n p' n',
  find segs (ONode p n) = Some (ONode p' n') -> p' = pathname_from p segs.
Proof.
  induction segs as [|x segs IH]; intros p n p' n'.
  - intros [= <- <-]. reflexivity.
  - cbn [find]. destruct (child x (ONode p n)) as [c|] eqn:E; [|discriminate].
    destruct n as [v|cs]; [discriminate|]. unfold child in E.
    destruct (assoc x cs) as [cn|]; [|discriminate]. injection E as <-.
    intros H. apply IH in H. exact H.
Qed.

Lemma join_path_keeps_user p x :
  contains "/user" p = true -> contains "/user" (join_path p x) = true.
Proof.
  intros H. unfold join_path. destruct (String.eqb_spec p "/") as [->|_].
  - discriminate H.
  - apply contains_app_l, H.
Qed.

Lemma join_path_user p : contains "/user" (join_path p "user") = true.
Proof.
  unfold join_path. destruct (String.eqb p "/"); [reflexivity|].
  apply contains_app_r. reflexivity.
Qed.

Lemma pathname_keeps_user segs : forall p,
  contains "/user" p = true -> contains "/user" (pathname_from p segs) = true.
Proof.
  induction segs as [|x segs IH]; intros p H; [exact H|].
  apply (IH (join_path p x)), join_path_keeps_user, H.
Qed.

Lemma pathname_with_user segs : forall p,
  "user" ∈ segs -> contains "/user" (pathname_from p segs) = true.
Proof.
  induction segs as [|x segs IH]; intros p H.
  - apply elem_of_nil in H. contradiction.
  - apply elem_of_cons in H as [<-|H].
    + apply (pathname_keeps_user segs (join_path p "user")), join_path_user.
    + apply (IH (join_path p x)), H.
Qed.


(** C6 (amended).  For each of the four suffixes, the name [timestamps]
    under the one ancestor [photon_data] followed by the suffix has the
    meta path [/photon_data/timestamps]; and a meta path that
    [_analyze_path] has returned, given back as well-formed segments, comes
    out unchanged. *)
Theorem C6_suffixes_stripped_and_canonical_fixed :
  (forall (St : Type) (s : St) n,
     n ∈ [EmptyString; "0"; "1"; "42"] ->
     _analyze_path "timestamps" (Some ["photon_data" +:+ n]) s
     = (s, inr ("/photon_data/timestamps", true, false))) /\
  (forall (St : Type) (s s0 s0' : St) name prefix_list name0 prefix_list0
          meta_path is_phdata is_user,
     _analyze_path name0 prefix_list0 s0
     = (s0', inr (meta_path, is_phdata, is_user)) ->
     Forall segment_ok (ancestors prefix_list ++ [name]) ->
     full_path_of name prefix_list = meta_path ->
     exists is_phdata' is_user',
       _analyze_path name prefix_list s
       = (s, inr (meta_path, is_phdata', is_user'))).
Proof.
  split.
  - intros St s n Hn. rewrite !elem_of_cons, elem_of_nil in Hn.
    destruct Hn as [->|[->|[->|[->|[]]]]]; vm_compute; reflexivity.
  - intros St s s0 s0' name prefix_list name0 prefix_list0 mp a b H0 Hok Hf.
    rewrite (analyze_path_wellformed name prefix_list s Hok), Hf.
    rewrite (analyze_path_returns_canonical _ _ _ _ _ _ _ H0). eauto.
Qed.

End PathTheorems.

(** C6, as stated, fails: a name with a separator in it does not pass the
    assertion that the name is the last chunk of the full path. *)
Lemma C6_counterexample :
  Path._analyze_path "photon_data0/timestamps" (Some []) tt
  = (tt, inl AssertionError) /\
  ~ (forall n, n ∈ [EmptyString; "0"; "1"; "42"] ->
     exists is_phdata is_user,
       Path._analyze_path ("photon_data" +:+ n +:+ "/timestamps") (Some []) tt
       = (tt, inr ("/photon_data/timestamps", is_phdata, is_user))).
Proof.
  split; [vm_compute; reflexivity|].
  intros H. destruct (H "0") as (a & b & E).
  - rewrite !elem_of_cons. auto.
  - vm_compute in E. discriminate E.
Qed.

Lemma C6_witness :
  Path._analyze_path "timestamps" (Some ["photon_data42"]) tt
  = (tt, inr ("/photon_data/timestamps", true, false)) /\
  exists is_phdata' is_user',
    Path._analyze_path "timestamps" (Some ["photon_data"]) tt
    = (tt, inr ("/photon_data/timestamps", is_phdata', is_user')).
Proof.
  split.
  - apply (proj1 C6_suffixes_stripped_and_canonical_fixed unit tt "42").
    rewrite !elem_of_cons. auto.
  - apply (proj2 C6_suffixes_stripped_and_canonical_fixed unit tt tt tt
             "timestamps" (Some ["photon_data"])
             "timestamps" (Some ["photon_data42"])
             "/photon_data/timestamps" true false).
    + vm_compute. reflexivity.
    + repeat constructor; discriminate.
    + reflexivity.
Defined.


(** ** What a save does *)

Module SaveFacts.
Import PyStr Path Save.

Section Operation.

Variable official_fields_descr : gmap string string.
Variable __version__ : string.
Variable splitext : string -> string * string.
Variable abspath : string -> string.
Variable basename : string -> string.
Variable now : string.
Variable ctime_of : string -> string.
Variable mtime_of : string -> string.

Local Abbreviation file_metadata :=
  (Save.file_metadata abspath basename ctime_of mtime_of).
Local Abbreviation get_file_metadata :=
  (Save.get_file_metadata abspath basename ctime_of mtime_of).
Local Abbreviation add_provenance_metadata :=
  (Save.add_provenance_metadata abspath basename ctime_of mtime_of).
Local Abbreviation fields_descr_of :=
  (Save.fields_descr_of official_fields_descr).
Local Abbreviation identity_of :=
  (Save.identity_of __version__ abspath basename now).
Local Abbreviation save_to :=
  (Save.save_to official_fields_descr __version__ abspath basename now
     ctime_of mtime_of).
Local Abbreviation save_photon_hdf5 :=
  (Save.save_photon_hdf5 official_fields_descr __version__ splitext abspath
     basename now ctime_of mtime_of).

(** *** What a save does to the dictionaries *)

Lemma heap_const_ret {A} (a : A) : heap_const (ret a).
Proof. intros w w' r [= <- _]. reflexivity. Qed.

Lemma heap_const_raise {A} e : heap_const (A:=A) (raise e).
Proof. intros w w' r [= <- _]. reflexivity. Qed.

Lemma heap_const_bind {A B} (m : Py world A) (k : A -> Py world B) :
  heap_const m -> (forall a, heap_const (k a)) -> heap_const (bind m k).
Proof.
  intros Hm Hk w w' r. unfold bind.
  destruct (m w) as [w1 [e|a]] eqn:E.
  - intros [= <- _]. eapply Hm, E.
  - intros H. rewrite (Hk _ _ _ _ H). eapply Hm, E.
Qed.

Lemma heap_const_for_each {A} (l : list A) (body : A -> Py world unit) :
  (forall x, heap_const (body x)) -> heap_const (for_each l body).
Proof.
  intros Hb. induction l as [|x l IH]; simpl.
  - apply heap_const_ret.
  - apply heap_const_bind; auto.
Qed.

Lemma heap_const_say line : heap_const (say line).
Proof. intros w w' r [= <- _]. reflexivity. Qed.

Lemma heap_const_emit op : heap_const (emit op).
Proof. intros w w' r [= <- _]. reflexivity. Qed.

Lemma heap_const_deref l : heap_const (deref l).
Proof.
  intros w w' r. unfold deref. destruct (heap w !! l); intros [= <- _];
    reflexivity.
Qed.

Lemma analyze_path_pure {St} name prefix_list (s s' : St) r :
  _analyze_path name prefix_list s = (s', r) -> s' = s.
Proof.
  unfold _analyze_path, bind, nonempty_no_slash_ends, assert, strip_digits,
    ret, raise.
  repeat (case_match; simplify_eq; try reflexivity); congruence.
Qed.

Lemma heap_const_analyze name prefix_list :
  heap_const (_analyze_path name prefix_list).
Proof. intros w w' r H. apply analyze_path_pure in H. now subst. Qed.

Lemma save_dict_heap_const depth : forall group data_dict fields_descr
    prefix_list,
  heap_const (_save_photon_hdf5_dict depth group data_dict fields_descr
                prefix_list).
Proof.
  induction depth as [|depth IH]; intros group l fd pl; simpl.
  - apply heap_const_raise.
  - apply heap_const_bind.
    + unfold dict_items. apply heap_const_bind; [apply heap_const_deref|].
      intros d. apply heap_const_ret.
    + intros items. apply heap_const_for_each. intros [name value]. simpl.
      apply heap_const_bind; [apply heap_const_analyze|]. intros analysis.
      apply heap_const_bind.
      * destruct (_ && _); [apply heap_const_say|apply heap_const_ret].
      * intros _. destruct value; try apply heap_const_emit.
        apply heap_const_bind; [apply heap_const_emit|]. intros _. apply IH.
Qed.

Lemma deref_run l d w : heap w !! l = Some d -> deref l w = (w, inr d).
Proof. unfold deref. intros ->. reflexivity. Qed.

Lemma dict_pop_run l k d v w :
  heap w !! l = Some d -> d !! k = Some v ->
  dict_pop l k w = (set_heap (<[l := delete k d]> (heap w)) w, inr v).
Proof.
  intros Hl Hk. unfold dict_pop. step (deref_run _ _ _ Hl). rewrite Hk.
  reflexivity.
Qed.

Lemma dict_copy_run l d w :
  heap w !! l = Some d ->
  dict_copy l w
  = (set_heap (<[fresh (dom (heap w)) := d]> (heap w)) w,
     inr (fresh (dom (heap w)))).
Proof. intros Hl. unfold dict_copy. step (deref_run _ _ _ Hl). reflexivity. Qed.

Lemma dict_update_run l d u w :
  heap w !! l = Some d ->
  dict_update l u w = (set_heap (<[l := u ∪ d]> (heap w)) w, inr tt).
Proof.
  intros Hl. unfold dict_update. step (deref_run _ _ _ Hl). reflexivity.
Qed.

Lemma dict_set_run l d k v w :
  heap w !! l = Some d ->
  dict_set l k v w = (set_heap (<[l := <[k := v]> d]> (heap w)) w, inr tt).
Proof. intros Hl. unfold dict_set. step (deref_run _ _ _ Hl). reflexivity. Qed.

Lemma dict_get_run l d k v w :
  heap w !! l = Some d -> d !! k = Some v -> dict_get l k w = (w, inr v).
Proof.
  intros Hl Hk. unfold dict_get. step (deref_run _ _ _ Hl). rewrite Hk.
  reflexivity.
Qed.

Lemma dict_contains_run l d k w :
  heap w !! l = Some d ->
  dict_contains l k w = (w, inr (bool_decide (is_Some (d !! k)))).
Proof.
  intros Hl. unfold dict_contains. step (deref_run _ _ _ Hl). reflexivity.
Qed.

(** The provenance block changes the heap, if at all, at the dictionary
    that the key [provenance] refers to, by an update. *)
Lemma add_provenance_effect data_dict w w' r :
  add_provenance_metadata data_dict w = (w', r) ->
  files w' = files w /\
  (heap w' = heap w \/
   exists dc lp dp meta,
     heap w !! data_dict = Some dc /\
     dc !! "provenance" = Some (VDict lp) /\
     heap w !! lp = Some dp /\
     heap w' = <[lp := meta ∪ dp]> (heap w)).
Proof.
  unfold add_provenance_metadata, dict_contains, dict_get, dict_update,
    get_file_metadata, as_dict, as_str, isfile, deref, store, say, assert,
    bind, ret, raise.
  intros H.
  repeat (case_match; simplify_eq; simpl in *; try (split; [reflexivity|]);
          try (left; reflexivity)).
  all: try (right; eauto 10).
Qed.

(** When the file that [provenance] names is there, the block merges its
    metadata into the dictionary [provenance] refers to. *)
Lemma add_provenance_found data_dict dc lp dp pf w :
  heap w !! data_dict = Some dc ->
  dc !! "provenance" = Some (VDict lp) ->
  heap w !! lp = Some dp ->
  dp !! "filename" = Some (VStr pf) ->
  pf ∈ files w ->
  add_provenance_metadata data_dict w
  = (set_heap (<[lp := file_metadata pf ∪ dp]> (heap w)) w, inr tt).
Proof.
  intros Hd Hp Hlp Hf Hin. unfold add_provenance_metadata.
  step (dict_contains_run _ _ "provenance" _ Hd).
  rewrite Hp. rewrite bool_decide_eq_true_2 by eauto.
  step (dict_get_run _ _ _ _ _ Hd Hp).
  unfold as_dict at 1. unfold bind at 1. unfold ret at 1. cbv beta iota.
  step (dict_get_run _ _ _ _ _ Hlp Hf).
  unfold as_str at 1. unfold bind at 1. unfold ret at 1. cbv beta iota.
  unfold isfile at 1. unfold bind at 1. cbv beta iota.
  rewrite (bool_decide_eq_true_2 _ Hin).
  unfold bind at 1. unfold ret at 1. cbv beta iota.
  unfold get_file_metadata, isfile. unfold bind at 1. unfold bind at 1.
  cbv beta iota. rewrite (bool_decide_eq_true_2 _ Hin).
  unfold assert, ret. unfold bind at 1. cbv beta iota.
  apply dict_update_run, Hlp.
Qed.

(** The effect of [save_to] on the dictionary it is given, on the copy it
    makes and on the dictionary [provenance] refers to. *)
Lemma save_to_effect depth data_dict fname user_descr d0 w w' r :
  heap w !! data_dict = Some d0 ->
  (forall lp, d0 !! "provenance" = Some (VDict lp) ->
              lp <> data_dict /\ is_Some (heap w !! lp)) ->
  is_Some (official_fields_descr !! "/") ->
  save_to depth data_dict fname user_descr w = (w', r) ->
  heap w' !! data_dict = Some (<["data_file" := VFile fname]> d0) /\
  (r = inr tt ->
   exists identity,
     heap w' !! fresh (dom (heap w))
     = Some (<["identity" := VDict identity]> d0) /\
     heap w' !! identity = Some (identity_of fname)) /\
  (forall lp dp pf,
     d0 !! "provenance" = Some (VDict lp) ->
     heap w !! lp = Some dp ->
     dp !! "filename" = Some (VStr pf) ->
     pf ∈ files w ->
     heap w' !! lp = Some (file_metadata pf ∪ dp)).
Proof.
  intros Hd Hprov [title Htitle] Hrun. unfold save_to in Hrun.
  unfold bind at 1 in Hrun. unfold say at 1 in Hrun. cbv beta iota in Hrun.
  rewrite Htitle in Hrun.
  unfold bind at 1 in Hrun. unfold ret at 1 in Hrun. cbv beta iota in Hrun.
  unfold bind at 1 in Hrun. unfold open_file at 1 in Hrun.
  cbv beta iota in Hrun.
  match type of Hrun with
  | bind _ _ ?w1 = _ => set (wa := w1) in Hrun
  end.
  assert (Hda : heap wa !! data_dict = Some d0) by exact Hd.
  step_in Hrun (dict_copy_run _ _ wa Hda).
  set (copy := fresh (dom (heap w))).
  change (fresh (dom (heap wa))) with copy in Hrun.
  assert (Hcopy : heap w !! copy = None).
  { apply not_elem_of_dom. apply is_fresh. }
  assert (Hcd : copy <> data_dict) by congruence.
  match type of Hrun with
  | bind _ _ ?w1 = _ => set (wb := w1) in Hrun
  end.
  assert (Hdb : heap wb !! data_dict = Some d0).
  { subst wb. simpl. rewrite lookup_insert_ne by exact Hcd. exact Hd. }
  step_in Hrun (dict_update_run _ _ {["data_file" := VFile fname]} wb Hdb).
  match type of Hrun with
  | bind _ _ ?w1 = _ => set (wc := w1) in Hrun
  end.
  assert (Hwc : heap wc
                = <[data_dict := <["data_file" := VFile fname]> d0]>
                    (<[copy := d0]> (heap w))).
  { unfold wc, wb, wa. simpl.
    rewrite (insert_union_singleton_l d0 "data_file"). reflexivity. }
  assert (Hfc : files wc = {[fname]} ∪ files w) by reflexivity.
  clearbody wc. clear Hda Hdb. clear wb. clear wa.
  assert (Hc1 : heap wc !! data_dict
                = Some (<["data_file" := VFile fname]> d0)).
  { rewrite Hwc. apply lookup_insert_eq. }
  assert (Hc2 : heap wc !! copy = Some d0).
  { rewrite Hwc, lookup_insert_ne by congruence. apply lookup_insert_eq. }
  assert (Hc3 : forall l, l <> data_dict -> l <> copy ->
                          heap wc !! l = heap w !! l).
  { intros l H1 H2. rewrite Hwc, !lookup_insert_ne by congruence.
    reflexivity. }
  assert (Hlp : forall lp, d0 !! "provenance" = Some (VDict lp) ->
                           lp <> data_dict /\ lp <> copy).
  { intros lp H. destruct (Hprov lp H) as [H1 [x Hx]]. split; [exact H1|].
    congruence. }
  destruct (add_provenance_metadata copy wc) as [w2 r2] eqn:Eapm.
  assert (F1 : heap w2 !! data_dict
               = Some (<["data_file" := VFile fname]> d0)).
  { destruct (add_provenance_effect _ _ _ _ Eapm) as [_ [->|H]]; [exact Hc1|].
    destruct H as (dc & lp & dp & meta & H1 & H2 & _ & ->).
    rewrite Hc2 in H1. injection H1 as <-.
    rewrite lookup_insert_ne; [exact Hc1|]. apply (Hlp lp H2). }
  assert (F2 : heap w2 !! copy = Some d0).
  { destruct (add_provenance_effect _ _ _ _ Eapm) as [_ [->|H]]; [exact Hc2|].
    destruct H as (dc & lp & dp & meta & H1 & H2 & _ & ->).
    rewrite Hc2 in H1. injection H1 as <-.
    rewrite lookup_insert_ne; [exact Hc2|]. apply (Hlp lp H2). }
  assert (F3 : forall lp dp pf,
             d0 !! "provenance" = Some (VDict lp) ->
             heap w !! lp = Some dp ->
             dp !! "filename" = Some (VStr pf) ->
             pf ∈ files w ->
             r2 = inr tt /\ heap w2 !! lp = Some (file_metadata pf ∪ dp)).
  { intros lp dp pf H1 H2 H3 H4. destruct (Hlp lp H1) as [Hn1 Hn2].
    assert (Hl : heap wc !! lp = Some dp) by (rewrite Hc3; assumption).
    assert (Hf : pf ∈ files wc).
    { rewrite Hfc. apply elem_of_union_r. exact H4. }
    rewrite (add_provenance_found _ _ _ _ _ _ Hc2 H1 Hl H3 Hf) in Eapm.
    injection Eapm as Hw Hr. split; [symmetry; exact Hr|].
    rewrite <- Hw. simpl. apply lookup_insert_eq. }
  unfold bind at 1 in Hrun. rewrite Eapm in Hrun.
  destruct r2 as [e2|[]].
  { injection Hrun as <- <-. split; [exact F1|]. split; [discriminate|].
    intros lp dp pf H1 H2 H3 H4.
    destruct (F3 lp dp pf H1 H2 H3 H4) as [H _]. discriminate H. }
  unfold bind at 1 in Hrun. unfold new_dict at 1 in Hrun.
  cbv beta iota zeta in Hrun.
  set (identity := fresh (dom (heap w2))) in Hrun.
  assert (Hid : heap w2 !! identity = None).
  { apply not_elem_of_dom. apply is_fresh. }
  match type of Hrun with
  | bind _ _ ?w1 = _ => set (w3 := w1) in Hrun
  end.
  assert (H3c : heap w3 !! copy = Some d0).
  { unfold w3. simpl. rewrite lookup_insert_ne by congruence. exact F2. }
  step_in Hrun (dict_set_run _ _ "identity" (VDict identity) w3 H3c).
  match type of Hrun with
  | bind _ _ ?w1 = _ => set (w4 := w1) in Hrun
  end.
  assert (Hw4 : heap w4
                = <[copy := <["identity" := VDict identity]> d0]>
                    (<[identity := identity_of fname]> (heap w2)))
    by reflexivity.
  clearbody w4. clear H3c. clear w3.
  unfold bind at 1 in Hrun.
  destruct (_save_photon_hdf5_dict depth "/" copy
              (fields_descr_of user_descr) None w4) as [w5 r5] eqn:Esave.
  pose proof (save_dict_heap_const _ _ _ _ _ _ _ _ Esave) as Hw5.
  assert (Hfinal : heap w' = heap w4 /\ (r = inr tt \/ exists e, r = inl e)).
  { destruct r5 as [e5|[]].
    - injection Hrun as <- <-. split; [exact Hw5|]. right. eauto.
    - injection Hrun as <- <-. split; [exact Hw5|]. left. reflexivity. }
  destruct Hfinal as [Hh _]. rewrite Hh, Hw4.
  split; [|split].
  - rewrite !lookup_insert_ne by congruence. exact F1.
  - intros _. exists identity. split; [apply lookup_insert_eq|].
    rewrite lookup_insert_ne by congruence. apply lookup_insert_eq.
  - intros lp dp pf H1 H2 H3 H4.
    destruct (F3 lp dp pf H1 H2 H3 H4) as [_ H].
    destruct (Hlp lp H1) as [_ Hn2].
    rewrite !lookup_insert_ne by congruence. exact H.
Qed.

(** C10 (amended).  Take a call that gets as far as opening the output
    file: a name is given, or the dictionary has a string under [filename]
    and the compression names a library; the official table has a title.
    Whatever happens afterwards, the caller's dictionary is left with the
    key [data_file] added and, when no name was given, the key [filename]
    removed, and nothing else changed at its top level.  When the call
    returns, the copy the function worked on holds the entry [identity] for
    a new dictionary with the identity fields.  The copy is one level deep:
    when the file named by [provenance] exists, the file metadata is merged
    into the dictionary that the caller's [provenance] entry refers to. *)
Theorem C10_caller_dict_after_save depth data_dict compression h5_fname
    user_descr d w w' r :
  heap w !! data_dict = Some d ->
  (forall lp, d !! "provenance" = Some (VDict lp) ->
              lp <> data_dict /\ is_Some (heap w !! lp)) ->
  (h5_fname = None ->
   exists fn, d !! "filename" = Some (VStr fn) /\
              is_Some (compression !! "complib")) ->
  is_Some (official_fields_descr !! "/") ->
  save_photon_hdf5 depth data_dict compression h5_fname user_descr w
  = (w', r) ->
  let d0 := match h5_fname with
            | None => delete "filename" d
            | Some _ => d
            end in
  let copy := fresh (dom (heap w)) in
  exists fname,
    heap w' !! data_dict = Some (<["data_file" := VFile fname]> d0) /\
    (r = inr tt ->
     exists identity,
       heap w' !! copy = Some (<["identity" := VDict identity]> d0) /\
       heap w' !! identity = Some (identity_of fname)) /\
    (forall lp dp pf,
       d !! "provenance" = Some (VDict lp) ->
       heap w !! lp = Some dp ->
       dp !! "filename" = Some (VStr pf) ->
       pf ∈ files w ->
       heap w' !! lp = Some (file_metadata pf ∪ dp)).
Proof.
  intros Hd Hprov Hname Htitle Hrun d0 copy.
  unfold save_photon_hdf5 in Hrun.
  destruct h5_fname as [f|].
  - unfold bind at 1 in Hrun. unfold ret at 1 in Hrun. cbv beta iota in Hrun.
    unfold bind at 1 in Hrun. unfold isfile at 1 in Hrun.
    cbv beta iota zeta in Hrun.
    eexists. exact (save_to_effect _ _ _ _ _ _ _ _ Hd Hprov Htitle Hrun).
  - destruct (Hname eq_refl) as (fn & Hfn & [lib Hlib]).
    unfold bind at 1 in Hrun.
    rewrite (bind_returns _ _ _ _ _ (dict_pop_run _ _ _ _ _ Hd Hfn)) in Hrun.
    unfold as_str at 1 in Hrun. unfold bind at 1 in Hrun.
    unfold ret at 1 in Hrun. cbv beta iota zeta in Hrun.
    rewrite Hlib in Hrun. unfold bind at 1 in Hrun. unfold ret at 1 2 in Hrun.
    cbv beta iota in Hrun.
    unfold bind at 1 in Hrun. unfold isfile at 1 in Hrun.
    cbv beta iota zeta in Hrun.
    match type of Hrun with
    | save_to _ _ ?name _ ?w1 = _ =>
        set (fname := name) in Hrun; set (wa := w1) in Hrun
    end.
    assert (Hda : heap wa !! data_dict = Some d0).
    { unfold wa. simpl. apply lookup_insert_eq. }
    assert (Hdom : dom (heap wa) = dom (heap w)).
    { unfold wa. simpl. apply dom_insert_lookup_L. eauto. }
    assert (Hne : forall l, l <> data_dict -> heap wa !! l = heap w !! l).
    { intros l Hl. unfold wa. simpl. apply lookup_insert_ne. congruence. }
    assert (Hfa : files wa = files w) by reflexivity.
    assert (Hpa : forall lp, d0 !! "provenance" = Some (VDict lp) ->
                             lp <> data_dict /\ is_Some (heap wa !! lp)).
    { intros lp H. unfold d0 in H. rewrite lookup_delete_ne in H by done.
      destruct (Hprov lp H) as [H1 H2]. split; [exact H1|].
      rewrite Hne; assumption. }
    destruct (save_to_effect _ _ _ _ _ _ _ _ Hda Hpa Htitle Hrun)
      as (E1 & E2 & E3).
    exists fname. split; [exact E1|]. split.
    + intros Hr. unfold copy. rewrite <- Hdom. exact (E2 Hr).
    + intros lp dp pf H1 H2 H3 H4. apply E3.
      * unfold d0. rewrite lookup_delete_ne by done. exact H1.
      * rewrite Hne; [exact H2|]. apply (Hprov lp H1).
      * exact H3.
      * rewrite Hfa. exact H4.
Qed.

End Operation.

End SaveFacts.

(** C10, as stated, fails: the modification time of the original file is
    written to disk, and it is added to a dictionary of the caller, the one
    under [provenance], which did not have it. *)
Lemma C10_counterexample :
  SampleSave.entry SampleSave.before 1%positive "provenance"
  = Some (Save.VDict 2%positive) /\
  SampleSave.entry SampleSave.before 2%positive "modification_time" = None /\
  SampleSave.entry SampleSave.after 1%positive "provenance"
  = Some (Save.VDict 2%positive) /\
  SampleSave.entry SampleSave.after 2%positive "modification_time"
  = Some (Save.VStr "2015-05-31 10:00:00") /\
  SampleSave.written
    (Save.CreateArray false "/provenance" "modification_time"
       (Save.VBytes "2015-05-31 10:00:00") EmptyString)
    SampleSave.after = true.
Proof. repeat split; vm_compute; reflexivity. Qed.

Lemma C10_witness :
  exists fname,
    Save.heap SampleSave.after !! 1%positive
    = Some (<["data_file" := Save.VFile fname]>
              (delete "filename" SampleSave.caller_dict)) /\
    (snd SampleSave.outcome = inr tt ->
     exists identity,
       Save.heap SampleSave.after
       !! fresh (dom (Save.heap SampleSave.before))
       = Some (<["identity" := Save.VDict identity]>
                 (delete "filename" SampleSave.caller_dict)) /\
       Save.heap SampleSave.after !! identity
       = Some (Save.identity_of "0.4.0" SampleSave.abspath
                 SampleSave.basename "2015-06-01 12:00:00" fname)) /\
    (forall lp dp pf,
       SampleSave.caller_dict !! "provenance" = Some (Save.VDict lp) ->
       Save.heap SampleSave.before !! lp = Some dp ->
       dp !! "filename" = Some (Save.VStr pf) ->
       pf ∈ Save.files SampleSave.before ->
       Save.heap SampleSave.after !! lp
       = Some (Save.file_metadata SampleSave.abspath SampleSave.basename
                 (fun _ => "2015-05-30 09:00:00")
                 (fun _ => "2015-05-31 10:00:00") pf ∪ dp)).
Proof.
  apply (SaveFacts.C10_caller_dict_after_save Sample.descr "0.4.0"
           SampleSave.splitext SampleSave.abspath SampleSave.basename
           "2015-06-01 12:00:00" (fun _ => "2015-05-30 09:00:00")
           (fun _ => "2015-05-31 10:00:00")
           100 1%positive SampleSave.compression None None
           SampleSave.caller_dict SampleSave.before SampleSave.after
           (snd SampleSave.outcome)).
  - vm_compute. reflexivity.
  - intros lp H. vm_compute in H. injection H as <-. split; [discriminate|].
    exists SampleSave.provenance_dict. vm_compute. reflexivity.
  - intros _. exists "run1.spc". split; [vm_compute; reflexivity|].
    exists (Save.VStr "zlib"). vm_compute. reflexivity.
  - exists "a documented field". vm_compute. reflexivity.
  - vm_compute. reflexivity.
Defined.

(** ** More on [_analyze_path] *)

Module PathCases.
Import PyStr Path PathSpec PathFacts.

Lemma contains_sep_cons a s :
  contains "/" (String a s)
  = if Ascii.eqb a "/" then true else contains "/" s.
Proof.
  rewrite contains_cons, prefix_cons, prefix_nil.
  destruct (ascii_dec "/" a) as [<-|Hne]; [reflexivity|].
  destruct (Ascii.eqb_spec a "/"); [congruence|reflexivity].
Qed.

(** No chunk of a split holds the separator. *)
Lemma split_chunks_no_sep s :
  Forall (fun x => contains "/" x = false) (split "/" s).
Proof.
  induction s as [|a s IH]; [repeat constructor|].
  rewrite split_cons. destruct (Ascii.eqb a "/") eqn:E.
  - constructor; [reflexivity|exact IH].
  - destruct (split "/" s) as [|h t].
    + constructor; [|constructor]. rewrite contains_sep_cons, E. reflexivity.
    + inversion IH as [|? ? Hh Ht]; subst. constructor; [|exact Ht].
      rewrite contains_sep_cons, E. exact Hh.
Qed.

Lemma last_some_in {A} (l : list A) x :
  List.last (Some <$> l) None = Some x -> x ∈ l.
Proof.
  induction l as [|a l IH]; [discriminate|].
  destruct l as [|b l].
  - simpl. intros [= ->]. left.
  - intros H. right. apply IH. exact H.
Qed.

Lemma last_app_nonempty {A} (l1 l2 : list A) d :
  l2 <> [] -> List.last (l1 ++ l2) d = List.last l2 d.
Proof.
  intros H. induction l1 as [|a l1 IH]; [reflexivity|].
  simpl. destruct (l1 ++ l2) eqn:E.
  - apply app_eq_nil in E as [_ E]. contradiction.
  - exact IH.
Qed.

(** The last chunk of a path that ends with a separator and [name] is
    [name] exactly when [name] has no separator. *)
Lemma last_chunk_is_name pre name :
  bool_decide
    (Some name
     = List.last (Some <$> split "/" (pre +:+ String "/" name)) None)
  = negb (contains "/" name).
Proof.
  rewrite split_app_sep, fmap_app.
  rewrite last_app_nonempty.
  2:{ intros H. apply fmap_nil_inv in H. exact (split_nonempty _ _ H). }
  destruct (contains "/" name) eqn:E.
  - apply bool_decide_eq_false_2. intros H. symmetry in H.
    apply last_some_in in H.
    pose proof (split_chunks_no_sep name) as Hall.
    rewrite Forall_forall in Hall.
    assert (Hc : contains "/" name = false).
    { apply Hall. first [exact H | apply list_elem_of_In; exact H]. }
    congruence.
  - apply bool_decide_eq_true_2. rewrite (split_no_slash _ E). reflexivity.
Qed.

Lemma length_split_sep pre name :
  (2 <=? length (split "/" (pre +:+ String "/" name)))%nat = true.
Proof.
  rewrite split_app_sep, length_app. apply Nat.leb_le.
  pose proof (split_nonempty "/" pre). pose proof (split_nonempty "/" name).
  destruct (split "/" pre); [contradiction|].
  destruct (split "/" name); [contradiction|]. simpl. lia.
Qed.

(** What the two assertions on the ends of a string decide. *)
Lemma ends_run {S} s (st : S) :
  (ends_ok s /\ nonempty_no_slash_ends s st = (st, inr tt)) \/
  (~ ends_ok s /\
   exists e, nonempty_no_slash_ends s st = (st, inl e) /\
             (e = IndexError \/ e = AssertionError)).
Proof.
  unfold nonempty_no_slash_ends.
  destruct (first s) as [a|] eqn:Ea.
  2:{ right. split.
      - intros (a & b & H & _). congruence.
      - eexists. split; [reflexivity|]. auto. }
  destruct (last s) as [b|] eqn:Eb.
  2:{ right. split.
      - intros (a' & b & _ & H & _). congruence.
      - eexists. split; [reflexivity|]. auto. }
  destruct (Ascii.eqb_spec a "/") as [->|Ha].
  { right. split.
    - intros (a' & b' & H1 & _ & H2 & _). congruence.
    - eexists. split; [reflexivity|]. auto. }
  destruct (Ascii.eqb_spec b "/") as [->|Hb].
  { right. split.
    - intros (a' & b' & _ & H1 & _ & H2). congruence.
    - eexists. split; [reflexivity|]. auto. }
  left. split; [|reflexivity]. exists a, b. auto.
Qed.

Lemma ends_ok_no_sep s : ends_ok s -> contains "/" s = false -> segment_ok s.
Proof.
  intros (a & b & Ha & _) H. split; [|exact H].
  intros ->. discriminate Ha.
Qed.

(** The full path the function builds, when the ancestors pass. *)
Lemma full_path_shape name prefix_list :
  exists pre, full_path_of name prefix_list = pre +:+ String "/" name.
Proof.
  unfold full_path_of.
  destruct (ancestors prefix_list) as [|x l].
  - exists EmptyString. reflexivity.
  - exists ("/" +:+ join "/" (x :: l)).
    rewrite join_snoc by discriminate. rewrite !app_assoc. reflexivity.
Qed.

(** What follows the construction of the full path. *)
Lemma analyze_tail {St} name prefix_list (s s' : St) r :
  ends_ok name ->
  ancestors prefix_list = [] \/ ends_ok (join "/" (ancestors prefix_list)) ->
  (full_path <- ret (full_path_of name prefix_list) ;;
   let chunks := split "/" full_path in
   assert (2 <=? length chunks)%nat ;;;
   assert (bool_decide (Some name = List.last (Some <$> chunks) None)) ;;;
   let is_user := bool_decide ("user" ∈ chunks) in
   if startswith full_path "/photon_data" then
     let is_phdata :=
       (length chunks =? 3)%nat && negb (endswith name "_specs") in
     meta_path <- strip_digits full_path ;;
     ret (meta_path, is_phdata, is_user)
   else ret (full_path, false, is_user)) s = (s', r) ->
  (analyzable name prefix_list /\
   exists is_phdata is_user,
     (s', r)
     = (s, inr (canonical (full_path_of name prefix_list),
                is_phdata, is_user))) \/
  (~ analyzable name prefix_list /\
   exists e, (s', r) = (s, inl e) /\
             (e = IndexError \/ e = AssertionError)).
Proof.
  intros Hn Hp E. unfold bind at 1 in E. unfold ret at 1 in E.
  cbv beta iota zeta in E.
  destruct (full_path_shape name prefix_list) as [pre Hpre].
  pose proof (length_split_sep pre name) as Hlen.
  pose proof (last_chunk_is_name pre name) as Hlast.
  rewrite <- Hpre in Hlen, Hlast. rewrite Hlen, Hlast in E. clear Hlen Hlast.
  unfold assert at 1 in E. unfold bind at 1 in E. unfold ret at 1 in E.
  cbv beta iota in E. unfold analyzable.
  destruct (contains "/" name) eqn:Ec.
  - cbn [negb] in E. unfold assert at 1 in E. unfold bind at 1 in E.
    unfold raise at 1 in E. injection E as <- <-.
    right. split.
    + intros [[_ H] _]. congruence.
    + exists AssertionError. split; [reflexivity|]. auto.
  - left. split; [split; [apply ends_ok_no_sep; assumption|exact Hp]|].
    cbn [negb] in E. unfold assert at 1 in E. unfold bind at 1 in E.
    unfold ret at 1 in E. cbv beta iota in E.
    destruct (startswith (full_path_of name prefix_list) "/photon_data") eqn:Es.
    + step_in E (strip_digits_canonical (S:=St) _ s Es).
      injection E as <- <-. eauto.
    + injection E as <- <-. unfold canonical. rewrite Es. eauto.
Qed.

Lemma analyze_path_cases {St} name prefix_list (s : St) :
  (analyzable name prefix_list /\
   exists is_phdata is_user,
     _analyze_path name prefix_list s
     = (s, inr (canonical (full_path_of name prefix_list),
                is_phdata, is_user))) \/
  (~ analyzable name prefix_list /\
   exists e, _analyze_path name prefix_list s = (s, inl e) /\
             (e = IndexError \/ e = AssertionError)).
Proof.
  destruct (_analyze_path name prefix_list s) as [s' r] eqn:E.
  unfold _analyze_path in E. unfold analyzable.
  destruct (ends_run name s) as [[Hn En]|[Hn (e & En & He)]].
  2:{ step_in E En. injection E as <- <-. right. split.
      - intros [Hs _]. apply Hn, segment_ends_ok, Hs.
      - exists e. split; [reflexivity|exact He]. }
  step_in E En.
  destruct prefix_list as [[|x l]|].
  - apply (analyze_tail name None s s' r Hn).
    + left. reflexivity.
    + exact E.
  - cbn [ancestors].
    destruct (ends_run (join "/" (x :: l)) s) as [[Hp Ep]|[Hp (e & Ep & He)]].
    + apply (analyze_tail name (Some (x :: l)) s s' r Hn).
      * right. exact Hp.
      * unfold bind at 1 in E. cbv zeta in E. unfold bind at 1 in E.
        rewrite Ep in E. cbv beta iota in E. unfold ret at 1 in E.
        unfold bind at 1. unfold ret at 1. unfold full_path_of.
        cbn [ancestors]. rewrite join_snoc by discriminate. exact E.
    + unfold bind at 1 in E. cbv zeta in E. unfold bind at 1 in E.
      rewrite Ep in E. cbv beta iota in E.
      injection E as <- <-. right. split.
      * intros [_ [H|H]]; [discriminate H|contradiction].
      * exists e. split; [reflexivity|exact He].
  - apply (analyze_tail name None s s' r Hn).
    + left. reflexivity.
    + exact E.
Qed.

(** X1.  [_analyze_path] returns exactly on the arguments it accepts: a
    name that is not empty and holds no separator, and ancestors that,
    joined, neither start nor end with a separator (or no ancestors at
    all).  It then returns the canonical form of the full path and leaves
    the state as it was.  On any other arguments it raises [IndexError] or
    [AssertionError], the state unchanged. *)
Theorem analyze_path_accepts_exactly {St} name prefix_list (s : St) :
  (analyzable name prefix_list ->
   exists is_phdata is_user,
     _analyze_path name prefix_list s
     = (s, inr (canonical (full_path_of name prefix_list),
                is_phdata, is_user))) /\
  (~ analyzable name prefix_list ->
   exists e, _analyze_path name prefix_list s = (s, inl e) /\
             (e = IndexError \/ e = AssertionError)).
Proof.
  destruct (analyze_path_cases name prefix_list s) as [[H1 H2]|[H1 H2]].
  - split; [intros _; exact H2|intros H; contradiction].
  - split; [intros H; contradiction|intros _; exact H2].
Qed.

(** *** Numbered measurement groups *)

Lemma is_digit_not_sep a : is_digit a = true -> Ascii.eqb a "/" = false.
Proof.
  intros H. destruct (Ascii.eqb_spec a "/") as [->|]; [discriminate H|].
  reflexivity.
Qed.

Lemma drop_digits_run n r :
  all_digits n = true -> drop_digits (n +:+ r) = drop_digits r.
Proof.
  induction n as [|a n IH]; [reflexivity|].
  cbn [all_digits]. intros H. apply andb_prop in H as [Ha Hn].
  rewrite app_cons. cbn [drop_digits]. rewrite Ha. apply IH, Hn.
Qed.

Lemma digits_no_sep n : all_digits n = true -> contains "/" n = false.
Proof.
  induction n as [|a n IH]; [reflexivity|].
  cbn [all_digits]. intros H. apply andb_prop in H as [Ha Hn].
  rewrite contains_sep_cons, (is_digit_not_sep _ Ha). apply IH, Hn.
Qed.

Lemma contains_sep_app s t :
  contains "/" (s +:+ t) = contains "/" s || contains "/" t.
Proof.
  induction s as [|a s IH].
  - rewrite app_nil_l. reflexivity.
  - rewrite app_cons, !contains_sep_cons.
    destruct (Ascii.eqb a "/"); [reflexivity|exact IH].
Qed.

Lemma numbered_segment_ok n :
  all_digits n = true -> segment_ok ("photon_data" +:+ n).
Proof.
  intros H. split; [discriminate|].
  rewrite contains_sep_app, (digits_no_sep _ H). reflexivity.
Qed.

Lemma canonical_numbered n r :
  all_digits n = true ->
  canonical ("/photon_data" +:+ n +:+ r) = canonical ("/photon_data" +:+ r).
Proof.
  intros H. unfold canonical, startswith. rewrite !prefix_app.
  change (drop 12 ("/photon_data" +:+ n +:+ r)) with (n +:+ r).
  change (drop 12 ("/photon_data" +:+ r)) with r.
  rewrite (drop_digits_run _ _ H). reflexivity.
Qed.

Lemma full_path_numbered n rest name :
  full_path_of name (Some (("photon_data" +:+ n) :: rest))
  = "/photon_data" +:+ n +:+ "/" +:+ join "/" (rest ++ [name]).
Proof.
  unfold full_path_of. cbn [ancestors].
  change ((("photon_data" +:+ n) :: rest) ++ [name])
    with (("photon_data" +:+ n) :: (rest ++ [name])).
  destruct (rest ++ [name]) as [|y l] eqn:E.
  - destruct rest; discriminate E.
  - rewrite join_cons, !app_assoc. reflexivity.
Qed.

Lemma user_not_numbered n l :
  "user" ∈ ("photon_data" +:+ n) :: l <-> "user" ∈ l.
Proof.
  rewrite elem_of_cons. split; [|auto].
  intros [H|H]; [discriminate H|exact H].
Qed.

(** X2.  The digits that follow [photon_data] in the first ancestor play
    no part in the analysis: for any run of digits and any well-formed
    segments below it, [_analyze_path] returns for [photon_data<digits>]
    what it returns for [photon_data], the same meta path and the same two
    flags. *)
Theorem analyze_path_ignores_numbering {St} n rest name (s : St) :
  all_digits n = true ->
  Forall segment_ok (rest ++ [name]) ->
  _analyze_path name (Some (("photon_data" +:+ n) :: rest)) s
  = _analyze_path name (Some ("photon_data" :: rest)) s.
Proof.
  intros Hn Hok.
  rewrite !analyze_path_wellformed.
  2:{ cbn [ancestors]. constructor; [|exact Hok].
      apply (numbered_segment_ok EmptyString). reflexivity. }
  2:{ cbn [ancestors]. constructor; [apply numbered_segment_ok, Hn|exact Hok]. }
  rewrite full_path_numbered.
  pose proof (full_path_numbered EmptyString rest name) as H0.
  rewrite app_nil_l in H0.
  change ("photon_data" +:+ EmptyString) with "photon_data" in H0.
  rewrite H0. rewrite canonical_numbered by exact Hn.
  cbn [ancestors length]. unfold startswith. rewrite !prefix_app.
  f_equal. f_equal. f_equal.
  apply bool_decide_ext.
  change ((("photon_data" +:+ n) :: rest) ++ [name])
    with (("photon_data" +:+ n) :: (rest ++ [name])).
  rewrite user_not_numbered.
  symmetry. apply (user_not_numbered EmptyString).
Qed.

Lemma drop_digits_head r a :
  first (drop_digits r) = Some a -> is_digit a = false.
Proof.
  induction r as [|b r IH]; [discriminate|].
  cbn [drop_digits]. destruct (is_digit b) eqn:E; [exact IH|].
  intros [= <-]. exact E.
Qed.

Lemma take_line_head r a : first (take_line r) = Some a -> first r = Some a.
Proof.
  destruct r as [|b r]; [discriminate|]. cbn [take_line].
  destruct (Ascii.eqb b newline); [discriminate|]. intros H. exact H.
Qed.

Lemma app_inv_head_str (p s t : string) : p +:+ s = p +:+ t -> s = t.
Proof.
  induction p as [|a p IH]; [intros H; exact H|].
  rewrite !app_cons. intros [= H]. apply IH, H.
Qed.

(** X3.  Whatever the arguments, a meta path that [_analyze_path] returns
    never has a digit right after [/photon_data]: the key used to look up
    a description is never the path of a numbered group. *)
Theorem analyze_path_never_numbered {S} name prefix_list (s s' : S)
    meta_path is_phdata is_user d rest :
  _analyze_path name prefix_list s
  = (s', inr (meta_path, is_phdata, is_user)) ->
  is_digit d = true ->
  meta_path <> "/photon_data" +:+ String d rest.
Proof.
  intros H Hd Heq.
  apply analyze_path_returns_canonical in H.
  unfold canonical in H. rewrite Heq in H. unfold startswith in H.
  rewrite prefix_app in H.
  change (drop 12 ("/photon_data" +:+ String d rest)) with (String d rest) in H.
  apply app_inv_head_str in H.
  assert (Hf : first (take_line (drop_digits (String d rest))) = Some d).
  { rewrite H. reflexivity. }
  apply take_line_head, drop_digits_head in Hf. congruence.
Qed.

(** A prefix without separator is looked for in the first segment. *)
Lemma prefix_first_segment p : forall g t,
  contains "/" p = false -> contains "/" g = false ->
  String.prefix p (g +:+ String "/" t) = String.prefix p g.
Proof.
  induction p as [|a p IH]; intros g t Hp Hg.
  - rewrite !prefix_nil. reflexivity.
  - apply no_slash_cons in Hp as [Ha Hp]. destruct g as [|b g].
    + rewrite app_nil_l, prefix_cons.
      destruct (ascii_dec a "/"); [contradiction|reflexivity].
    + apply no_slash_cons in Hg as [_ Hg]. rewrite app_cons, !prefix_cons.
      destruct (ascii_dec a b); [apply IH; assumption|reflexivity].
Qed.

Lemma length_one {A} (l : list A) :
  (length l =? 1)%nat = true <-> exists g, l = [g].
Proof.
  destruct l as [|g [|g' l]]; simpl; split; try discriminate; eauto.
  - intros [x H]. discriminate H.
  - intros [x H]. discriminate H.
Qed.

(** X4.  On well-formed segments [_analyze_path] returns the canonical
    form of the full path with two flags: the user flag, set exactly when
    one of the segments is [user]; and the flag that makes the writer chunk
    an array, set exactly when there is one ancestor, its name starts with
    [photon_data], and the name does not end with [_specs]. *)
Theorem analyze_path_flags {St} name prefix_list (s : St) :
  Forall segment_ok (ancestors prefix_list ++ [name]) ->
  exists is_phdata is_user,
    _analyze_path name prefix_list s
    = (s, inr (canonical (full_path_of name prefix_list),
               is_phdata, is_user)) /\
    (is_user = true <-> "user" ∈ ancestors prefix_list ++ [name]) /\
    (is_phdata = true <->
     exists g, ancestors prefix_list = [g] /\
               startswith g "photon_data" = true /\
               endswith name "_specs" = false).
Proof.
  intros Hok. rewrite (analyze_path_wellformed name prefix_list s Hok).
  eexists _, _. split; [reflexivity|]. split.
  - apply bool_decide_eq_true.
  - rewrite !andb_true_iff, negb_true_iff, length_one. split.
    + intros [[Hs [g Hg]] He]. exists g. split; [exact Hg|].
      split; [|exact He]. unfold full_path_of in Hs. rewrite Hg in Hs.
      cbn [app] in Hs. rewrite join_cons in Hs. unfold startswith in Hs |- *.
      change ("/" +:+ g +:+ "/" +:+ join "/" [name])
        with (String "/" (g +:+ String "/" (join "/" [name]))) in Hs.
      change "/photon_data" with (String "/" "photon_data") in Hs.
      rewrite prefix_cons in Hs.
      destruct (ascii_dec "/" "/"); [|contradiction].
      rewrite prefix_first_segment in Hs; [exact Hs|reflexivity|].
      rewrite Hg in Hok. inversion Hok as [|? ? [_ H] _]. exact H.
    + intros (g & Hg & Hs & He). split; [split; [|eauto]|exact He].
      unfold full_path_of. rewrite Hg. cbn [app]. rewrite join_cons.
      unfold startswith in Hs |- *.
      change ("/" +:+ g +:+ "/" +:+ join "/" [name])
        with (String "/" (g +:+ String "/" (join "/" [name]))).
      change "/photon_data" with (String "/" "photon_data").
      rewrite prefix_cons.
      destruct (ascii_dec "/" "/"); [|contradiction].
      rewrite prefix_first_segment; [exact Hs|reflexivity|].
      rewrite Hg in Hok. inversion Hok as [|? ? [_ H] _]. exact H.
Qed.

End PathCases.

(** ** More on the validation *)

Section Sweep.
Import PyStr Path PathSpec PathFacts PathCases H5 Tree TreeFacts Phase.

Variable official_fields_descr : gmap string string.

Lemma contains_user_digits n r :
  all_digits n = true -> contains "/user" (n +:+ r) = contains "/user" r.
Proof.
  induction n as [|a n IH]; [reflexivity|].
  cbn [all_digits]. intros H. apply andb_prop in H as [Ha Hn].
  rewrite app_cons, contains_cons, prefix_cons.
  destruct (ascii_dec "/" a) as [<-|_]; [discriminate Ha|]. apply IH, Hn.
Qed.

Lemma contains_user_photon_data r :
  contains "/user" ("/photon_data" +:+ r) = contains "/user" r.
Proof.
  change ("/photon_data" +:+ r)
    with (String "/" (String "p" (String "h" (String "o" (String "t"
           (String "o" (String "n" (String "_" (String "d" (String "a"
           (String "t" (String "a" r)))))))))))).
  repeat (rewrite contains_cons; cbn [String.prefix ascii_dec Ascii.ascii_rec
            Ascii.ascii_rect bool_dec bool_rec bool_rect sumbool_rec
            sumbool_rect]).
  reflexivity.
Qed.

(** X5.  [_check_path] does on a path under [/photon_data<digits>] what
    it does on the same path under [/photon_data]: same error or return,
    same output, under either value of [strict]. *)
Theorem check_path_ignores_numbering n r strict out :
  all_digits n = true ->
  _check_path official_fields_descr ("/photon_data" +:+ n +:+ r) strict out
  = _check_path official_fields_descr ("/photon_data" +:+ r) strict out.
Proof.
  intros Hn. unfold _check_path.
  rewrite !contains_user_photon_data, (contains_user_digits _ _ Hn).
  destruct (contains "/user" r); [reflexivity|].
  unfold startswith. rewrite !prefix_app.
  unfold bind.
  rewrite !(strip_digits_canonical (S:=stdout)) by apply prefix_app.
  rewrite (canonical_numbered _ _ Hn). reflexivity.
Qed.

(** *** Checks that report issues *)

Lemma gated_ret {A} P (a : A) : gated P (fun _ => ret a).
Proof.
  intros out. exists [], a. split; [constructor|].
  simpl. rewrite app_nil_r. split; reflexivity.
Qed.

Lemma gated_bind {A B} P (m : bool -> Py stdout A)
    (k : A -> bool -> Py stdout B) :
  gated P m -> (forall a, gated P (k a)) ->
  gated P (fun strict => x <- m strict ;; k x strict).
Proof.
  intros Hm Hk out. destruct (Hm out) as (ms1 & a & HP1 & Hl1 & Hs1).
  destruct (Hk a (out ++ map warning ms1)) as (ms2 & b & HP2 & Hl2 & Hs2).
  exists (ms1 ++ ms2), b. split; [apply Forall_app; auto|]. split.
  - unfold bind. rewrite Hl1, Hl2, map_app, List.app_assoc. reflexivity.
  - unfold bind. rewrite Hs1. destruct ms1 as [|m1 ms1]; [|reflexivity].
    simpl in Hs2. rewrite app_nil_r in Hs2. exact Hs2.
Qed.

Lemma gated_for_acc {A B} P (l : list A)
    (body : bool -> B -> A -> Py stdout B) :
  (forall acc x, x ∈ l -> gated P (fun strict => body strict acc x)) ->
  forall acc, gated P (fun strict => for_acc l (body strict) acc).
Proof.
  induction l as [|x l IH]; intros Hb acc; cbn [for_acc].
  - apply gated_ret.
  - apply (gated_bind P (fun strict => body strict acc x)
             (fun acc' strict => for_acc l (body strict) acc')).
    + apply Hb. left.
    + intros acc'. apply IH. intros a y Hy. apply Hb. right. exact Hy.
Qed.

Lemma gated_check_path path :
  gated is_unknown_field (_check_path official_fields_descr path).
Proof.
  intros out. unfold _check_path.
  destruct (contains "/user" path).
  { exists [], tt. split; [constructor|]. simpl. rewrite app_nil_r. auto. }
  assert (Hq : exists q,
    (if startswith path "/photon_data"
     then strip_digits path else ret path) out = (out, inr q)).
  { destruct (startswith path "/photon_data") eqn:E.
    - apply strip_digits_startswith, E.
    - eexists. reflexivity. }
  destruct Hq as [q Hq]. unfold bind. rewrite Hq.
  destruct (bool_decide (official_fields_descr !! q = None)).
  - exists [unknown_field q], tt. split; [|split; reflexivity].
    constructor; [eexists; reflexivity|constructor].
  - exists [], tt. split; [constructor|]. simpl. rewrite app_nil_r. auto.
Qed.

Lemma gated_check_node acc nd :
  is_node_obj nd ->
  gated is_unknown_field
    (fun strict => check_node official_fields_descr strict acc nd).
Proof.
  intros (p & n & ->).
  change (gated is_unknown_field (fun strict =>
    if negb (bool_decide (p ∈ acc))
    then _check_path official_fields_descr p strict ;;; ret (acc ++ [p])
    else ret acc)).
  destruct (negb (bool_decide (p ∈ acc))); [|apply gated_ret].
  apply (gated_bind _ (_check_path official_fields_descr p)
           (fun _ _ => ret (acc ++ [p]))); [apply gated_check_path|].
  intros _. apply gated_ret.
Qed.

Lemma gated_check_group acc g :
  is_group_obj g ->
  gated is_unknown_field
    (fun strict => check_group official_fields_descr strict acc g).
Proof.
  intros (p & cs & ->).
  change (gated is_unknown_field (fun strict =>
    _check_path official_fields_descr p strict ;;;
    for_acc (nodes_of p cs) (check_node official_fields_descr strict)
      (acc ++ [p]))).
  apply (gated_bind _ (_check_path official_fields_descr p)
    (fun _ strict =>
       for_acc (nodes_of p cs) (check_node official_fields_descr strict)
         (acc ++ [p]))); [apply gated_check_path|].
  intros _.
  apply (gated_for_acc _ (nodes_of p cs)
           (fun strict => check_node official_fields_descr strict)).
  intros acc' nd Hnd. apply gated_check_node.
  eapply nodes_of_are_nodes, Hnd.
Qed.

Lemma gated_check_valid_names p cs :
  gated is_unknown_field
    (_check_valid_names official_fields_descr (ONode p (Group cs))).
Proof.
  change (gated is_unknown_field (fun strict =>
    for_acc (ONode p (Group cs) :: walk_below p (Group cs))
      (check_group official_fields_descr strict) [] ;;;
    ret tt)).
  apply (gated_bind _
    (fun strict =>
       for_acc (ONode p (Group cs) :: walk_below p (Group cs))
         (check_group official_fields_descr strict) [])
    (fun _ _ => ret tt)); [|intros _; apply gated_ret].
  apply (gated_for_acc _ _
           (fun strict => check_group official_fields_descr strict)).
  intros acc g Hg. apply gated_check_group.
  apply elem_of_cons in Hg as [->|Hg]; [eexists _, _; reflexivity|].
  pose proof (walk_below_groups p (Group cs)) as Hall.
  rewrite Forall_forall in Hall. apply Hall.
  first [exact Hg | apply list_elem_of_In; exact Hg].
Qed.

(** X6.  The name sweep of a group never raises under strict=false: it
    prints one warning per issue, each for an unknown field, and returns.
    Under strict=true it prints nothing, raises [Invalid_PhotonHDF5] with
    the message of the first of these warnings, and returns when there is
    none. *)
Theorem sweep_strict_raises_first_warning p cs out :
  exists msgs,
    Forall is_unknown_field msgs /\
    _check_valid_names official_fields_descr (ONode p (Group cs)) false out
    = (out ++ map warning msgs, inr tt) /\
    _check_valid_names official_fields_descr (ONode p (Group cs)) true out
    = match msgs with
      | [] => (out, inr tt)
      | msg :: _ => (out, inl (Invalid_PhotonHDF5 msg))
      end.
Proof.
  destruct (gated_check_valid_names p cs out) as (msgs & [] & H).
  exists msgs. exact H.
Qed.

End Sweep.

Section TypedGroups.
Import PyStr H5 Tree TreeFacts Phase.

(** A path of two names, through a child that is there. *)
Lemma has_path_via a b o p n :
  child a o = Some (ONode p n) ->
  has_path [a; b] o = has_child b (ONode p n).
Proof.
  intros H. rewrite (has_path_cons_false _ _ _ _ H). apply has_path_1.
Qed.

Lemma has_path_absent a segs o :
  child a o = None -> has_path (a :: segs) o = false.
Proof.
  intros H. unfold has_path. cbn [find]. rewrite H.
  apply bool_decide_eq_false_2. intros [x Hx]. discriminate Hx.
Qed.

(** When [measurement_type] is a group there is nothing to read. *)
Lemma measurement_type_group_raises p n pm nm p' cs strict out :
  forallb (fun segs => has_path segs (ONode p n)) timestamps_fields = true ->
  child "measurement_specs" (ONode p n) = Some (ONode pm nm) ->
  child "measurement_type" (ONode pm nm) = Some (ONode p' (Group cs)) ->
  exists e, _check_photon_data (ONode p n) strict out = (out, inl e).
Proof.
  intros Hts Hms Hmt. unfold _check_photon_data.
  rewrite (timestamps_present_continue p n out _ Hts).
  rewrite (child_has _ _ _ Hms). cbn [negb].
  step (getattr_child (S:=stdout) _ _ _ out Hms).
  rewrite (child_has _ _ _ Hmt). cbn [negb].
  step (getattr_child (S:=stdout) _ _ _ out Hmt).
  unfold bind at 1. unfold read at 1.
  destruct (assoc "read" cs); eexists; reflexivity.
Qed.

(** *** A group without its measurement specs *)

(** X8.  A measurement group that has the timestamps fields and no
    [measurement_specs/measurement_type] is where [strict] decides: under
    strict=true [_check_photon_data] raises [Invalid_PhotonHDF5]; under
    strict=false it prints one warning and returns, and none of the fields
    that depend on the type is looked at. *)
Theorem check_photon_data_without_type p n strict out :
  forallb (fun segs => has_path segs (ONode p n)) timestamps_fields = true ->
  has_path ["measurement_specs"; "measurement_type"] (ONode p n) = false ->
  exists msg,
    (msg = missing_specs \/ msg = missing_type) /\
    _check_photon_data (ONode p n) strict out
    = if strict then (out, inl (Invalid_PhotonHDF5 msg))
      else (out ++ [warning msg], inr tt).
Proof.
  intros Hts Hno. unfold _check_photon_data.
  rewrite (timestamps_present_continue p n out _ Hts).
  destruct (child "measurement_specs" (ONode p n)) as [ms|] eqn:Ems.
  - destruct (child_is_node _ _ _ Ems) as (pm & nm & ->).
    rewrite (has_path_via _ _ _ _ _ Ems) in Hno.
    rewrite (child_has _ _ _ Ems). cbn [negb].
    step (getattr_child (S:=stdout) _ _ _ out Ems).
    rewrite Hno. cbn [negb]. exists missing_type. split; [auto|].
    destruct strict; reflexivity.
  - rewrite (child_none_has _ _ _ Ems). cbn [negb].
    exists missing_specs. split; [auto|]. destruct strict; reflexivity.
Qed.

(** *** When the check of a group returns *)

(** X7.  [_check_photon_data] returns only where [strict] decides.
    Whenever it returns, [strict] is false, the group has no
    [measurement_specs/measurement_type], and one warning was printed, for
    the measurement specs or for the type.  A group that has a
    [measurement_type] never passes: what [read()] returns is none of the
    recognized identifiers, and the checks of the fields that depend on the
    type are not reached.  No object passes under strict=true. *)
Theorem check_photon_data_returns_only_untyped ph strict out out' :
  _check_photon_data ph strict out = (out', inr tt) ->
  strict = false /\
  has_path ["measurement_specs"; "measurement_type"] ph = false /\
  exists msg,
    (msg = missing_specs \/ msg = missing_type) /\
    out' = out ++ [warning msg].
Proof.
  intros Hrun. destruct ph as [p n|s].
  2:{ rewrite check_photon_data_str in Hrun. discriminate Hrun. }
  destruct (forallb (fun segs => has_path segs (ONode p n)) timestamps_fields)
    eqn:Hts.
  2:{ destruct (timestamps_missing_raises p n strict out Hts) as [msg H].
      rewrite H in Hrun. discriminate Hrun. }
  destruct (child "measurement_specs" (ONode p n)) as [ms|] eqn:Ems.
  - destruct (child_is_node _ _ _ Ems) as (pm & nm & ->).
    rewrite (has_path_via _ _ _ _ _ Ems).
    destruct (child "measurement_type" (ONode pm nm)) as [mtn|] eqn:Emt.
    + exfalso. destruct (child_is_node _ _ _ Emt) as (p' & [v|cs] & ->).
      * rewrite (typed_group_refused p n strict out (Bytes v) Hts) in Hrun;
          [discriminate Hrun|].
        unfold measurement_type_of, find. rewrite Ems, Emt. reflexivity.
      * destruct (measurement_type_group_raises _ _ _ _ _ _ strict out
                    Hts Ems Emt) as [e H].
        rewrite H in Hrun. discriminate Hrun.
    + rewrite (child_none_has _ _ _ Emt).
      unfold _check_photon_data in Hrun.
      rewrite (timestamps_present_continue p n out _ Hts) in Hrun.
      rewrite (child_has _ _ _ Ems) in Hrun. cbn [negb] in Hrun.
      step_in Hrun (getattr_child (S:=stdout) _ _ _ out Ems).
      rewrite (child_none_has _ _ _ Emt) in Hrun. cbn [negb] in Hrun.
      destruct strict; [discriminate Hrun|].
      injection Hrun as <-. split; [reflexivity|]. split; [reflexivity|].
      exists missing_type. auto.
  - rewrite (has_path_absent _ _ _ Ems).
    unfold _check_photon_data in Hrun.
    rewrite (timestamps_present_continue p n out _ Hts) in Hrun.
    rewrite (child_none_has _ _ _ Ems) in Hrun. cbn [negb] in Hrun.
    destruct strict; [discriminate Hrun|].
    injection Hrun as <-. split; [reflexivity|]. split; [reflexivity|].
    exists missing_specs. auto.
Qed.

End TypedGroups.

Section Acceptance.
Import PyStr H5 Tree TreeFacts Phase.

Variable official_fields_descr : gmap string string.

Lemma silent_ret {A} (a : A) : silent (ret a).
Proof. intros out out' r [= <- _]. reflexivity. Qed.

Lemma silent_raise {A} e : silent (A:=A) (raise e).
Proof. intros out out' r [= <- _]. reflexivity. Qed.

Lemma silent_bind {A B} (m : Py stdout A) (k : A -> Py stdout B) :
  silent m -> (forall a, silent (k a)) -> silent (bind m k).
Proof.
  intros Hm Hk out out' r. unfold bind.
  destruct (m out) as [o1 [e|a]] eqn:E; apply Hm in E as ->.
  - intros [= <- _]. reflexivity.
  - apply Hk.
Qed.

Lemma silent_if {A} (b : bool) (m1 m2 : Py stdout A) :
  silent m1 -> silent m2 -> silent (if b then m1 else m2).
Proof. destruct b; auto. Qed.

Lemma silent_for_each {A} (l : list A) (body : A -> Py stdout unit) :
  (forall x, silent (body x)) -> silent (for_each l body).
Proof.
  intros Hb. induction l as [|x l IH]; cbn [for_each].
  - apply silent_ret.
  - apply silent_bind; [apply Hb|intros _; exact IH].
Qed.

Lemma silent_getattr o name : silent (getattr o name).
Proof.
  intros out out' r. destruct o as [p [v|cs]|s]; simpl;
    try (intros [= <- _]; reflexivity).
  destruct (assoc name cs); intros [= <- _]; reflexivity.
Qed.

Lemma silent_pathname o : silent (_v_pathname o).
Proof. intros out out' r. destruct o; intros [= <- _]; reflexivity. Qed.

Lemma silent_read o : silent (read o).
Proof.
  intros out out' r. destruct o as [p [v|cs]|s]; simpl;
    try (intros [= <- _]; reflexivity).
  destruct (assoc "read" cs); intros [= <- _]; reflexivity.
Qed.

Lemma silent_raise_invalid msg : silent (_raise_invalid_file msg true).
Proof. apply silent_raise. Qed.

Lemma silent_assert_has_field name o : silent (_assert_has_field name o).
Proof.
  unfold _assert_has_field. apply silent_if; [|apply silent_ret].
  apply silent_bind; [apply silent_pathname|intros; apply silent_raise].
Qed.

Lemma silent_assert_has_field_mtype mt name o :
  silent (_assert_has_field_mtype mt name o).
Proof.
  unfold _assert_has_field_mtype. apply silent_if; [|apply silent_ret].
  apply silent_bind; [apply silent_pathname|intros; apply silent_raise].
Qed.

Lemma silent_check_has_field name o strict :
  silent (_check_has_field name o strict).
Proof.
  unfold _check_has_field. apply silent_if; [|apply silent_ret].
  apply silent_bind; [apply silent_pathname|intros; apply silent_raise].
Qed.

Lemma silent_check_photon_data ph : silent (_check_photon_data ph true).
Proof.
  unfold _check_photon_data.
  repeat first
    [ apply silent_assert_has_field
    | apply silent_assert_has_field_mtype
    | apply silent_getattr
    | apply silent_read
    | apply silent_ret
    | apply silent_raise_invalid
    | apply silent_raise
    | apply silent_for_each; intros ?
    | apply silent_if
    | apply silent_bind; [|intros ?] ].
Qed.

Lemma silent_check_setup setup : silent (_check_setup setup true).
Proof.
  unfold _check_setup. apply silent_for_each. intros name.
  apply silent_if; [apply silent_raise_invalid|apply silent_ret].
Qed.

Lemma silent_check_valid_names data :
  silent (_check_valid_names official_fields_descr data true).
Proof.
  intros out out' r. destruct data as [p [v|cs]|s];
    try (intros [= <- _]; reflexivity).
  destruct (gated_check_valid_names official_fields_descr p cs out)
    as (msgs & a & _ & _ & ->).
  destruct msgs; intros [= <- _]; reflexivity.
Qed.

Lemma silent_v_groups_keys o : silent (_v_groups_keys o).
Proof.
  intros out out' r. destruct o as [p [v|cs]|s]; intros [= <- _]; reflexivity.
Qed.

Lemma silent_assert_valid data :
  silent (assert_valid_photon_hdf5 official_fields_descr data true).
Proof.
  unfold assert_valid_photon_hdf5.
  apply silent_bind; [apply silent_check_valid_names|intros _].
  apply silent_bind; [apply silent_check_has_field|intros _].
  apply silent_bind; [apply silent_check_has_field|intros _].
  apply silent_bind.
  { repeat first
      [ apply silent_getattr | apply silent_v_groups_keys | apply silent_ret
      | apply silent_raise | apply silent_if
      | apply silent_bind; [|intros ?] ]. }
  intros ph_data_m. apply silent_bind.
  { apply silent_for_each. intros ph. apply silent_check_photon_data. }
  intros _. apply silent_if.
  - apply silent_bind; [apply silent_getattr|intros ?].
    apply silent_check_setup.
  - apply silent_raise_invalid.
Qed.

(** X9.  Under strict=true the validation prints nothing, whatever it is
    given and however it ends. *)
Theorem strict_validation_prints_nothing data out :
  fst (assert_valid_photon_hdf5 official_fields_descr data true out) = out.
Proof.
  destruct (assert_valid_photon_hdf5 official_fields_descr data true out)
    as [out' r] eqn:E.
  apply silent_assert_valid in E. exact E.
Qed.

(** *** When a file is accepted *)

Lemma bind_returns_inv {A B} (m : Py stdout A) (k : A -> Py stdout B)
    out out' b :
  silent m ->
  bind m k out = (out', inr b) ->
  exists a, m out = (out, inr a) /\ k a out = (out', inr b).
Proof.
  intros Hm. unfold bind. destruct (m out) as [o1 [e|a]] eqn:E.
  - discriminate.
  - apply Hm in E as ->. eauto.
Qed.

Lemma check_has_field_returns name p n strict out out' :
  _check_has_field name (ONode p n) strict out = (out', inr tt) ->
  has_child name (ONode p n) = true.
Proof.
  destruct (has_child name (ONode p n)) eqn:E; [reflexivity|].
  rewrite (check_has_field_absent _ _ _ strict out E). discriminate.
Qed.

Lemma setup_check_strict_returns data out out' :
  setup_check data true out = (out', inr tt) <->
  out' = out /\
  exists setup, child "setup" data = Some setup /\
                missing_setup_fields setup = [].
Proof.
  unfold setup_check. split.
  - destruct (has_child "setup" data) eqn:E; [|discriminate].
    intros H.
    apply bind_returns_inv in H as (setup & Hg & H); [|apply silent_getattr].
    assert (Hc : child "setup" data = Some setup).
    { destruct data as [p [v|cs]|s]; try discriminate Hg.
      simpl in Hg |- *. destruct (assoc "setup" cs); [|discriminate Hg].
      injection Hg as <-. reflexivity. }
    rewrite check_setup_strict in H.
    destruct (missing_setup_fields setup) eqn:Em; [|discriminate H].
    injection H as <-. eauto.
  - intros (-> & setup & Hc & Hm). rewrite (child_has _ _ _ Hc).
    step (getattr_child (S:=stdout) _ _ _ out Hc).
    rewrite check_setup_strict, Hm. reflexivity.
Qed.


(** *** Numbered measurement groups *)

Lemma insert_sorted_nonempty x l : insert_sorted x l <> [].
Proof.
  destruct l as [|y l]; simpl; [|destruct (String.leb x y)]; discriminate.
Qed.

Lemma sort_strings_nonempty l : l <> [] -> sort_strings l <> [].
Proof.
  destruct l as [|x l]; [contradiction|]. intros _.
  apply insert_sorted_nonempty.
Qed.

Lemma numbered_keys_nonempty cs gcs :
  assoc "photon_data0" cs = Some (Group gcs) ->
  List.filter (fun k => startswith k "photon_data")
    (fst <$> List.filter (fun kc => is_group (snd kc)) cs) <> [].
Proof.
  induction cs as [|[k c] cs IH]; [discriminate|].
  cbn [assoc]. destruct (String.eqb_spec "photon_data0" k) as [<-|Hne].
  - intros [= ->]. simpl. discriminate.
  - intros H. specialize (IH H). cbn [List.filter snd].
    destruct (is_group c); [|exact IH].
    cbn [fmap list_fmap fst List.filter].
    destruct (startswith k "photon_data"); [discriminate|exact IH].
Qed.

(** X11.  A root that has a group [photon_data0] and no [photon_data] is
    never validated: the validation raises under either value of
    [strict], and when the top-level checks pass the error is the
    [AttributeError] of [_check_photon_data] handed the name of the first
    numbered group instead of the group. *)
Theorem numbered_family_never_validates p cs gcs strict out :
  has_child "photon_data" (ONode p (Group cs)) = false ->
  assoc "photon_data0" cs = Some (Group gcs) ->
  (exists out' e,
     assert_valid_photon_hdf5 official_fields_descr (ONode p (Group cs))
       strict out = (out', inl e)) /\
  (forall out1,
     top_level_checks official_fields_descr (ONode p (Group cs)) strict out
     = (out1, inr tt) ->
     assert_valid_photon_hdf5 official_fields_descr (ONode p (Group cs))
       strict out = (out1, inl AttributeError)).
Proof.
  intros Hno H0.
  assert (Hrun : forall out1,
     top_level_checks official_fields_descr (ONode p (Group cs)) strict out
     = (out1, inr tt) ->
     assert_valid_photon_hdf5 official_fields_descr (ONode p (Group cs))
       strict out = (out1, inl AttributeError)).
  { intros out1 Htop. unfold assert_valid_photon_hdf5.
    unfold top_level_checks in Htop. unfold bind in Htop |- *.
    destruct (_check_valid_names official_fields_descr (ONode p (Group cs))
                strict out) as [o1 [e|[]]]; [discriminate|].
    destruct (_check_has_field "acquisition_time" (ONode p (Group cs)) strict
                o1) as [o2 [e|[]]]; [discriminate|].
    rewrite Htop, Hno.
    assert (H0' : has_child "photon_data0" (ONode p (Group cs)) = true).
    { cbn [has_child]. rewrite H0. apply bool_decide_eq_true_2. eauto. }
    rewrite H0'. cbn [_v_groups_keys ret].
    pose proof (sort_strings_nonempty _ (numbered_keys_nonempty cs gcs H0))
      as Hne.
    destruct (sort_strings _) as [|k ks]; [contradiction|].
    cbn [fmap list_fmap for_each]. unfold bind.
    rewrite check_photon_data_str. reflexivity. }
  split; [|exact Hrun].
  destruct (top_level_checks official_fields_descr (ONode p (Group cs)) strict
              out) as [o1 [e|[]]] eqn:E.
  - exists o1, e. apply assert_valid_top_raises, E.
  - exists o1, AttributeError. apply Hrun. reflexivity.
Qed.

End Acceptance.

Section Lenient.
Import PyStr H5 Tree TreeFacts Phase.

Variable official_fields_descr : gmap string string.

Lemma follows_const {A} (m : Py stdout A) : lenient_follows (fun _ => m).
Proof. intros out out' a H. exact H. Qed.

Lemma follows_bind {A B} (m : bool -> Py stdout A)
    (k : A -> bool -> Py stdout B) :
  lenient_follows m -> (forall a, lenient_follows (k a)) ->
  lenient_follows (fun strict => x <- m strict ;; k x strict).
Proof.
  intros Hm Hk out out' b. unfold bind.
  destruct (m true out) as [o1 [e|a]] eqn:E; [discriminate|].
  rewrite (Hm _ _ _ E). apply Hk.
Qed.

Lemma follows_if {A} (b : bool) (m1 m2 : bool -> Py stdout A) :
  lenient_follows m1 -> lenient_follows m2 ->
  lenient_follows (fun strict => if b then m1 strict else m2 strict).
Proof. destruct b; auto. Qed.

Lemma follows_for_each {A} (l : list A) (body : A -> bool -> Py stdout unit) :
  (forall x, lenient_follows (body x)) ->
  lenient_follows (fun strict => for_each l (fun x => body x strict)).
Proof.
  intros Hb. induction l as [|x l IH]; cbn [for_each].
  - apply follows_const.
  - apply (follows_bind (body x)
             (fun _ strict => for_each l (fun x => body x strict)));
      [apply Hb|intros _; exact IH].
Qed.

Lemma follows_raise_invalid msg :
  lenient_follows (_raise_invalid_file msg).
Proof. intros out out' a H. discriminate H. Qed.

Lemma follows_check_valid_names data :
  lenient_follows (_check_valid_names official_fields_descr data).
Proof.
  intros out out' a. destruct data as [p [v|cs]|s]; try discriminate.
  destruct (gated_check_valid_names official_fields_descr p cs out)
    as (msgs & b & _ & -> & ->).
  destruct msgs; [|discriminate]. simpl. rewrite app_nil_r. auto.
Qed.

Lemma follows_check_photon_data ph :
  lenient_follows (_check_photon_data ph).
Proof.
  unfold _check_photon_data.
  repeat first
    [ apply follows_raise_invalid
    | apply follows_const
    | apply follows_if
    | apply follows_bind; [|intros ?] ].
Qed.

Lemma follows_check_setup setup : lenient_follows (_check_setup setup).
Proof.
  unfold _check_setup.
  apply (follows_for_each mantatory_fields (fun name strict =>
    if negb (has_child name setup)
    then _raise_invalid_file (missing_setup name) strict
    else ret tt)).
  intros name. apply follows_if; [apply follows_raise_invalid|].
  apply follows_const.
Qed.

(** X12.  A file that the validation accepts under strict=true is
    accepted under strict=false too, and without a warning. *)
Theorem strict_acceptance_implies_lenient data out :
  assert_valid_photon_hdf5 official_fields_descr data true out
  = (out, inr tt) ->
  assert_valid_photon_hdf5 official_fields_descr data false out
  = (out, inr tt).
Proof.
  revert out. enough (H : lenient_follows
    (assert_valid_photon_hdf5 official_fields_descr data)).
  { intros out. apply H. }
  unfold assert_valid_photon_hdf5.
  apply follows_bind; [apply follows_check_valid_names|intros _].
  apply follows_bind; [apply follows_const|intros _].
  apply follows_bind; [apply follows_const|intros _].
  apply follows_bind; [apply follows_const|intros ph_data_m].
  apply follows_bind.
  { apply (follows_for_each ph_data_m (fun ph strict =>
             _check_photon_data ph strict)).
    intros ph. apply follows_check_photon_data. }
  intros _. apply follows_if; [|apply follows_raise_invalid].
  apply follows_bind; [apply follows_const|intros setup].
  apply follows_check_setup.
Qed.

End Lenient.

(** ** More on the save *)

Module WriterFacts.
Import PyStr Path Save SaveSpec SaveFacts.

Lemma appends_ret {A} (Q : list sink_op -> Prop) (a : A) :
  Q [] -> appends Q (ret a).
Proof.
  intros HQ w w' r [= <- _]. repeat split; try reflexivity.
  - exists []. rewrite app_nil_r. reflexivity.
  - exists []. rewrite app_nil_r. auto.
Qed.

Lemma appends_raise {A} (Q : list sink_op -> Prop) e :
  Q [] -> appends (A:=A) Q (raise e).
Proof.
  intros HQ w w' r [= <- _]. repeat split; try reflexivity.
  - exists []. rewrite app_nil_r. reflexivity.
  - exists []. rewrite app_nil_r. auto.
Qed.

Lemma appends_bind {A B} (Q1 Q2 Q : list sink_op -> Prop)
    (m : Py world A) (k : A -> Py world B) :
  appends Q1 m -> (forall a, appends Q2 (k a)) ->
  Q2 [] -> (forall o1 o2, Q1 o1 -> Q2 o2 -> Q (o1 ++ o2)) ->
  appends Q (bind m k).
Proof.
  intros Hm Hk Hnil Happ w w' r. unfold bind.
  destruct (m w) as [w1 [e|a]] eqn:E;
    destruct (Hm _ _ _ E) as (Hh & Hf & [l1 Hp] & o1 & Hs & HQ1).
  - intros [= <- _]. repeat split; eauto.
    exists o1. split; [exact Hs|]. rewrite <- (app_nil_r o1). auto.
  - intros H.
    destruct (Hk _ _ _ _ H) as (Hh2 & Hf2 & [l2 Hp2] & o2 & Hs2 & HQ2).
    split; [congruence|]. split; [congruence|]. split.
    + exists (l1 ++ l2). rewrite Hp2, Hp, List.app_assoc. reflexivity.
    + exists (o1 ++ o2). rewrite Hs2, Hs, List.app_assoc. auto.
Qed.

Lemma appends_weaken {A} (Q Q' : list sink_op -> Prop) (m : Py world A) :
  (forall ops, Q ops -> Q' ops) -> appends Q m -> appends Q' m.
Proof.
  intros HQ Hm w w' r H. destruct (Hm _ _ _ H) as (Hh & Hf & Hp & o & Hs & Ho).
  eauto 10.
Qed.

Lemma appends_for_each {A} (Q : list sink_op -> Prop) (l : list A)
    (body : A -> Py world unit) :
  Q [] -> (forall o1 o2, Q o1 -> Q o2 -> Q (o1 ++ o2)) ->
  (forall x, x ∈ l -> appends Q (body x)) -> appends Q (for_each l body).
Proof.
  intros Hnil Happ. induction l as [|x l IH]; intros Hb; cbn [for_each].
  - apply appends_ret, Hnil.
  - apply (appends_bind Q Q Q); [apply Hb; left| |exact Hnil|exact Happ].
    intros _. apply IH. intros y Hy. apply Hb. right. exact Hy.
Qed.

Lemma appends_say (Q : list sink_op -> Prop) line :
  Q [] -> appends Q (say line).
Proof.
  intros HQ w w' r [= <- _]. repeat split; try reflexivity.
  - eexists. reflexivity.
  - exists []. simpl. rewrite app_nil_r. auto.
Qed.

Lemma appends_emit op : appends (fun ops => ops = [op]) (emit op).
Proof.
  intros w w' r [= <- _]. repeat split; try reflexivity.
  - exists []. simpl. rewrite app_nil_r. reflexivity.
  - eexists. split; reflexivity.
Qed.

Lemma appends_deref (Q : list sink_op -> Prop) l : Q [] -> appends Q (deref l).
Proof.
  intros HQ w w' r. unfold deref.
  destruct (heap w !! l); intros [= <- _]; repeat split; try reflexivity;
    exists []; rewrite app_nil_r; auto.
Qed.

Lemma appends_analyze (Q : list sink_op -> Prop) name prefix_list :
  Q [] -> appends Q (_analyze_path name prefix_list).
Proof.
  intros HQ w w' r H. apply analyze_path_pure in H as ->.
  repeat split; try reflexivity; exists []; rewrite app_nil_r; auto.
Qed.

(** *** The operations of the writer *)

Lemma parents_first_mono ops : forall known known',
  (forall g, g ∈ known -> g ∈ known') ->
  parents_first known ops = true -> parents_first known' ops = true.
Proof.
  induction ops as [|op ops IH]; intros K K' Hsub; [reflexivity|].
  destruct op as [p n t|c p n o t|]; cbn [parents_first].
  - intros H. apply andb_prop in H as [H1 H2]. apply andb_true_intro. split.
    + apply bool_decide_eq_true in H1. apply bool_decide_eq_true_2. auto.
    + apply (IH (H5.join_path p n :: K)); [|exact H2].
      intros g Hg. apply elem_of_cons in Hg as [->|Hg]; [left|right; auto].
  - intros H. apply andb_prop in H as [H1 H2]. apply andb_true_intro. split.
    + apply bool_decide_eq_true in H1. apply bool_decide_eq_true_2. auto.
    + apply (IH K); assumption.
  - apply IH, Hsub.
Qed.

Lemma parents_first_app o1 : forall known o2,
  parents_first known o1 = true -> parents_first known o2 = true ->
  parents_first known (o1 ++ o2) = true.
Proof.
  induction o1 as [|op o1 IH]; intros K o2 H1 H2; [exact H2|].
  destruct op as [p n t|c p n o t|]; cbn [parents_first app] in *.
  - apply andb_prop in H1 as [Ha Hb]. rewrite Ha. cbn [andb].
    apply IH; [exact Hb|]. apply (parents_first_mono _ K); [|exact H2].
    intros g Hg. right. exact Hg.
  - apply andb_prop in H1 as [Ha Hb]. rewrite Ha. cbn [andb]. apply IH; auto.
  - apply IH; auto.
Qed.

Lemma well_formed_nil known : well_formed_ops known [].
Proof. repeat split. Qed.

Lemma well_formed_app known o1 o2 :
  well_formed_ops known o1 -> well_formed_ops known o2 ->
  well_formed_ops known (o1 ++ o2).
Proof.
  intros (A1 & B1 & C1) (A2 & B2 & C2). split; [|split].
  - apply parents_first_app; assumption.
  - rewrite forallb_app, B1, B2. reflexivity.
  - rewrite forallb_app, C1, C2. reflexivity.
Qed.

Lemma well_formed_group known parent name title ops :
  parent ∈ known ->
  well_formed_ops (H5.join_path parent name :: known) ops ->
  well_formed_ops known (CreateGroup parent name title :: ops).
Proof.
  intros Hp (A & B & C). split; [|split]; cbn [parents_first forallb].
  - rewrite (bool_decide_eq_true_2 _ Hp). exact A.
  - exact B.
  - exact C.
Qed.

Lemma appends_write_array known group name obj descr chunked :
  group ∈ known ->
  appends (well_formed_ops known)
    (_h5_write_array group name obj descr chunked).
Proof.
  intros Hg. unfold _h5_write_array.
  eapply appends_weaken; [|apply appends_emit].
  intros ops ->. split; [|split]; cbn [parents_first forallb].
  - rewrite (bool_decide_eq_true_2 _ Hg). reflexivity.
  - destruct obj; reflexivity.
  - reflexivity.
Qed.

Section Writer.

Variable official_fields_descr : gmap string string.

(** What the writer does for one item, once the name is analysed. *)
Lemma appends_item depth known group fields_descr prefix_list name value
    (analysis : string * bool * bool) :
  group ∈ known ->
  (forall known' group' data_dict prefix_list',
     group' ∈ known' ->
     appends (well_formed_ops known')
       (_save_photon_hdf5_dict depth group' data_dict fields_descr
          prefix_list')) ->
  appends (well_formed_ops known)
    ((if negb analysis.2
         && String.eqb (default EmptyString (fields_descr !! analysis.1.1))
              EmptyString
      then say ("WARNING: missing description for " +:+ dq +:+ analysis.1.1
                +:+ dq)
      else ret tt) ;;;
     match value with
     | VDict subdict =>
         emit (CreateGroup group name
                 (default EmptyString (fields_descr !! analysis.1.1))) ;;;
         _save_photon_hdf5_dict depth (H5.join_path group name) subdict
           fields_descr
           (Some (match prefix_list with
                  | None => []
                  | Some pl => pl
                  end ++ [name]))
     | _ => _h5_write_array group name value
              (default EmptyString (fields_descr !! analysis.1.1))
              analysis.1.2
     end).
Proof.
  intros Hg IH.
  apply (appends_bind (well_formed_ops known) (well_formed_ops known));
    [| |apply well_formed_nil|apply well_formed_app].
  - destruct (_ && _);
      [apply appends_say|apply appends_ret]; apply well_formed_nil.
  - intros _. destruct value; try (apply appends_write_array, Hg).
    apply (appends_bind
             (fun ops => ops = [CreateGroup group name
                (default EmptyString (fields_descr !! analysis.1.1))])
             (well_formed_ops (H5.join_path group name :: known)));
      [apply appends_emit| |apply well_formed_nil|].
    + intros _. apply IH. left.
    + intros o1 o2 -> H. apply well_formed_group; assumption.
Qed.

Lemma appends_save_dict depth : forall known group data_dict fields_descr
    prefix_list,
  group ∈ known ->
  appends (well_formed_ops known)
    (_save_photon_hdf5_dict depth group data_dict fields_descr prefix_list).
Proof.
  induction depth as [|depth IH]; intros K group l fd pl Hg;
    cbn [_save_photon_hdf5_dict].
  - apply appends_raise, well_formed_nil.
  - apply (appends_bind (well_formed_ops K) (well_formed_ops K)).
    + unfold dict_items.
      apply (appends_bind (well_formed_ops K) (well_formed_ops K));
        [apply appends_deref, well_formed_nil| |apply well_formed_nil
        |apply well_formed_app].
      intros d. apply appends_ret, well_formed_nil.
    + intros items.
      apply appends_for_each;
        [apply well_formed_nil|apply well_formed_app|].
      intros [name value] _. cbn [fst snd].
      apply (appends_bind (well_formed_ops K) (well_formed_ops K));
        [apply appends_analyze, well_formed_nil| |apply well_formed_nil
        |apply well_formed_app].
      intros analysis. apply appends_item; [exact Hg|].
      intros K' g' l' pl' Hg'. apply IH, Hg'.
    + apply well_formed_nil.
    + apply well_formed_app.
Qed.

(** X13.  However it ends, [_save_photon_hdf5_dict] changes no dictionary
    and no file; it only adds to what was printed and to what the file was
    asked to do.  Every operation it adds names as parent the group it was
    given or a group created before; no operation hands a Python string
    to the file (strings go encoded); none is a flush. *)
Theorem writer_only_appends depth group data_dict fields_descr prefix_list
    w w' r :
  _save_photon_hdf5_dict depth group data_dict fields_descr prefix_list w
  = (w', r) ->
  heap w' = heap w /\ files w' = files w /\
  (exists lines, printed w' = printed w ++ lines) /\
  exists ops, sink w' = sink w ++ ops /\ well_formed_ops [group] ops.
Proof.
  apply (appends_save_dict depth [group]). left.
Qed.

End Writer.

End WriterFacts.

Module SaveOps.
Import PyStr Path Save SaveSpec SaveFacts WriterFacts.

Section Operation.

Variable official_fields_descr : gmap string string.
Variable __version__ : string.
Variable splitext : string -> string * string.
Variable abspath : string -> string.
Variable basename : string -> string.
Variable now : string.
Variable ctime_of : string -> string.
Variable mtime_of : string -> string.

Local Abbreviation file_metadata :=
  (Save.file_metadata abspath basename ctime_of mtime_of).
Local Abbreviation get_file_metadata :=
  (Save.get_file_metadata abspath basename ctime_of mtime_of).
Local Abbreviation add_provenance_metadata :=
  (Save.add_provenance_metadata abspath basename ctime_of mtime_of).
Local Abbreviation fields_descr_of :=
  (Save.fields_descr_of official_fields_descr).
Local Abbreviation identity_of :=
  (Save.identity_of __version__ abspath basename now).
Local Abbreviation save_to :=
  (Save.save_to official_fields_descr __version__ abspath basename now
     ctime_of mtime_of).
Local Abbreviation save_photon_hdf5 :=
  (Save.save_photon_hdf5 official_fields_descr __version__ splitext abspath
     basename now ctime_of mtime_of).

Lemma sink_const_ret {A} (a : A) : sink_const (ret a).
Proof. intros w w' r [= <- _]. reflexivity. Qed.

Lemma sink_const_raise {A} e : sink_const (A:=A) (raise e).
Proof. intros w w' r [= <- _]. reflexivity. Qed.

Lemma sink_const_bind {A B} (m : Py world A) (k : A -> Py world B) :
  sink_const m -> (forall a, sink_const (k a)) -> sink_const (bind m k).
Proof.
  intros Hm Hk w w' r. unfold bind.
  destruct (m w) as [w1 [e|a]] eqn:E.
  - intros [= <- _]. eapply Hm, E.
  - intros H. rewrite (Hk _ _ _ _ H). eapply Hm, E.
Qed.

Lemma sink_const_deref l : sink_const (deref l).
Proof.
  intros w w' r. unfold deref.
  destruct (heap w !! l); intros [= <- _]; reflexivity.
Qed.

Lemma sink_const_store l d : sink_const (store l d).
Proof. intros w w' r [= <- _]. reflexivity. Qed.

Lemma sink_const_new_dict d : sink_const (new_dict d).
Proof. intros w w' r [= <- _]. reflexivity. Qed.

Lemma sink_const_say line : sink_const (say line).
Proof. intros w w' r [= <- _]. reflexivity. Qed.

Lemma sink_const_isfile f : sink_const (isfile f).
Proof. intros w w' r [= <- _]. reflexivity. Qed.

Lemma sink_const_open_file f : sink_const (open_file f).
Proof. intros w w' r [= <- _]. reflexivity. Qed.

Lemma sink_const_as_str v : sink_const (as_str v).
Proof. destruct v; first [apply sink_const_ret|apply sink_const_raise]. Qed.

Lemma sink_const_as_dict v : sink_const (as_dict v).
Proof. destruct v; first [apply sink_const_ret|apply sink_const_raise]. Qed.

Lemma sink_const_assert b : sink_const (assert b).
Proof. destruct b; [apply sink_const_ret|apply sink_const_raise]. Qed.

Ltac sink_const_tac :=
  repeat first
    [ apply sink_const_ret | apply sink_const_raise | apply sink_const_deref
    | apply sink_const_store | apply sink_const_new_dict
    | apply sink_const_say | apply sink_const_isfile
    | apply sink_const_open_file | apply sink_const_as_str
    | apply sink_const_as_dict | apply sink_const_assert
    | apply sink_const_bind; [|intros ?]
    | match goal with
      | |- sink_const (match ?x with _ => _ end) => destruct x
      end ].

Lemma sink_const_dict_get l k : sink_const (dict_get l k).
Proof. unfold dict_get. sink_const_tac. Qed.

Lemma sink_const_dict_pop l k : sink_const (dict_pop l k).
Proof. unfold dict_pop. sink_const_tac. Qed.

Lemma sink_const_dict_set l k v : sink_const (dict_set l k v).
Proof. unfold dict_set. sink_const_tac. Qed.

Lemma sink_const_dict_update l u : sink_const (dict_update l u).
Proof. unfold dict_update. sink_const_tac. Qed.

Lemma sink_const_dict_copy l : sink_const (dict_copy l).
Proof. unfold dict_copy. sink_const_tac. Qed.

Lemma sink_const_dict_contains l k : sink_const (dict_contains l k).
Proof. unfold dict_contains. sink_const_tac. Qed.

Lemma sink_const_add_provenance data_dict :
  sink_const (add_provenance_metadata data_dict).
Proof.
  unfold Save.add_provenance_metadata, Save.get_file_metadata.
  repeat first
    [ apply sink_const_dict_get | apply sink_const_dict_update
    | apply sink_const_dict_contains | progress sink_const_tac ].
Qed.

Lemma saves_raise e : saves (raise e).
Proof.
  intros w w' r [= <- <-]. exists []. split; [apply well_formed_nil|].
  rewrite !app_nil_r. reflexivity.
Qed.

Lemma saves_bind {A} (m : Py world A) (k : A -> Py world unit) :
  sink_const m -> (forall a, saves (k a)) -> saves (bind m k).
Proof.
  intros Hm Hk w w' r. unfold bind.
  destruct (m w) as [w1 [e|a]] eqn:E; apply Hm in E.
  - intros [= <- <-]. exists []. split; [apply well_formed_nil|].
    rewrite !app_nil_r. exact E.
  - intros H. destruct (Hk _ _ _ _ H) as (ops & Hwf & Hs).
    exists ops. split; [exact Hwf|]. rewrite Hs, E. reflexivity.
Qed.

Lemma saves_writer_flush depth data_dict fields_descr :
  saves (_save_photon_hdf5_dict depth "/" data_dict fields_descr None ;;;
         emit Flush).
Proof.
  intros w w' r. unfold bind.
  destruct (_save_photon_hdf5_dict depth "/" data_dict fields_descr None w)
    as [w1 [e|[]]] eqn:E;
    destruct (appends_save_dict depth ["/"] "/" _ _ _ ltac:(left) _ _ _ E)
      as (_ & _ & _ & ops & Hs & Hwf).
  - intros [= <- <-]. exists ops. rewrite app_nil_r. auto.
  - intros [= <- <-]. exists ops. split; [exact Hwf|]. simpl.
    rewrite Hs, List.app_assoc. reflexivity.
Qed.

Lemma saves_save_to depth data_dict h5_fname user_descr :
  saves (save_to depth data_dict h5_fname user_descr).
Proof.
  unfold Save.save_to.
  apply saves_bind; [apply sink_const_say|intros _].
  apply saves_bind; [sink_const_tac|intros title].
  apply saves_bind; [apply sink_const_open_file|intros data_file].
  apply saves_bind; [apply sink_const_dict_copy|intros copy].
  apply saves_bind; [apply sink_const_dict_update|intros _].
  apply saves_bind; [apply sink_const_add_provenance|intros _].
  apply saves_bind; [apply sink_const_new_dict|intros identity].
  apply saves_bind; [apply sink_const_dict_set|intros _].
  apply saves_writer_flush.
Qed.

(** X14.  What [save_photon_hdf5] asks of the file, however it ends: the
    operations of the writer, from the root, and then one flush when the
    call returns, none when it raises. *)
Theorem save_flushes_once_on_success depth data_dict compression h5_fname
    user_descr w w' r :
  save_photon_hdf5 depth data_dict compression h5_fname user_descr w
  = (w', r) ->
  exists ops,
    well_formed_ops ["/"] ops /\
    sink w' = sink w ++ ops ++ match r with
                               | inr _ => [Flush]
                               | inl _ => []
                               end.
Proof.
  revert w w' r. change (saves
    (save_photon_hdf5 depth data_dict compression h5_fname user_descr)).
  unfold Save.save_photon_hdf5.
  apply saves_bind.
  { destruct h5_fname; [apply sink_const_ret|].
    apply sink_const_bind; [apply sink_const_dict_pop|intros ?].
    sink_const_tac. }
  intros name. apply saves_bind; [apply sink_const_isfile|intros ?].
  apply saves_save_to.
Qed.

End Operation.

End SaveOps.

Module WriterItems.
Import PyStr Path PathSpec PathFacts Save SaveSpec SaveFacts WriterFacts.

Lemma for_each_returns_elem {A} (body : A -> Py world unit) (l : list A) :
  (forall x, appends (fun _ => True) (body x)) ->
  forall w w' x,
    for_each l body w = (w', inr tt) -> x ∈ l ->
    exists w1 w2 ops,
      body x w1 = (w2, inr tt) /\ sink w' = sink w2 ++ ops.
Proof.
  intros Hb. induction l as [|y l IH]; intros w w' x Hrun Hx.
  - apply elem_of_nil in Hx. contradiction.
  - cbn [for_each] in Hrun. unfold bind in Hrun.
    destruct (body y w) as [w1 [e|[]]] eqn:E; [discriminate|].
    apply elem_of_cons in Hx as [->|Hx].
    + exists w, w1.
      assert (Hrest : appends (fun _ => True) (for_each l body)).
      { apply appends_for_each; auto. }
      destruct (Hrest _ _ _ Hrun) as (_ & _ & _ & ops & Hs & _).
      exists ops. auto.
    + apply (IH _ _ _ Hrun Hx).
Qed.

Lemma appends_any {A} (Q : list sink_op -> Prop) (m : Py world A) :
  appends Q m -> appends (fun _ => True) m.
Proof. apply appends_weaken. auto. Qed.

Section Writer.

Lemma in_sink_later op (w1 w2 : world) ops :
  sink w2 = sink w1 ++ ops -> op ∈ sink w1 -> op ∈ sink w2.
Proof. intros -> H. apply elem_of_app. left. exact H. Qed.

(** X15.  When [_save_photon_hdf5_dict] returns, every item of the
    dictionary it was given has been written: for a name that makes a
    well-formed path with the ancestors, the file was asked to create a
    group (for a dictionary) or an array (for anything else, a string
    encoded) of that name in the group, with the description of the
    canonical path as title, the empty string when the table has none;
    the array is chunked exactly when it is a direct child of a group
    [photon_data...] and its name does not end with [_specs]. *)
Theorem writer_writes_each_item depth group data_dict fields_descr
    prefix_list w w' d name v :
  heap w !! data_dict = Some d ->
  d !! name = Some v ->
  Forall segment_ok (ancestors prefix_list ++ [name]) ->
  _save_photon_hdf5_dict depth group data_dict fields_descr prefix_list w
  = (w', inr tt) ->
  op_of_item fields_descr group prefix_list name v ∈ sink w'.
Proof.
  intros Hd Hv Hok Hrun. destruct depth as [|depth]; [discriminate Hrun|].
  cbn [_save_photon_hdf5_dict] in Hrun. unfold dict_items in Hrun.
  unfold bind at 1 in Hrun. step_in Hrun (deref_run _ _ _ Hd).
  unfold ret at 1 in Hrun. cbv beta iota in Hrun.
  apply (for_each_returns_elem _ _) with (x := (name, v)) in Hrun.
  2:{ intros [n x]. cbn [fst snd].
      apply (appends_bind (fun _ => True) (fun _ => True)); auto.
      - apply appends_analyze. exact I.
      - intros analysis. apply (appends_any (well_formed_ops [group])).
        apply appends_item; [left|].
        intros K' g' l' pl' Hg'. apply appends_save_dict, Hg'. }
  2:{ apply elem_of_map_to_list. exact Hv. }
  destruct Hrun as (w1 & w2 & ops & Hbody & Hs).
  apply (in_sink_later _ w2 w' ops Hs). clear Hs.
  cbn [fst snd] in Hbody.
  step_in Hbody (analyze_path_wellformed (St:=world) name prefix_list w1 Hok).
  cbn [fst snd] in Hbody. unfold bind at 1 in Hbody.
  match type of Hbody with
  | context [(if ?b then say ?line else ret tt) w1] =>
      destruct ((if b then say line else ret tt) w1) as [w1' [e|[]]] eqn:E;
        [discriminate|]
  end.
  unfold op_of_item. destruct v.
  all: try (unfold _h5_write_array, emit in Hbody; injection Hbody as <-;
            cbn [sink]; apply elem_of_app; right; left).
  unfold bind at 1 in Hbody. unfold emit at 1 in Hbody. cbv beta iota in Hbody.
  match type of Hbody with
  | _save_photon_hdf5_dict _ _ _ _ _ ?wa = _ =>
      destruct (appends_save_dict _ [H5.join_path group name] _ _ _ _
                  ltac:(left) _ _ _ Hbody) as (_ & _ & _ & o & Ho & _)
  end.
  rewrite Ho. cbn [sink]. apply elem_of_app. left. apply elem_of_app.
  right. left.
Qed.

End Writer.

End WriterItems.

(** ** The table of a save *)

Module SaveTable.
Import PyStr Path PathSpec PathFacts PathCases H5 Save SaveSpec SaveFacts
  WriterFacts SaveOps.

(** *** The path of the group the writer is in *)

Lemma join_path_grows p name :
  p <> "/" -> H5.join_path p name = p +:+ "/" +:+ name.
Proof.
  intros Hp. unfold H5.join_path.
  destruct (String.eqb_spec p "/") as [->|_]; [contradiction|reflexivity].
Qed.

Lemma rooted_not_root s : s <> EmptyString -> "/" +:+ s <> "/".
Proof. destruct s; [contradiction|discriminate]. Qed.

Lemma app_not_empty (s t : string) : s <> EmptyString -> s +:+ t <> EmptyString.
Proof. destruct s; [contradiction|discriminate]. Qed.

Lemma pathname_from_snoc l name :
  pathname_from "/" (l ++ [name])
  = H5.join_path (pathname_from "/" l) name.
Proof. unfold pathname_from. rewrite fold_left_app. reflexivity. Qed.

(** Below a first segment that is not empty, the path of a group is the
    separator and its segments joined. *)
Lemma pathname_from_join l : forall a,
  a <> EmptyString ->
  pathname_from "/" (a :: l) = "/" +:+ join "/" (a :: l).
Proof.
  induction l as [|x l IH] using rev_ind; intros a Ha.
  - reflexivity.
  - rewrite app_comm_cons, pathname_from_snoc, (IH a Ha).
    rewrite join_path_grows.
    + rewrite (join_snoc "/" (a :: l) x) by discriminate.
      rewrite !PathFacts.app_assoc. reflexivity.
    + apply rooted_not_root. unfold join. destruct l; [exact Ha|].
      cbn [String.concat]. apply app_not_empty, Ha.
Qed.

Lemma ends_ok_head a l : ends_ok (join "/" (a :: l)) -> a <> EmptyString.
Proof.
  intros (x & y & Hx & _ & Hne & _) ->. unfold join in Hx.
  destruct l as [|b l]; cbn in Hx; [discriminate|].
  injection Hx as <-. contradiction.
Qed.

(** The path of the node of an item, when the analysis of its name
    returns. *)
Lemma item_path name prefix_list :
  analyzable name prefix_list ->
  H5.join_path (pathname_from "/" (ancestors prefix_list)) name
  = full_path_of name prefix_list.
Proof.
  intros [_ Hanc]. unfold full_path_of.
  destruct (ancestors prefix_list) as [|a l] eqn:E.
  - reflexivity.
  - destruct Hanc as [Hanc|Hanc]; [discriminate|].
    pose proof (ends_ok_head _ _ Hanc) as Ha.
    rewrite (pathname_from_join l a Ha).
    rewrite join_path_grows.
    + rewrite (join_snoc "/" (a :: l) name) by discriminate.
      rewrite !PathFacts.app_assoc. reflexivity.
    + apply rooted_not_root. unfold join. destruct l; [exact Ha|].
      cbn [String.concat]. apply app_not_empty, Ha.
Qed.

(** *** The titles of the writer *)

Lemma appends_bind_val {A B} (Q1 Q2 Q : list sink_op -> Prop)
    (R : A -> Prop) (m : Py world A) (k : A -> Py world B) :
  appends Q1 m -> (forall w w' a, m w = (w', inr a) -> R a) ->
  (forall a, R a -> appends Q2 (k a)) ->
  Q2 [] -> (forall o1 o2, Q1 o1 -> Q2 o2 -> Q (o1 ++ o2)) ->
  appends Q (bind m k).
Proof.
  intros Hm HR Hk Hnil Happ w w' r. unfold bind.
  destruct (m w) as [w1 [e|a]] eqn:E;
    destruct (Hm _ _ _ E) as (Hh & Hf & [l1 Hp] & o1 & Hs & HQ1).
  - intros [= <- _]. repeat split; eauto.
    exists o1. split; [exact Hs|]. rewrite <- (app_nil_r o1). auto.
  - intros H.
    destruct (Hk _ (HR _ _ _ E) _ _ _ H)
      as (Hh2 & Hf2 & [l2 Hp2] & o2 & Hs2 & HQ2).
    split; [congruence|]. split; [congruence|]. split.
    + exists (l1 ++ l2). rewrite Hp2, Hp, List.app_assoc. reflexivity.
    + exists (o1 ++ o2). rewrite Hs2, Hs, List.app_assoc. auto.
Qed.

Lemma titled_nil table : Forall (titled_from table) [].
Proof. constructor. Qed.

Lemma titled_app table o1 o2 :
  Forall (titled_from table) o1 -> Forall (titled_from table) o2 ->
  Forall (titled_from table) (o1 ++ o2).
Proof. intros H1 H2. apply Forall_app. auto. Qed.

Lemma titled_flush table : titled_from table Flush.
Proof. intros path title H. discriminate H. Qed.

(** The analysis of a name, when it returns, gives the canonical path of
    the node of the item. *)
Lemma analysis_of_item {St} name prefix_list (s s' : St) analysis :
  _analyze_path name prefix_list s = (s', inr analysis) ->
  analysis.1.1
  = canonical
      (H5.join_path (pathname_from "/" (ancestors prefix_list)) name).
Proof.
  intros H.
  destruct (analyze_path_cases (St:=St) name prefix_list s)
    as [(Hok & a & b & E)|(_ & e & E & _)].
  - rewrite E in H. injection H as _ <-. cbn [fst].
    rewrite (item_path _ _ Hok). reflexivity.
  - rewrite E in H. discriminate H.
Qed.

Lemma writer_titles depth : forall group data_dict fields_descr prefix_list,
  group = pathname_from "/" (ancestors prefix_list) ->
  appends (Forall (titled_from fields_descr))
    (_save_photon_hdf5_dict depth group data_dict fields_descr prefix_list).
Proof.
  induction depth as [|depth IH]; intros group l fd pl Hg;
    cbn [_save_photon_hdf5_dict].
  - apply appends_raise, titled_nil.
  - apply (appends_bind (Forall (titled_from fd)) (Forall (titled_from fd)));
      [| |apply titled_nil|apply titled_app].
    + unfold dict_items.
      apply (appends_bind (Forall (titled_from fd))
               (Forall (titled_from fd)));
        [apply appends_deref, titled_nil| |apply titled_nil|apply titled_app].
      intros d. apply appends_ret, titled_nil.
    + intros items.
      apply appends_for_each; [apply titled_nil|apply titled_app|].
      intros [name value] _. cbn [fst snd].
      apply (appends_bind_val (Forall (titled_from fd))
               (Forall (titled_from fd)) _
               (fun analysis =>
                  analysis.1.1 = canonical (H5.join_path group name)));
        [apply appends_analyze, titled_nil| | |apply titled_nil
        |apply titled_app].
      { intros w w' analysis H. rewrite Hg.
        apply (analysis_of_item _ _ _ _ _ H). }
      intros analysis Hkey.
      assert (Hop : forall op,
                created op
                = Some (H5.join_path group name,
                        default EmptyString (fd !! analysis.1.1)) ->
                Forall (titled_from fd) [op]).
      { intros op Hc. constructor; [|constructor].
        intros path title H. rewrite Hc in H. injection H as <- <-.
        rewrite Hkey. reflexivity. }
      apply (appends_bind (Forall (titled_from fd))
               (Forall (titled_from fd)));
        [| |apply titled_nil|apply titled_app].
      * destruct (_ && _);
          [apply appends_say|apply appends_ret]; apply titled_nil.
      * intros _.
        destruct value;
          try (unfold _h5_write_array;
               eapply appends_weaken; [|apply appends_emit];
               intros ops ->; apply Hop; reflexivity).
        apply (appends_bind (Forall (titled_from fd))
                 (Forall (titled_from fd)));
          [| |apply titled_nil|apply titled_app].
        -- eapply appends_weaken; [|apply appends_emit].
           intros ops ->. apply Hop. reflexivity.
        -- intros _. apply IH. cbn [ancestors].
           rewrite pathname_from_snoc, Hg.
           destruct pl; reflexivity.
Qed.

(** *** The items of the writer *)

Lemma for_each_item_run {A} (body : A -> Py world unit) (l : list A) :
  (forall x, appends (fun _ => True) (body x)) ->
  forall w w' x,
    for_each l body w = (w', inr tt) -> x ∈ l ->
    exists w1 w2 before after,
      sink w1 = sink w ++ before /\
      body x w1 = (w2, inr tt) /\ sink w' = sink w2 ++ after.
Proof.
  intros Hb. induction l as [|y l IH]; intros w w' x Hrun Hx.
  - apply elem_of_nil in Hx. contradiction.
  - cbn [for_each] in Hrun. unfold bind in Hrun.
    destruct (body y w) as [w1 [e|[]]] eqn:E; [discriminate|].
    apply elem_of_cons in Hx as [->|Hx].
    + assert (Hrest : appends (fun _ => True) (for_each l body)).
      { apply appends_for_each; auto. }
      destruct (Hrest _ _ _ Hrun) as (_ & _ & _ & ops & Hs & _).
      exists w, w1, [], ops. rewrite app_nil_r. auto.
    + destruct (Hb y _ _ _ E) as (_ & _ & _ & o1 & Hs1 & _).
      destruct (IH _ _ _ Hrun Hx) as (wa & wb & o2 & o3 & Ha & Hbody & Hb').
      exists wa, wb, (o1 ++ o2), o3. rewrite Ha, Hs1, List.app_assoc. auto.
Qed.

(** When the writer returns, the file was asked, among what the call
    added, to create a node for every name of the dictionary that makes a
    well-formed path. *)
Lemma item_created depth group data_dict fields_descr prefix_list w w' d
    name :
  heap w !! data_dict = Some d ->
  is_Some (d !! name) ->
  Forall segment_ok (ancestors prefix_list ++ [name]) ->
  _save_photon_hdf5_dict depth group data_dict fields_descr prefix_list w
  = (w', inr tt) ->
  exists ops op title,
    sink w' = sink w ++ ops /\ op ∈ ops /\
    created op = Some (H5.join_path group name, title).
Proof.
  intros Hd [v Hv] Hok Hrun. destruct depth as [|depth]; [discriminate Hrun|].
  cbn [_save_photon_hdf5_dict] in Hrun. unfold dict_items in Hrun.
  unfold bind at 1 in Hrun. step_in Hrun (deref_run _ _ _ Hd).
  unfold ret at 1 in Hrun. cbv beta iota in Hrun.
  apply (for_each_item_run _ _) with (x := (name, v)) in Hrun.
  2:{ intros [n x]. cbn [fst snd].
      apply (appends_bind (fun _ => True) (fun _ => True)); auto.
      - apply appends_analyze. exact I.
      - intros analysis. apply (appends_weaken (well_formed_ops [group]));
          [auto|].
        apply appends_item; [left|].
        intros K' g' l' pl' Hg'. apply appends_save_dict, Hg'. }
  2:{ apply elem_of_map_to_list. exact Hv. }
  destruct Hrun as (w1 & w2 & before & after & Hbefore & Hbody & Hafter).
  cbn [fst snd] in Hbody.
  step_in Hbody (analyze_path_wellformed (St:=world) name prefix_list w1 Hok).
  cbn [fst snd] in Hbody. unfold bind at 1 in Hbody.
  match type of Hbody with
  | context [(if ?b then say ?line else ret tt) w1] =>
      assert (Hsay : exists w1', (if b then say line else ret tt) w1
                                 = (w1', inr tt) /\ sink w1' = sink w1)
        by (destruct b; eexists; split; reflexivity)
  end.
  destruct Hsay as (w1' & Hsay & Hsink). rewrite Hsay in Hbody.
  destruct v.
  all: try (unfold _h5_write_array, emit in Hbody; injection Hbody as <-;
            cbn [sink] in Hafter;
            eexists (before ++ [_] ++ after), _, _;
            split; [rewrite Hafter, Hsink, Hbefore, <- !List.app_assoc;
                    reflexivity|];
            split; [apply elem_of_app; right; left|];
            reflexivity).
  unfold bind at 1 in Hbody. unfold emit at 1 in Hbody. cbv beta iota in Hbody.
  match type of Hbody with
  | _save_photon_hdf5_dict _ _ _ _ _ ?wa = _ =>
      destruct (appends_save_dict _ [H5.join_path group name] _ _ _ _
                  ltac:(left) _ _ _ Hbody) as (_ & _ & _ & o & Ho & _)
  end.
  cbn [sink] in Ho.
  eexists (before ++ [_] ++ o ++ after), _, _. split.
  - rewrite Hafter, Ho, Hsink, Hbefore, <- !List.app_assoc. reflexivity.
  - split; [apply elem_of_app; right; left|]. reflexivity.
Qed.

(** *** The titles of a save *)

Section Operation.

Variable official_fields_descr : gmap string string.
Variable __version__ : string.
Variable splitext : string -> string * string.
Variable abspath : string -> string.
Variable basename : string -> string.
Variable now : string.
Variable ctime_of : string -> string.
Variable mtime_of : string -> string.

Local Abbreviation add_provenance_metadata :=
  (Save.add_provenance_metadata abspath basename ctime_of mtime_of).
Local Abbreviation fields_descr_of :=
  (Save.fields_descr_of official_fields_descr).
Local Abbreviation save_to :=
  (Save.save_to official_fields_descr __version__ abspath basename now
     ctime_of mtime_of).
Local Abbreviation save_photon_hdf5 :=
  (Save.save_photon_hdf5 official_fields_descr __version__ splitext abspath
     basename now ctime_of mtime_of).

Ltac quiet :=
  repeat first
    [ apply sink_const_ret | apply sink_const_raise | apply sink_const_deref
    | apply sink_const_store | apply sink_const_new_dict
    | apply sink_const_say | apply sink_const_isfile
    | apply sink_const_open_file | apply sink_const_as_str
    | apply sink_const_as_dict | apply sink_const_assert
    | apply sink_const_bind; [|intros ?]
    | match goal with
      | |- sink_const (match ?x with _ => _ end) => destruct x
      end ].

Lemma asks_bind {A B} (Q : list sink_op -> Prop) (m : Py world A)
    (k : A -> Py world B) :
  Q [] -> sink_const m -> (forall a, asks Q (k a)) -> asks Q (bind m k).
Proof.
  intros Hnil Hm Hk w w' r. unfold bind.
  destruct (m w) as [w1 [e|a]] eqn:E; apply Hm in E.
  - intros [= <- <-]. exists []. rewrite app_nil_r. auto.
  - intros H. destruct (Hk _ _ _ _ H) as (ops & Hs & HQ).
    exists ops. rewrite Hs, E. auto.
Qed.

Lemma asks_writer_flush depth data_dict fields_descr :
  asks (Forall (titled_from fields_descr))
    (_save_photon_hdf5_dict depth "/" data_dict fields_descr None ;;;
     emit Flush).
Proof.
  intros w w' r. unfold bind.
  destruct (_save_photon_hdf5_dict depth "/" data_dict fields_descr None w)
    as [w1 [e|[]]] eqn:E;
    destruct (writer_titles depth "/" _ _ None eq_refl _ _ _ E)
      as (_ & _ & _ & ops & Hs & Ht).
  - intros [= <- <-]. eauto.
  - intros [= <- <-]. exists (ops ++ [Flush]). split.
    + cbn [sink]. rewrite Hs, List.app_assoc. reflexivity.
    + apply titled_app; [exact Ht|].
      constructor; [apply titled_flush|constructor].
Qed.

Lemma asks_save depth data_dict compression h5_fname user_descr :
  asks (Forall (titled_from (fields_descr_of user_descr)))
    (save_photon_hdf5 depth data_dict compression h5_fname user_descr).
Proof.
  unfold Save.save_photon_hdf5.
  apply asks_bind; [apply titled_nil| |intros name].
  { destruct h5_fname; [apply sink_const_ret|].
    apply sink_const_bind; [apply sink_const_dict_pop|intros ?].
    quiet. }
  apply asks_bind; [apply titled_nil|apply sink_const_isfile|intros ?].
  unfold Save.save_to.
  apply asks_bind; [apply titled_nil|apply sink_const_say|intros _].
  apply asks_bind; [apply titled_nil|quiet|intros title].
  apply asks_bind; [apply titled_nil|apply sink_const_open_file|intros ?].
  apply asks_bind; [apply titled_nil|apply sink_const_dict_copy|intros copy].
  apply asks_bind; [apply titled_nil|apply sink_const_dict_update|intros _].
  apply asks_bind;
    [apply titled_nil|apply sink_const_add_provenance|intros _].
  apply asks_bind; [apply titled_nil|apply sink_const_new_dict|intros ?].
  apply asks_bind; [apply titled_nil|apply sink_const_dict_set|intros _].
  apply asks_writer_flush.
Qed.

(** A title from the table of a save with an overlay is a title taken
    from the overlay first. *)
Lemma titled_overlay_first user op path title :
  titled_from (fields_descr_of (Some user)) op ->
  created op = Some (path, title) ->
  overlay_first official_fields_descr user path title.
Proof.
  intros Ht Hc. rewrite (Ht _ _ Hc). unfold Save.fields_descr_of. split.
  - intros d_user Hu. rewrite (lookup_union_Some_l _ _ _ _ Hu). reflexivity.
  - intros Hn. rewrite (lookup_union_r _ _ _ Hn). reflexivity.
Qed.

(** *** The writer, within a save *)

Lemma bind_returns_inv_w {A B} (m : Py world A) (k : A -> Py world B)
    w w' b :
  bind m k w = (w', inr b) ->
  exists w1 a, m w = (w1, inr a) /\ k a w1 = (w', inr b).
Proof.
  unfold bind. destruct (m w) as [w1 [e|a]]; [discriminate|]. eauto.
Qed.

(** The names of a dictionary are still there after the provenance block,
    whatever it finds. *)
Lemma add_provenance_keeps data_dict l d w w' r :
  heap w !! l = Some d ->
  add_provenance_metadata data_dict w = (w', r) ->
  exists d', heap w' !! l = Some d' /\
             forall k, is_Some (d !! k) -> is_Some (d' !! k).
Proof.
  intros Hl H.
  destruct (add_provenance_effect _ _ _ _ _ _ _ _ H)
    as [_ [->|(dc & lp & dp & meta & _ & _ & Hlp & ->)]]; [eauto|].
  destruct (decide (lp = l)) as [->|Hne].
  - rewrite Hl in Hlp. injection Hlp as <-.
    exists (meta ∪ d). split; [apply (lookup_insert_eq (M:=gmap loc))|].
    intros k [v Hv]. rewrite lookup_union. rewrite Hv.
    destruct (meta !! k); eauto.
  - exists d. rewrite (lookup_insert_ne (M:=gmap loc)) by exact Hne. auto.
Qed.

(** A save that returns has run the writer from the root, on a copy that
    has every name of the dictionary, and has then flushed. *)
Lemma save_to_runs_writer depth data_dict fname user_descr d0 w w' :
  heap w !! data_dict = Some d0 ->
  save_to depth data_dict fname user_descr w = (w', inr tt) ->
  exists copy dcopy w4 w5,
    sink w4 = sink w /\
    heap w4 !! copy = Some dcopy /\
    (forall k, is_Some (d0 !! k) -> is_Some (dcopy !! k)) /\
    _save_photon_hdf5_dict depth "/" copy (fields_descr_of user_descr) None w4
    = (w5, inr tt) /\
    sink w' = sink w5 ++ [Flush].
Proof.
  intros Hd Hrun. unfold Save.save_to in Hrun.
  apply bind_returns_inv_w in Hrun as (wa & [] & Ha & Hrun).
  injection Ha as <-.
  apply bind_returns_inv_w in Hrun as (wb & title & Hb & Hrun).
  destruct (official_fields_descr !! "/"); [|discriminate Hb].
  injection Hb as <- _.
  apply bind_returns_inv_w in Hrun as (wc & data_file & Hc & Hrun).
  injection Hc as <- _.
  apply bind_returns_inv_w in Hrun as (wd & copy & Hcopy & Hrun).
  rewrite (dict_copy_run _ d0) in Hcopy by exact Hd.
  injection Hcopy as <- <-. cbn [heap set_heap] in Hrun.
  set (copy := fresh (dom (heap w))) in *.
  assert (Hfresh : heap w !! copy = None).
  { apply not_elem_of_dom. apply is_fresh. }
  assert (Hcd : copy <> data_dict) by congruence.
  apply bind_returns_inv_w in Hrun as (we & [] & He & Hrun).
  rewrite (dict_update_run _ d0) in He
    by (unfold set_heap; cbn [heap];
        rewrite (lookup_insert_ne (M:=gmap loc)) by exact Hcd; exact Hd).
  injection He as <-.
  apply bind_returns_inv_w in Hrun as (wf & [] & Hf & Hrun).
  pose proof (sink_const_add_provenance abspath basename ctime_of mtime_of
                _ _ _ _ Hf) as Hsf.
  match type of Hf with
  | _ ?wx = _ => assert (Hx : heap wx !! copy = Some d0)
  end.
  { unfold set_heap. cbn [heap].
    rewrite (lookup_insert_ne (M:=gmap loc)) by congruence.
    apply (lookup_insert_eq (M:=gmap loc)). }
  destruct (add_provenance_keeps copy copy d0 _ _ _ Hx Hf)
    as (d1 & Hd1 & Hkeys).
  apply bind_returns_inv_w in Hrun as (wg & identity & Hg & Hrun).
  injection Hg as <- <-.
  set (identity := fresh (dom (heap wf))) in *.
  assert (Hid : identity <> copy).
  { intros E. assert (H : heap wf !! identity = None).
    { apply not_elem_of_dom. apply is_fresh. }
    rewrite E, Hd1 in H. discriminate H. }
  apply bind_returns_inv_w in Hrun as (wh & [] & Hh & Hrun).
  rewrite (dict_set_run _ d1) in Hh
    by (unfold set_heap; cbn [heap];
        rewrite (lookup_insert_ne (M:=gmap loc)) by exact Hid; exact Hd1).
  injection Hh as <-.
  apply bind_returns_inv_w in Hrun as (wi & [] & Hw & Hrun).
  injection Hrun as <-.
  eexists copy, _, _, wi. split; [|split; [|split; [|split]]].
  4: exact Hw.
  - unfold set_heap. cbn [sink]. exact Hsf.
  - unfold set_heap. cbn [heap]. apply (lookup_insert_eq (M:=gmap loc)).
  - intros k Hk. destruct (decide (k = "identity")) as [->|Hne].
    + rewrite lookup_insert_eq. eauto.
    + rewrite (lookup_insert_ne (M:=gmap string)) by congruence.
      apply Hkeys, Hk.
  - reflexivity.
Qed.

Lemma save_runs_writer depth data_dict compression h5_fname user_descr d
    w w' :
  heap w !! data_dict = Some d ->
  save_photon_hdf5 depth data_dict compression h5_fname user_descr w
  = (w', inr tt) ->
  exists copy dcopy w4 w5,
    sink w4 = sink w /\
    heap w4 !! copy = Some dcopy /\
    (forall k, is_Some (d !! k) -> (h5_fname = None -> k <> "filename") ->
               is_Some (dcopy !! k)) /\
    _save_photon_hdf5_dict depth "/" copy (fields_descr_of user_descr) None w4
    = (w5, inr tt) /\
    sink w' = sink w5 ++ [Flush].
Proof.
  intros Hd Hrun. unfold Save.save_photon_hdf5 in Hrun.
  apply bind_returns_inv_w in Hrun as (wa & name & Hname & Hrun).
  apply bind_returns_inv_w in Hrun as (wb & found & Hb & Hrun).
  injection Hb as <- _.
  destruct h5_fname as [f|].
  - injection Hname as <- _.
    destruct (save_to_runs_writer _ _ _ _ _ _ _ Hd Hrun)
      as (copy & dcopy & w4 & w5 & H1 & H2 & H3 & H4 & H5).
    exists copy, dcopy, w4, w5. auto 10.
  - apply bind_returns_inv_w in Hname as (wc & v & Hpop & Hname).
    unfold dict_pop in Hpop. step_in Hpop (deref_run _ _ _ Hd).
    destruct (d !! "filename") as [v0|] eqn:Hfn; [|discriminate Hpop].
    injection Hpop as <- <-.
    assert (Hs : sink wa = sink w).
    { assert (Hq : sink_const
                (filename <- as_str v0 ;;
                 complib <- (match compression !! "complib" with
                             | Some v => ret v
                             | None => raise (KeyError "complib")
                             end) ;;
                 ret ((if bool_decide (complib = VStr "blosc")
                       then (splitext filename).1 +:+ "_blosc"
                       else (splitext filename).1) +:+ ".hdf5"))) by quiet.
      rewrite (Hq _ _ _ Hname). reflexivity. }
    assert (Hh : heap wa !! data_dict = Some (delete "filename" d)).
    { assert (Hq : heap_const
                (filename <- as_str v0 ;;
                 complib <- (match compression !! "complib" with
                             | Some v => ret v
                             | None => raise (KeyError "complib")
                             end) ;;
                 ret ((if bool_decide (complib = VStr "blosc")
                       then (splitext filename).1 +:+ "_blosc"
                       else (splitext filename).1) +:+ ".hdf5"))).
      { apply heap_const_bind.
        - destruct v0; first [apply heap_const_ret|apply heap_const_raise].
        - intros ?. apply heap_const_bind; [|intros ?; apply heap_const_ret].
          destruct (compression !! "complib");
            [apply heap_const_ret|apply heap_const_raise]. }
      rewrite (Hq _ _ _ Hname). unfold set_heap. cbn [heap].
      apply (lookup_insert_eq (M:=gmap loc)). }
    destruct (save_to_runs_writer _ _ _ _ _ _ _ Hh Hrun)
      as (copy & dcopy & w4 & w5 & H1 & H2 & H3 & H4 & H5).
    exists copy, dcopy, w4, w5. split; [congruence|]. split; [exact H2|].
    split; [|auto]. intros k Hk Hne. apply H3.
    rewrite lookup_delete_ne; [exact Hk|]. intros E. apply (Hne eq_refl).
    symmetry. exact E.
Qed.

(** C9.  The titles of a save come from a table in which the overlay
    wins.  Take a save that is given the overlay [user].  However it ends,
    every group and array it asked the file to create is titled from the
    overlay first: with the description the overlay has for the canonical
    path of the node when it maps that path, whatever the official table
    says of it, and with what the official table has when the overlay does
    not map the path.  And when the save returns, the file was asked to
    create a node for every name of the caller's dictionary that is a
    path segment ([filename] apart, when it served to name the file). *)
Theorem C9_user_overlay_wins depth data_dict compression h5_fname user
    w w' r :
  save_photon_hdf5 depth data_dict compression h5_fname (Some user) w
  = (w', r) ->
  exists ops,
    sink w' = sink w ++ ops /\
    (forall op path title,
       op ∈ ops -> created op = Some (path, title) ->
       overlay_first official_fields_descr user path title) /\
    (r = inr tt ->
     forall d name,
       heap w !! data_dict = Some d ->
       is_Some (d !! name) ->
       segment_ok name ->
       (h5_fname = None -> name <> "filename") ->
       exists op title,
         op ∈ ops /\ created op = Some ("/" +:+ name, title)).
Proof.
  intros Hrun.
  destruct (asks_save _ _ _ _ _ _ _ _ Hrun) as (ops & Hs & Ht).
  exists ops. split; [exact Hs|]. split.
  - intros op path title Hin Hc.
    apply (titled_overlay_first user op); [|exact Hc].
    rewrite Forall_forall in Ht. apply Ht, list_elem_of_In, Hin.
  - intros -> d name Hd Hn Hok Hne.
    destruct (save_runs_writer _ _ _ _ _ _ _ _ Hd Hrun)
      as (copy & dcopy & w4 & w5 & H1 & H2 & H3 & H4 & H5).
    destruct (item_created depth "/" copy _ None w4 w5 dcopy name H2
                (H3 _ Hn Hne) ltac:(repeat constructor; apply Hok) H4)
      as (o & op & title & Ho & Hin & Hc).
    exists op, title. split; [|exact Hc].
    assert (Hops : ops = o ++ [Flush]).
    { apply (app_inv_head (sink w)).
      rewrite <- Hs, H5, Ho, H1, <- List.app_assoc. reflexivity. }
    rewrite Hops. apply elem_of_app. left. exact Hin.
Qed.

End Operation.

End SaveTable.

(** C9, on the save of a dictionary with a comment: the official table
    and the overlay both describe [/comment], and the array is created with
    the description of the overlay. *)
Lemma C9_witness :
  Sample.descr !! "/comment" = Some "a documented field" /\
  MoreSamples.overlay !! "/comment" = Some "what I noted down" /\
  exists op,
    op ∈ Save.sink (fst MoreSamples.commented_outcome) /\
    SaveSpec.created op = Some ("/comment", "what I noted down").
Proof.
  split; [vm_compute; reflexivity|]. split; [vm_compute; reflexivity|].
  destruct (SaveTable.C9_user_overlay_wins Sample.descr "0.4.0"
              SampleSave.splitext SampleSave.abspath SampleSave.basename
              "2015-06-01 12:00:00" (fun _ => "2015-05-30 09:00:00")
              (fun _ => "2015-05-31 10:00:00")
              100 1%positive SampleSave.compression (Some "out.hdf5")
              MoreSamples.overlay MoreSamples.commented
              (fst MoreSamples.commented_outcome)
              (snd MoreSamples.commented_outcome))
    as (ops & Hs & Htitles & Hitems).
  { vm_compute. reflexivity. }
  destruct (Hitems ltac:(vm_compute; reflexivity)
              {["comment" := Save.VStr "a test";
                "timestamps" := Save.VArray [10%Z; 20%Z]]} "comment")
    as (op & title & Hin & Hc).
  - vm_compute. reflexivity.
  - exists (Save.VStr "a test"). vm_compute. reflexivity.
  - split; [discriminate|reflexivity].
  - discriminate.
  - destruct (Htitles op _ _ Hin Hc) as [Huser _].
    rewrite (Huser "what I noted down") in Hc by (vm_compute; reflexivity).
    exists op. split; [|exact Hc].
    rewrite Hs. apply elem_of_app. right. exact Hin.
Defined.

Module SaveEdges.
Import PyStr Path Save SaveSpec SaveFacts.

Section Operation.

Variable official_fields_descr : gmap string string.
Variable __version__ : string.
Variable splitext : string -> string * string.
Variable abspath : string -> string.
Variable basename : string -> string.
Variable now : string.
Variable ctime_of : string -> string.
Variable mtime_of : string -> string.

Local Abbreviation file_metadata :=
  (Save.file_metadata abspath basename ctime_of mtime_of).
Local Abbreviation add_provenance_metadata :=
  (Save.add_provenance_metadata abspath basename ctime_of mtime_of).
Local Abbreviation save_photon_hdf5 :=
  (Save.save_photon_hdf5 official_fields_descr __version__ splitext abspath
     basename now ctime_of mtime_of).

(** X16.  Called without a file name on a dictionary that has no
    [filename], [save_photon_hdf5] raises [KeyError] and changes nothing.
    With a [filename] and a compression that names no [complib], it raises
    [KeyError] too, after having removed [filename] from the caller's
    dictionary; nothing is opened or written. *)
Theorem save_without_name_or_library depth data_dict compression user_descr
    d w :
  heap w !! data_dict = Some d ->
  (d !! "filename" = None ->
   save_photon_hdf5 depth data_dict compression None user_descr w
   = (w, inl (KeyError "filename"))) /\
  (forall fn,
     d !! "filename" = Some (VStr fn) ->
     compression !! "complib" = None ->
     save_photon_hdf5 depth data_dict compression None user_descr w
     = (set_heap (<[data_dict := delete "filename" d]> (heap w)) w,
        inl (KeyError "complib"))).
Proof.
  intros Hd. split.
  - intros Hn. unfold Save.save_photon_hdf5, dict_pop.
    unfold bind at 1. unfold bind at 1. unfold bind at 1.
    rewrite (deref_run _ _ _ Hd), Hn. reflexivity.
  - intros fn Hf Hc. unfold Save.save_photon_hdf5.
    unfold bind at 1. unfold bind at 1.
    rewrite (dict_pop_run _ _ _ _ _ Hd Hf).
    unfold as_str, ret, bind. rewrite Hc. reflexivity.
Qed.

(** X17.  When the file that [provenance] names under [filename] is not
    there, the provenance block of [save_photon_hdf5] falls back on
    [filename_full]: if that file is there its metadata are merged into
    the provenance dictionary; if not, one warning is printed, the
    dictionaries stay as they are and the save goes on. *)
Theorem provenance_file_not_found data_dict dc lp dp pf pff w :
  heap w !! data_dict = Some dc ->
  dc !! "provenance" = Some (VDict lp) ->
  heap w !! lp = Some dp ->
  dp !! "filename" = Some (VStr pf) ->
  dp !! "filename_full" = Some (VStr pff) ->
  pf ∉ files w ->
  add_provenance_metadata data_dict w
  = if bool_decide (pff ∈ files w)
    then (set_heap (<[lp := file_metadata pff ∪ dp]> (heap w)) w, inr tt)
    else (with_line ("WARNING: Could not locate original file '" +:+ pf
                     +:+ "'") w, inr tt).
Proof.
  intros Hd Hp Hlp Hf Hff Hno. unfold Save.add_provenance_metadata.
  step (dict_contains_run _ _ "provenance" _ Hd).
  rewrite Hp. rewrite bool_decide_eq_true_2 by eauto.
  step (dict_get_run _ _ _ _ _ Hd Hp).
  unfold as_dict at 1. unfold bind at 1. unfold ret at 1. cbv beta iota.
  step (dict_get_run _ _ _ _ _ Hlp Hf).
  unfold as_str at 1. unfold bind at 1. unfold ret at 1. cbv beta iota.
  unfold isfile at 1. unfold bind at 1. cbv beta iota.
  rewrite (bool_decide_eq_false_2 _ Hno).
  unfold bind at 1. unfold bind at 1.
  rewrite (dict_get_run _ _ _ _ _ Hlp Hff).
  unfold as_str at 1. unfold bind at 1. unfold ret at 1. cbv beta iota.
  unfold isfile at 1. unfold bind at 1. cbv beta iota.
  destruct (bool_decide (pff ∈ files w)) eqn:E.
  - unfold ret at 1. cbv beta iota.
    unfold Save.get_file_metadata, isfile. unfold bind at 1. unfold bind at 1.
    cbv beta iota. rewrite E.
    unfold assert, ret. unfold bind at 1. cbv beta iota.
    apply dict_update_run, Hlp.
  - reflexivity.
Qed.

End Operation.

End SaveEdges.

(** ** Free-form dictionaries, written and read back *)

Module DictFacts.
Import H5 Dicts DictSpec.

(** *** Induction on values *)

Lemma size_lookup (d : gmap string pyval) k v :
  d !! k = Some v -> size v < size (PDict d).
Proof.
  cbn [size]. induction d as [|i x m Hi Hfirst IH] using map_first_key_ind.
  - rewrite lookup_empty. discriminate.
  - rewrite map_fold_insert_first_key by assumption.
    destruct (decide (k = i)) as [->|Hne].
    + rewrite lookup_insert_eq. intros [= ->]. lia.
    + rewrite lookup_insert_ne by congruence. intros H. specialize (IH H). lia.
Qed.

Lemma pyval_ind' (P : pyval -> Prop) :
  (forall v, P (PVal v)) ->
  (forall d, (forall k v, d !! k = Some v -> P v) -> P (PDict d)) ->
  forall v, P v.
Proof.
  intros HV HD v. remember (size v) as n eqn:Hn. revert v Hn.
  induction n as [n IH] using lt_wf_ind. intros [s|d] ->; [apply HV|].
  apply HD. intros k v Hk. apply (IH (size v)); [|reflexivity].
  apply (size_lookup _ _ _ Hk).
Qed.

Lemma names_ok_lookup valid_name (d : gmap string pyval) :
  names_ok valid_name (PDict d) = true <->
  forall k v, d !! k = Some v ->
              valid_name k = true /\ names_ok valid_name v = true.
Proof.
  cbn [names_ok]. induction d as [|i x m Hi Hfirst IH] using map_first_key_ind.
  - rewrite map_fold_empty. split; [|reflexivity].
    intros _ k v. rewrite lookup_empty. discriminate.
  - rewrite map_fold_insert_first_key by assumption. split.
    + intros H. apply andb_prop in H as [H Hm]. apply andb_prop in H as [Hv Hx].
      intros k v. destruct (decide (k = i)) as [->|Hne].
      * rewrite lookup_insert_eq. intros [= <-]. auto.
      * rewrite lookup_insert_ne by congruence. apply IH, Hm.
    + intros H. destruct (H i x) as [Hv Hx]; [apply lookup_insert_eq|].
      rewrite Hv, Hx. cbn [andb]. apply IH. intros k v Hk. apply H.
      rewrite lookup_insert_ne; [exact Hk|]. intros ->. congruence.
Qed.

(** *** Reading *)

Lemma dict_from_group_items cs :
  dict_from_group (Group cs) = read_items cs ∅.
Proof.
  cbn [dict_from_group]. generalize (∅ : gmap string pyval).
  induction cs as [|[k c] cs IH]; intros out; [reflexivity|].
  cbn [read_items fold_left fst snd]. rewrite IH. reflexivity.
Qed.

Lemma read_items_insert_comm cs : forall out k v,
  assoc k cs = None ->
  read_items cs (<[k := v]> out) = <[k := v]> (read_items cs out).
Proof.
  induction cs as [|[k' c] cs IH]; intros out k v Hk; [reflexivity|].
  cbn [assoc] in Hk. destruct (String.eqb_spec k k') as [->|Hne];
    [discriminate|].
  cbn [read_items fold_left fst snd].
  rewrite insert_insert_ne by congruence. apply IH, Hk.
Qed.

Lemma read_items_insert_child cs : forall out k c,
  assoc k cs = None ->
  read_items (insert_child k c cs) out
  = <[k := value_of c]> (read_items cs out).
Proof.
  induction cs as [|[k' x] cs IH]; intros out k c Hk; [reflexivity|].
  cbn [insert_child]. destruct (String.leb k k').
  - change (read_items ((k, c) :: (k', x) :: cs) out)
      with (read_items ((k', x) :: cs) (<[k := value_of c]> out)).
    apply read_items_insert_comm, Hk.
  - cbn [assoc] in Hk. destruct (String.eqb k k'); [discriminate|].
    cbn [read_items fold_left fst snd]. apply IH, Hk.
Qed.

Lemma assoc_insert_child_ne cs : forall k c k',
  k' <> k -> assoc k' (insert_child k c cs) = assoc k' cs.
Proof.
  induction cs as [|[j x] cs IH]; intros k c k' Hne.
  - cbn [insert_child assoc].
    destruct (String.eqb_spec k' k); [contradiction|reflexivity].
  - cbn [insert_child]. destruct (String.leb k j).
    + cbn [assoc]. destruct (String.eqb_spec k' k); [contradiction|].
      reflexivity.
    + cbn [assoc]. destruct (String.eqb k' j); [reflexivity|]. apply IH, Hne.
Qed.

Lemma assoc_insert_child_eq cs : forall k c,
  assoc k cs = None -> assoc k (insert_child k c cs) = Some c.
Proof.
  induction cs as [|[j x] cs IH]; intros k c Hk.
  - cbn [insert_child assoc]. rewrite String.eqb_refl. reflexivity.
  - cbn [assoc] in Hk. destruct (String.eqb k j) eqn:E; [discriminate|].
    cbn [insert_child]. destruct (String.leb k j).
    + cbn [assoc]. rewrite String.eqb_refl. reflexivity.
    + cbn [assoc]. rewrite E. apply IH, Hk.
Qed.

(** *** Writing *)

Section Writing.

Variable valid_name : string -> bool.

Local Abbreviation write_item := (Dicts.write_item valid_name).
Local Abbreviation dict_to_group := (Dicts.dict_to_group valid_name).
Local Abbreviation check_new := (Dicts.check_new valid_name).
Local Abbreviation write_items := (DictSpec.write_items valid_name).

Lemma and_then_done m : forall g, and_then m flush g = m g.
Proof.
  intros g. unfold and_then, flush, done.
  destruct (m g) as [g' [e|[]]]; reflexivity.
Qed.

Lemma dict_to_group_items d g : dict_to_group d g = write_items d g.
Proof. apply and_then_done. Qed.

Lemma write_item_dict key d g :
  write_item key (PDict d) g
  = and_then (check_new key)
      (fun g => let '(subgroup, r) := dict_to_group d [] in
                (insert_child key (Group subgroup) g, r)) g.
Proof. reflexivity. Qed.

Lemma write_items_insert i x (m : gmap string pyval) g :
  m !! i = None -> map_first_key (<[i := x]> m) i ->
  write_items (<[i := x]> m) g
  = and_then (write_item i x) (write_items m) g.
Proof.
  intros Hi Hfirst. unfold DictSpec.write_items.
  rewrite map_fold_insert_first_key by assumption. reflexivity.
Qed.

Lemma check_new_ok key g :
  valid_name key = true -> assoc key g = None ->
  check_new key g = (g, inr tt).
Proof.
  intros Hv Hk. unfold Dicts.check_new. rewrite Hv, Hk. cbn [negb].
  rewrite bool_decide_eq_false_2; [reflexivity|].
  intros [x Hx]. discriminate Hx.
Qed.

(** The loop, when every item of the dictionary can be written. *)
Lemma write_items_returns (d : gmap string pyval) :
  (forall k v, d !! k = Some v ->
     forall key g,
       names_ok valid_name v = true ->
       valid_name key = true -> assoc key g = None ->
       exists c, write_item key v g = (insert_child key c g, inr tt) /\
                 value_of c = v) ->
  names_ok valid_name (PDict d) = true ->
  forall g,
    (forall k, is_Some (d !! k) -> assoc k g = None) ->
    exists g',
      write_items d g = (g', inr tt) /\
      (forall out, read_items g' out = d ∪ read_items g out) /\
      (forall k, d !! k = None -> assoc k g' = assoc k g).
Proof.
  induction d as [|i x m Hi Hfirst IH] using map_first_key_ind;
    intros Hitem Hok g Hnew.
  - exists g. split; [reflexivity|]. split; [|reflexivity].
    intros out. rewrite (left_id_L ∅ (∪)). reflexivity.
  - rewrite names_ok_lookup in Hok.
    destruct (Hok i x ltac:(apply lookup_insert_eq)) as [Hvi Hxi].
    destruct (Hitem i x ltac:(apply lookup_insert_eq) i g Hxi Hvi)
      as (c & Hw & Hc).
    { apply Hnew. rewrite lookup_insert_eq. eauto. }
    assert (Hgi : assoc i g = None).
    { apply Hnew. rewrite lookup_insert_eq. eauto. }
    destruct (IH) with (g := insert_child i c g) as (g' & Hrun & Hread & Hkeep).
    { intros k v Hk. apply (Hitem k v). rewrite lookup_insert_ne; [exact Hk|].
      intros ->. congruence. }
    { apply names_ok_lookup. intros k v Hk. apply Hok.
      rewrite lookup_insert_ne; [exact Hk|]. intros ->. congruence. }
    { intros k Hk. rewrite assoc_insert_child_ne.
      - apply Hnew. rewrite lookup_insert_ne; [exact Hk|].
        intros ->. destruct Hk as [y Hy]. congruence.
      - intros ->. destruct Hk as [y Hy]. congruence. }
    exists g'. rewrite write_items_insert by assumption.
    unfold and_then. rewrite Hw. split; [exact Hrun|]. split.
    + intros out. rewrite Hread, read_items_insert_child by exact Hgi.
      rewrite Hc. rewrite <- insert_union_r by exact Hi.
      rewrite insert_union_l. reflexivity.
    + intros k Hk. apply lookup_insert_None in Hk as [Hk Hne].
      rewrite (Hkeep k Hk). apply assoc_insert_child_ne. congruence.
Qed.

(** An item with acceptable names, written to a group that has no child
    of its name, becomes a child that reads back as the item. *)
Lemma write_item_returns value : forall key g,
  names_ok valid_name value = true ->
  valid_name key = true -> assoc key g = None ->
  exists c, write_item key value g = (insert_child key c g, inr tt) /\
            value_of c = value.
Proof.
  induction value as [v|d IH] using pyval_ind'; intros key g Hok Hv Hk.
  - exists (Leaf v). split; [|reflexivity].
    cbn [Dicts.write_item]. unfold create_array, and_then.
    rewrite (check_new_ok _ _ Hv Hk). reflexivity.
  - rewrite write_item_dict. unfold and_then at 1.
    rewrite (check_new_ok _ _ Hv Hk).
    destruct (write_items_returns d IH Hok []) as (sub & Hrun & Hread & _).
    { intros k _. reflexivity. }
    rewrite dict_to_group_items, Hrun.
    exists (Group sub). split; [reflexivity|].
    cbn [value_of]. rewrite dict_from_group_items, Hread.
    cbn [read_items fold_left]. rewrite (right_id_L ∅ (∪)). reflexivity.
Qed.

(** X18.  Round trip.  A dictionary whose names the file accepts, at
    every depth, written by [dict_to_group] to a group that has no child
    of any of its top-level names, is written without error, and
    [dict_from_group] reads from the group what it read before together
    with the dictionary; written to an empty group, the dictionary itself.
    The children the group had are untouched. *)
Theorem dict_round_trip (d : gmap string pyval) g :
  names_ok valid_name (PDict d) = true ->
  (forall k, is_Some (d !! k) -> assoc k g = None) ->
  exists g',
    dict_to_group d g = (g', inr tt) /\
    dict_from_group (Group g') = d ∪ dict_from_group (Group g) /\
    (forall k, d !! k = None -> assoc k g' = assoc k g).
Proof.
  intros Hok Hnew.
  destruct (write_items_returns d
              (fun k v _ => write_item_returns v) Hok g Hnew)
    as (g' & Hrun & Hread & Hkeep).
  exists g'. rewrite dict_to_group_items, !dict_from_group_items. auto.
Qed.

(** *** What is there stays *)

Lemma check_new_cases key g :
  (check_new key g = (g, inr tt) /\ assoc key g = None) \/
  (exists e, check_new key g = (g, inl e)).
Proof.
  unfold Dicts.check_new. destruct (valid_name key); cbn [negb]; [|eauto].
  destruct (assoc key g) as [x|] eqn:E.
  - right. rewrite bool_decide_eq_true_2 by eauto. eauto.
  - left. rewrite bool_decide_eq_false_2; [auto|].
    intros [x Hx]. discriminate Hx.
Qed.

Lemma check_new_present key g :
  is_Some (assoc key g) -> exists e, check_new key g = (g, inl e).
Proof.
  intros Hk. destruct (check_new_cases key g) as [[_ H]|H]; [|exact H].
  destruct Hk as [x Hx]. congruence.
Qed.

Lemma write_item_keeps key value g g' r k c :
  write_item key value g = (g', r) ->
  assoc k g = Some c -> assoc k g' = Some c.
Proof.
  intros Hrun Hk.
  assert (Hne : check_new key g = (g, inr tt) -> k <> key).
  { intros H ->. destruct (check_new_cases key g) as [[_ H']|[e H']];
      congruence. }
  destruct value as [v|d].
  - cbn [Dicts.write_item] in Hrun. unfold create_array, and_then in Hrun.
    destruct (check_new_cases key g) as [[H _]|[e H]]; rewrite H in Hrun.
    + injection Hrun as <- _. rewrite assoc_insert_child_ne by auto. exact Hk.
    + injection Hrun as <- _. exact Hk.
  - rewrite write_item_dict in Hrun. unfold and_then at 1 in Hrun.
    destruct (check_new_cases key g) as [[H _]|[e H]]; rewrite H in Hrun.
    + destruct (dict_to_group d []) as [sub r']. injection Hrun as <- _.
      rewrite assoc_insert_child_ne by auto. exact Hk.
    + injection Hrun as <- _. exact Hk.
Qed.

Lemma write_item_present key value g :
  is_Some (assoc key g) -> exists e, write_item key value g = (g, inl e).
Proof.
  intros Hk. destruct (check_new_present key g Hk) as [e He].
  exists e. destruct value as [v|d].
  - cbn [Dicts.write_item]. unfold create_array, and_then. rewrite He.
    reflexivity.
  - rewrite write_item_dict. unfold and_then at 1. rewrite He. reflexivity.
Qed.

Lemma write_items_keep (d : gmap string pyval) : forall g g' r,
  write_items d g = (g', r) ->
  (forall k c, assoc k g = Some c -> assoc k g' = Some c) /\
  (forall k, is_Some (d !! k) -> is_Some (assoc k g) -> exists e, r = inl e).
Proof.
  induction d as [|i x m Hi Hfirst IH] using map_first_key_ind;
    intros g g' r Hrun.
  - injection Hrun as <- <-. split; [auto|].
    intros k [y Hy]. rewrite lookup_empty in Hy. discriminate Hy.
  - rewrite write_items_insert in Hrun by assumption.
    unfold and_then in Hrun.
    destruct (write_item i x g) as [g1 [e|[]]] eqn:E.
    + injection Hrun as <- <-. split; [|eauto].
      intros k c Hk. apply (write_item_keeps _ _ _ _ _ _ _ E Hk).
    + destruct (IH _ _ _ Hrun) as [Hkeep Hraise]. split.
      * intros k c Hk. apply Hkeep, (write_item_keeps _ _ _ _ _ _ _ E Hk).
      * intros k Hd [c Hc]. destruct (decide (k = i)) as [->|Hne].
        -- destruct (write_item_present i x g) as [e He]; [eauto|].
           congruence.
        -- apply (Hraise k).
           ++ rewrite lookup_insert_ne in Hd by congruence. exact Hd.
           ++ exists c. apply (write_item_keeps _ _ _ _ _ _ _ E Hc).
Qed.

(** X19.  [dict_to_group] never replaces a node: however it ends, every
    child the group had is still there, unchanged; and when a name of the
    dictionary is the name of a child of the group, the call raises. *)
Theorem dict_to_group_never_overwrites (d : gmap string pyval) g g' r :
  dict_to_group d g = (g', r) ->
  (forall k c, assoc k g = Some c -> assoc k g' = Some c) /\
  (forall k, is_Some (d !! k) -> is_Some (assoc k g) -> exists e, r = inl e).
Proof. rewrite dict_to_group_items. apply write_items_keep. Qed.

End Writing.

(** X20.  The dictionary [dict_from_group] builds for a group whose
    children have distinct names has one entry per child: under the name
    of the child, the dictionary of the child when it is a group, the
    value read from it otherwise; and no entry for any other name. *)
Theorem dict_from_group_lookup cs k :
  NoDup (fst <$> cs) ->
  dict_from_group (Group cs) !! k = value_of <$> assoc k cs.
Proof.
  rewrite dict_from_group_items. induction cs as [|[j c] cs IH].
  - intros _. cbn [read_items fold_left assoc]. apply lookup_empty.
  - cbn [fmap list_fmap fst]. intros Hnd.
    apply list.NoDup_cons in Hnd as [Hj Hnd].
    assert (Hjc : assoc j cs = None).
    { clear -Hj. induction cs as [|[j' c'] cs IH]; [reflexivity|].
      cbn [assoc]. destruct (String.eqb_spec j j') as [->|Hne].
      - exfalso. apply Hj. left.
      - apply IH. intros H. apply Hj. right. exact H. }
    change (read_items ((j, c) :: cs) ∅)
      with (read_items cs (<[j := value_of c]> ∅)).
    rewrite read_items_insert_comm by exact Hjc. cbn [assoc].
    destruct (String.eqb_spec k j) as [->|Hne].
    + rewrite lookup_insert_eq. reflexivity.
    + rewrite lookup_insert_ne by congruence. apply IH, Hnd.
Qed.

End DictFacts.

(** ** The theorems above, on the samples *)

Import PyStr Path PathSpec PathFacts PathCases H5 Tree Phase Save SaveSpec
  Dicts DictSpec DictFacts MoreSamples.

(** X1, on a name below [photon_data3] and on a name with a separator. *)
Lemma X1_witness :
  (exists is_phdata is_user,
     _analyze_path "timestamps" (Some ["photon_data3"]) tt
     = (tt, inr (canonical
                   (full_path_of "timestamps" (Some ["photon_data3"])),
                 is_phdata, is_user))) /\
  (exists e,
     _analyze_path "photon_data3/timestamps" None tt = (tt, inl e) /\
     (e = IndexError \/ e = AssertionError)).
Proof.
  split.
  - apply (proj1 (analyze_path_accepts_exactly "timestamps"
                    (Some ["photon_data3"]) tt)).
    split; [split; [discriminate|reflexivity]|].
    right. exists "p"%char, "3"%char. repeat split; discriminate.
  - apply (proj2 (analyze_path_accepts_exactly "photon_data3/timestamps"
                    None tt)).
    intros [[_ H] _]. vm_compute in H. discriminate H.
Defined.

(** X2, on [measurement_type] two levels below [photon_data12]. *)
Lemma X2_witness :
  _analyze_path "measurement_type" (Some ["photon_data12"; "measurement_specs"])
    tt
  = _analyze_path "measurement_type" (Some ["photon_data"; "measurement_specs"])
      tt.
Proof.
  apply (analyze_path_ignores_numbering "12" ["measurement_specs"]
           "measurement_type" tt).
  - reflexivity.
  - repeat constructor; discriminate.
Defined.

(** X3, on the meta path returned for [photon_data7/timestamps]. *)
Lemma X3_witness : "/photon_data/timestamps" <> "/photon_data7/timestamps".
Proof.
  apply (analyze_path_never_numbered "timestamps" (Some ["photon_data7"])
           tt tt "/photon_data/timestamps" true false "7"%char "/timestamps").
  - vm_compute. reflexivity.
  - reflexivity.
Defined.

(** X5, on [/photon_data5/timestamps]. *)
Lemma X5_witness :
  _check_path Sample.descr "/photon_data5/timestamps" true []
  = _check_path Sample.descr "/photon_data/timestamps" true [].
Proof.
  apply (check_path_ignores_numbering Sample.descr "5" "/timestamps" true []).
  reflexivity.
Defined.

(** X7, on a group with the timestamps fields only: the run that
    returns is the one under strict=false. *)
Lemma X7_witness :
  has_path ["measurement_specs"; "measurement_type"]
    (ONode "/photon_data" Sample.photon_data_bare) = false /\
  exists msg,
    (msg = missing_specs \/ msg = missing_type) /\
    [warning missing_specs] = [] ++ [warning msg].
Proof.
  apply (check_photon_data_returns_only_untyped
           (ONode "/photon_data" Sample.photon_data_bare) false []
           [warning missing_specs]).
  vm_compute. reflexivity.
Defined.

(** X8, on a group with the timestamps fields only, under strict=false. *)
Lemma X8_witness :
  exists msg,
    (msg = missing_specs \/ msg = missing_type) /\
    _check_photon_data (ONode "/photon_data" Sample.photon_data_bare) false
      []
    = ([warning msg], inr tt).
Proof.
  apply (check_photon_data_without_type "/photon_data"
           Sample.photon_data_bare false []).
  - vm_compute. reflexivity.
  - vm_compute. reflexivity.
Defined.


(** X11, on the sample file numbered from 0, under strict=false. *)
Lemma X11_witness :
  (exists out' e,
     assert_valid_photon_hdf5 Sample.descr Sample.file_numbered_from_0
       false [] = (out', inl e)) /\
  (forall out1,
     top_level_checks Sample.descr Sample.file_numbered_from_0 false []
     = (out1, inr tt) ->
     assert_valid_photon_hdf5 Sample.descr Sample.file_numbered_from_0
       false [] = (out1, inl AttributeError)).
Proof.
  eapply (numbered_family_never_validates Sample.descr "/" _ _ false []).
  - vm_compute. reflexivity.
  - vm_compute. reflexivity.
Defined.

(** X12, on a file whose only child [photon_data...] is an array
    [photon_data0]: no group is checked, and the file is accepted. *)
Lemma X12_witness :
  assert_valid_photon_hdf5 Sample.descr
    (Sample.file_of_array [("setup", Sample.setup)]) false []
  = ([], inr tt).
Proof.
  apply (strict_acceptance_implies_lenient Sample.descr
           (Sample.file_of_array [("setup", Sample.setup)]) []).
  vm_compute. reflexivity.
Defined.

(** X13, on the writer run on the caller's dictionary of the sample save. *)
Lemma X13_witness :
  heap (fst written_outcome) = heap SampleSave.before /\
  files (fst written_outcome) = files SampleSave.before /\
  (exists lines,
     printed (fst written_outcome) = printed SampleSave.before ++ lines) /\
  exists ops,
    sink (fst written_outcome) = sink SampleSave.before ++ ops /\
    well_formed_ops ["/"] ops.
Proof.
  apply (WriterFacts.writer_only_appends 100 "/" 1%positive Sample.descr None
           SampleSave.before (fst written_outcome) (snd written_outcome)).
  vm_compute. reflexivity.
Defined.

(** X14, on the sample save. *)
Lemma X14_witness :
  exists ops,
    well_formed_ops ["/"] ops /\
    sink SampleSave.after
    = sink SampleSave.before ++ ops ++ match snd SampleSave.outcome with
                                       | inr _ => [Flush]
                                       | inl _ => []
                                       end.
Proof.
  apply (SaveOps.save_flushes_once_on_success Sample.descr "0.4.0"
           SampleSave.splitext SampleSave.abspath SampleSave.basename
           "2015-06-01 12:00:00" (fun _ => "2015-05-30 09:00:00")
           (fun _ => "2015-05-31 10:00:00")
           100 1%positive SampleSave.compression None None
           SampleSave.before SampleSave.after (snd SampleSave.outcome)).
  vm_compute. reflexivity.
Defined.

(** X16, on a dictionary without [filename], and on the sample save with
    an empty compression. *)
Lemma X16_witness :
  SampleSave.save 1%positive SampleSave.compression None None nameless
  = (nameless, inl (KeyError "filename")) /\
  SampleSave.save 1%positive ∅ None None SampleSave.before
  = (set_heap (<[1%positive := delete "filename" SampleSave.caller_dict]>
                 (heap SampleSave.before)) SampleSave.before,
     inl (KeyError "complib")).
Proof.
  split.
  - apply (proj1 (SaveEdges.save_without_name_or_library Sample.descr "0.4.0"
             SampleSave.splitext SampleSave.abspath SampleSave.basename
             "2015-06-01 12:00:00" (fun _ => "2015-05-30 09:00:00")
             (fun _ => "2015-05-31 10:00:00")
             100 1%positive SampleSave.compression None
             {["timestamps" := VArray [10%Z; 20%Z]]} nameless eq_refl)).
    reflexivity.
  - apply (proj2 (SaveEdges.save_without_name_or_library Sample.descr "0.4.0"
             SampleSave.splitext SampleSave.abspath SampleSave.basename
             "2015-06-01 12:00:00" (fun _ => "2015-05-30 09:00:00")
             (fun _ => "2015-05-31 10:00:00")
             100 1%positive ∅ None
             SampleSave.caller_dict SampleSave.before eq_refl) "run1.spc").
    + reflexivity.
    + reflexivity.
Defined.

(** X17, on the sample save once the original file was moved: the
    metadata come from [filename_full]. *)
Lemma X17_witness :
  Save.add_provenance_metadata SampleSave.abspath SampleSave.basename
    (fun _ => "2015-05-30 09:00:00") (fun _ => "2015-05-31 10:00:00")
    1%positive moved
  = (set_heap
       (<[2%positive :=
            Save.file_metadata SampleSave.abspath SampleSave.basename
              (fun _ => "2015-05-30 09:00:00")
              (fun _ => "2015-05-31 10:00:00") "/home/user/run1.spc"
            ∪ SampleSave.provenance_dict]> (heap moved)) moved,
     inr tt).
Proof.
  apply (SaveEdges.provenance_file_not_found SampleSave.abspath
           SampleSave.basename (fun _ => "2015-05-30 09:00:00")
           (fun _ => "2015-05-31 10:00:00")
           1%positive SampleSave.caller_dict 2%positive
           SampleSave.provenance_dict "run1.spc" "/home/user/run1.spc" moved).
  - reflexivity.
  - reflexivity.
  - reflexivity.
  - reflexivity.
  - reflexivity.
  - vm_compute. intros H. discriminate H.
Defined.

(** X15, on the item [timestamps] of the sample save. *)
Lemma X15_witness :
  op_of_item Sample.descr "/" None "timestamps" (VArray [10%Z; 20%Z; 35%Z])
  ∈ sink (fst written_outcome).
Proof.
  apply (WriterItems.writer_writes_each_item 100 "/" 1%positive Sample.descr
           None SampleSave.before (fst written_outcome)
           SampleSave.caller_dict "timestamps" (VArray [10%Z; 20%Z; 35%Z])).
  - reflexivity.
  - reflexivity.
  - repeat constructor; discriminate.
  - vm_compute. reflexivity.
Defined.

(** X18, on a dictionary with a dictionary in it, written to an empty
    group. *)
Lemma X18_witness :
  exists g',
    dict_to_group plain_name settings [] = (g', inr tt) /\
    dict_from_group (Group g') = settings ∪ dict_from_group (Group []) /\
    (forall k, settings !! k = None -> assoc k g' = assoc k []).
Proof.
  apply (dict_round_trip plain_name settings []).
  - vm_compute. reflexivity.
  - intros k _. reflexivity.
Defined.

(** X19, on the same dictionary, written to a group that has a child
    [gain]. *)
Lemma X19_witness :
  (forall k c,
     assoc k occupied = Some c ->
     assoc k (fst (dict_to_group plain_name settings occupied)) = Some c) /\
  (forall k,
     is_Some (settings !! k) -> is_Some (assoc k occupied) ->
     exists e, snd (dict_to_group plain_name settings occupied) = inl e).
Proof.
  apply (dict_to_group_never_overwrites plain_name settings occupied
           (fst (dict_to_group plain_name settings occupied))
           (snd (dict_to_group plain_name settings occupied))).
  vm_compute. reflexivity.
Defined.

(** X20, on the sample measurement group. *)
Lemma X20_witness :
  dict_from_group (Sample.photon_data "smFRET") !! "timestamps"
  = value_of <$> assoc "timestamps"
                   [("measurement_specs", Sample.measurement_specs "smFRET");
                    ("nantotimes", Sample.leaf);
                    ("nantotimes_specs",
                     Group [("tcspc_num_bins", Sample.leaf);
                            ("tcspc_range", Sample.leaf);
                            ("time_reversed", Sample.leaf)]);
                    ("timestamps", Sample.leaf);
                    ("timestamps_specs",
                     Group [("timestamps_unit", Sample.leaf)])].
Proof.
  apply (dict_from_group_lookup _ "timestamps").
  apply (bool_decide_unpack _). vm_compute. exact I.
Defined.

(** X4, on [timestamps] below [photon_data2]. *)
Lemma X4_witness :
  exists is_phdata is_user,
    _analyze_path "timestamps" (Some ["photon_data2"]) tt
    = (tt, inr (canonical
                  (full_path_of "timestamps" (Some ["photon_data2"])),
                is_phdata, is_user)) /\
    (is_user = true
     <-> "user" ∈ ancestors (Some ["photon_data2"]) ++ ["timestamps"]) /\
    (is_phdata = true <->
     exists g, ancestors (Some ["photon_data2"]) = [g] /\
               startswith g "photon_data" = true /\
               endswith "timestamps" "_specs" = false).
Proof.
  apply (analyze_path_flags "timestamps" (Some ["photon_data2"]) tt).
  repeat constructor; discriminate.
Defined.
